(** * The agent session core of ollama-interface, embedded in Rocq

    The development follows [src/agent.js] (class [PrivateAgent]) and
    [src/system-tools.js] (class [SystemTools]).

    - JavaScript strings are sequences of code units.  The model keeps the
      code units below 256 (the Latin-1 range), as [list ascii]; [length]
      is JavaScript's [.length].
    - The builtins [JSON.parse] and [JSON.stringify], the wall clock, the
      inference server and the operating system are the environment: they
      enter the model as parameters, and concrete stand-ins are given for
      the worked examples.
    - Methods that mutate [this] are functions from a state to a result and
      a new state; a [throw] is the [Threw] result. *)

From Stdlib Require Import String Ascii List ZArith QArith Bool Arith Lia.
From Stdlib Require Import DecimalString.
Import ListNotations.

Set Warnings "-register-all".

Local Open Scope list_scope.
Local Open Scope nat_scope.

(* ================================================================== *)
(** * Part I.  The model *)
(* ================================================================== *)

(** ** JavaScript strings *)

Module JsString.

Definition jstring := list ascii.

(** A string literal of the source. *)
Definition lit (s : string) : jstring := list_ascii_of_string s.

Definition code (c : ascii) : nat := nat_of_ascii c.

Definition chr_eqb (a b : ascii) : bool := Ascii.eqb a b.

Fixpoint jstr_eqb (a b : jstring) : bool :=
  match a, b with
  | [], [] => true
  | x :: a', y :: b' => chr_eqb x y && jstr_eqb a' b'
  | _, _ => false
  end.

(** [WhiteSpace] and [LineTerminator] of ECMAScript below 256: TAB, LF, VT,
    FF, CR, SP and NBSP.  This is the class [\s] and the set [trim] strips. *)
Definition is_space (c : ascii) : bool :=
  let n := code c in
  (n =? 9) || (n =? 10) || (n =? 11) || (n =? 12) || (n =? 13)
  || (n =? 32) || (n =? 160).

Fixpoint trimStart (s : jstring) : jstring :=
  match s with
  | c :: s' => if is_space c then trimStart s' else s
  | [] => []
  end.

Definition trimEnd (s : jstring) : jstring := rev (trimStart (rev s)).

(** [String.prototype.trim]. *)
Definition trim (s : jstring) : jstring := trimEnd (trimStart s).

(** [String.prototype.toLowerCase] on Latin-1 code units: A-Z, and
    U+00C0-U+00DE except the multiplication sign U+00D7. *)
Definition lower_chr (c : ascii) : ascii :=
  let n := code c in
  if ((65 <=? n) && (n <=? 90))
     || ((192 <=? n) && (n <=? 222) && negb (n =? 215))
  then ascii_of_nat (n + 32) else c.

Definition toLowerCase (s : jstring) : jstring := map lower_chr s.

(** [s.startsWith(p)], and the rest of [s] after the prefix. *)
Fixpoint strip_prefix (p s : jstring) : option jstring :=
  match p with
  | [] => Some s
  | x :: p' =>
      match s with
      | y :: s' => if chr_eqb x y then strip_prefix p' s' else None
      | [] => None
      end
  end.

Definition starts_with (p s : jstring) : bool :=
  match strip_prefix p s with Some _ => true | None => false end.

(** [s.includes(p)]. *)
Fixpoint includes (p s : jstring) : bool :=
  starts_with p s ||
  match s with
  | [] => false
  | _ :: s' => includes p s'
  end.

(** [s.substring(0, n)]. *)
Definition substring0 (n : nat) (s : jstring) : jstring := firstn n s.

(** JavaScript truthiness of a string: the empty string is falsy. *)
Definition truthy_str (s : jstring) : bool :=
  match s with [] => false | _ => true end.

(** [a || b] on strings where [a] may be [undefined]. *)
Definition or_str (a : option jstring) (b : jstring) : jstring :=
  match a with
  | Some s => if truthy_str s then s else b
  | None => b
  end.

End JsString.
Import JsString.

(** ** Regular expressions

    The fragment of ECMAScript regular expressions the source uses, with
    the backtracking semantics of the language: alternatives are tried
    left to right, a greedy quantifier tries the longest repetition first
    and a lazy one the shortest.  Every quantifier of the source ranges
    over a one-character atom ([\s], [.] with the [s] flag, [[^\/]]). *)

Module Regex.

Inductive regex : Type :=
| Empty : regex
| Chr : (ascii -> bool) -> regex
| Seq : regex -> regex -> regex
| Alt : regex -> regex -> regex
| Star : bool -> (ascii -> bool) -> regex   (* [true]: greedy *)
| Group : nat -> regex -> regex.

(** Captures, newest first. *)
Definition captures := list (nat * jstring).

Fixpoint capture (n : nat) (c : captures) : option jstring :=
  match c with
  | [] => None
  | (m, s) :: c' => if Nat.eqb m n then Some s else capture n c'
  end.

Section Matcher.
Context {A : Type}.

Fixpoint star_greedy (p : ascii -> bool) (s : jstring)
  (k : jstring -> option A) : option A :=
  match s with
  | c :: s' =>
      if p c then
        match star_greedy p s' k with
        | Some r => Some r
        | None => k s
        end
      else k s
  | [] => k s
  end.

Fixpoint star_lazy (p : ascii -> bool) (s : jstring)
  (k : jstring -> option A) : option A :=
  match k s with
  | Some r => Some r
  | None =>
      match s with
      | c :: s' => if p c then star_lazy p s' k else None
      | [] => None
      end
  end.

(** [rmatch r s c k]: match [r] at the head of [s], then continue with
    [k] on the rest; [None] makes the matcher backtrack. *)
Fixpoint rmatch (r : regex) (s : jstring) (c : captures)
  (k : jstring -> captures -> option A) : option A :=
  match r with
  | Empty => k s c
  | Chr p =>
      match s with
      | x :: s' => if p x then k s' c else None
      | [] => None
      end
  | Seq r1 r2 => rmatch r1 s c (fun s1 c1 => rmatch r2 s1 c1 k)
  | Alt r1 r2 =>
      match rmatch r1 s c k with
      | Some x => Some x
      | None => rmatch r2 s c k
      end
  | Star greedy p =>
      (if greedy then star_greedy else star_lazy) p s (fun s' => k s' c)
  | Group n r1 =>
      rmatch r1 s c
        (fun s' c' => k s' ((n, firstn (length s - length s') s) :: c'))
  end.

End Matcher.

(** A match at the head of [s]: the captures and the text after it. *)
Definition match_here (r : regex) (s : jstring) : option (captures * jstring) :=
  rmatch r s [] (fun s' c => Some (c, s')).

(** The leftmost match at or after the head of [s] ([RegExp.prototype.exec]
    from the current [lastIndex]; the returned rest starts at the new
    [lastIndex]). *)
Fixpoint exec (r : regex) (s : jstring) : option (captures * jstring) :=
  match match_here r s with
  | Some m => Some m
  | None =>
      match s with
      | [] => None
      | _ :: s' => exec r s'
      end
  end.

(** [RegExp.prototype.test] of a regex without the [g] flag. *)
Definition test (r : regex) (s : jstring) : bool :=
  match exec r s with Some _ => true | None => false end.

(** Pattern syntax. *)
Definition any : ascii -> bool := fun _ => true.            (* [.] with [s] *)
Definition chr (c : ascii) : regex := Chr (chr_eqb c).
Definition not_chr (c : ascii) : ascii -> bool := fun x => negb (chr_eqb c x).

Fixpoint str (l : jstring) : regex :=
  match l with
  | [] => Empty
  | c :: l' => Seq (chr c) (str l')
  end.

(** [Canonicalize] of the [i] flag on code units below 256 whose upper case
    stays below 256: a-z, and U+00E0-U+00FE except the division sign. *)
Definition canon (c : ascii) : ascii :=
  let n := code c in
  if ((97 <=? n) && (n <=? 122))
     || ((224 <=? n) && (n <=? 254) && negb (n =? 247))
  then ascii_of_nat (n - 32) else c.

Definition chr_i (c : ascii) : regex :=
  Chr (fun x => chr_eqb (canon c) (canon x)).

Fixpoint str_i (l : jstring) : regex :=
  match l with
  | [] => Empty
  | c :: l' => Seq (chr_i c) (str_i l')
  end.

Definition ws_star : regex := Star true is_space.                 (* [\s*] *)
Definition ws_plus : regex := Seq (Chr is_space) (Star true is_space). (* [\s+] *)

Fixpoint seqs (l : list regex) : regex :=
  match l with
  | [] => Empty
  | [r] => r
  | r :: l' => Seq r (seqs l')
  end.

End Regex.
Import Regex.

(** ** JSON values

    What [JSON.parse] returns and [JSON.stringify] prints.  An object keeps
    its properties in insertion order; a number is the decimal [m * 10^e]. *)

Module Json.

Inductive json : Type :=
| JNull : json
| JBool : bool -> json
| JNum : Z -> Z -> json
| JStr : jstring -> json
| JArr : list json -> json
| JObj : list (jstring * json) -> json.

Definition empty_object : json := JObj [].

Fixpoint lookup (k : jstring) (fields : list (jstring * json)) : option json :=
  match fields with
  | [] => None
  | (k', v) :: rest => if jstr_eqb k k' then Some v else lookup k rest
  end.

(** The outcome of a property read [o.k]: [undefined] is [Some None], and
    reading a property of [null] throws a [TypeError]. *)
Definition prop (o : json) (k : jstring) : option (option json) :=
  match o with
  | JNull => None
  | JObj fields => Some (lookup k fields)
  | _ => Some None
  end.

(** Truthiness of a JSON value; [undefined] is [None]. *)
Definition truthy (v : option json) : bool :=
  match v with
  | None => false
  | Some JNull => false
  | Some (JBool b) => b
  | Some (JNum m _) => negb (Z.eqb m 0)
  | Some (JStr s) => truthy_str s
  | Some (JArr _) => true
  | Some (JObj _) => true
  end.

(** *** A printer and a parser

    Stand-ins for [JSON.stringify] and [JSON.parse], used where an example
    needs the builtins to run.  The parser accepts the JSON grammar; a
    [\u] escape above U+00FF denotes a string outside the model and is
    refused. *)

Definition NL : ascii := ascii_of_nat 10.
Definition QUOTE : ascii := ascii_of_nat 34.
Definition BACKSLASH : ascii := ascii_of_nat 92.

Definition hex_digit (n : nat) : ascii :=
  if n <? 10 then ascii_of_nat (48 + n) else ascii_of_nat (87 + n).

Definition escape_chr (c : ascii) : jstring :=
  let n := code c in
  if n =? 34 then [BACKSLASH; QUOTE]
  else if n =? 92 then [BACKSLASH; BACKSLASH]
  else if n =? 8 then BACKSLASH :: lit "b"
  else if n =? 12 then BACKSLASH :: lit "f"
  else if n =? 10 then BACKSLASH :: lit "n"
  else if n =? 13 then BACKSLASH :: lit "r"
  else if n =? 9 then BACKSLASH :: lit "t"
  else if n <? 32 then
    BACKSLASH :: lit "u00" ++ [hex_digit (n / 16); hex_digit (n mod 16)]
  else [c].

Definition quote (s : jstring) : jstring :=
  QUOTE :: flat_map escape_chr s ++ [QUOTE].

Definition print_Z (z : Z) : jstring :=
  lit (DecimalString.NilZero.string_of_int (Z.to_int z)).

Definition print_num (m e : Z) : jstring :=
  if Z.eqb e 0 then print_Z m else print_Z m ++ lit "e" ++ print_Z e.

Definition pad (n : nat) : jstring := repeat (ascii_of_nat 32) n.

(** [Array.prototype.join] over the printed elements. *)
Definition join_map {A : Type} (f : A -> jstring) (sep : jstring)
  : list A -> jstring :=
  fix items (l : list A) : jstring :=
    match l with
    | [] => []
    | [x] => f x
    | x :: l' => f x ++ sep ++ items l'
    end.

(** [JSON.stringify(v)]. *)
Fixpoint stringify (v : json) : jstring :=
  match v with
  | JNull => lit "null"
  | JBool true => lit "true"
  | JBool false => lit "false"
  | JNum m e => print_num m e
  | JStr s => quote s
  | JArr l => lit "[" ++ join_map stringify (lit ",") l ++ lit "]"
  | JObj fs =>
      lit "{" ++
      join_map (fun kv => match kv with
                          | (k, x) => quote k ++ lit ":" ++ stringify x
                          end) (lit ",") fs
      ++ lit "}"
  end.

(** [JSON.stringify(v, null, 2)] at indentation [ind]. *)
Fixpoint stringify_at (ind : nat) (v : json) : jstring :=
  match v with
  | JArr [] => lit "[]"
  | JObj [] => lit "{}"
  | JArr l =>
      lit "[" ++ [NL] ++ pad (ind + 2) ++
      join_map (stringify_at (ind + 2)) (lit "," ++ [NL] ++ pad (ind + 2)) l
      ++ [NL] ++ pad ind ++ lit "]"
  | JObj fs =>
      lit "{" ++ [NL] ++ pad (ind + 2) ++
      join_map (fun kv => match kv with
                          | (k, x) => quote k ++ lit ": " ++ stringify_at (ind + 2) x
                          end) (lit "," ++ [NL] ++ pad (ind + 2)) fs
      ++ [NL] ++ pad ind ++ lit "}"
  | _ => stringify v
  end.

Definition stringify_pretty (v : json) : jstring := stringify_at 0 v.

(** JSON white space: SP, TAB, LF, CR. *)
Definition is_json_ws (c : ascii) : bool :=
  let n := code c in (n =? 32) || (n =? 9) || (n =? 10) || (n =? 13).

Fixpoint skip_ws (s : jstring) : jstring :=
  match s with
  | c :: s' => if is_json_ws c then skip_ws s' else s
  | [] => []
  end.

Definition digit_val (c : ascii) : option Z :=
  let n := code c in
  if (48 <=? n) && (n <=? 57) then Some (Z.of_nat (n - 48)) else None.

Definition hex_val (c : ascii) : option nat :=
  let n := code c in
  if (48 <=? n) && (n <=? 57) then Some (n - 48)
  else if (97 <=? n) && (n <=? 102) then Some (n - 87)
  else if (65 <=? n) && (n <=? 70) then Some (n - 55)
  else None.

(** Digits at the head of [s]: their value on top of [acc], how many, and
    the rest. *)
Fixpoint parse_digits (s : jstring) (acc : Z) (count : nat) : Z * nat * jstring :=
  match s with
  | c :: s' =>
      match digit_val c with
      | Some d => parse_digits s' (acc * 10 + d)%Z (S count)
      | None => (acc, count, s)
      end
  | [] => (acc, count, s)
  end.

Definition parse_int_part (s : jstring) : option (Z * jstring) :=
  match s with
  | c :: s' =>
      if code c =? 48 then Some (0%Z, s')
      else
        match parse_digits s 0%Z 0 with
        | (_, 0, _) => None
        | (v, _, r) => Some (v, r)
        end
  | [] => None
  end.

Definition parse_frac (s : jstring) (m : Z) : option (Z * Z * jstring) :=
  match s with
  | c :: s' =>
      if code c =? 46 then
        match parse_digits s' m 0 with
        | (_, 0, _) => None
        | (v, n, r) => Some (v, (- Z.of_nat n)%Z, r)
        end
      else Some (m, 0%Z, s)
  | [] => Some (m, 0%Z, s)
  end.

Definition parse_exp (s : jstring) : option (Z * jstring) :=
  match s with
  | c :: s' =>
      if (code c =? 101) || (code c =? 69) then
        let '(neg, s1) :=
          match s' with
          | d :: s'' =>
              if code d =? 45 then (true, s'')
              else if code d =? 43 then (false, s'') else (false, s')
          | [] => (false, s')
          end in
        match parse_digits s1 0%Z 0 with
        | (_, 0, _) => None
        | (v, _, r) => Some ((if neg then - v else v)%Z, r)
        end
      else Some (0%Z, s)
  | [] => Some (0%Z, s)
  end.

Definition parse_number (s : jstring) : option (json * jstring) :=
  let '(neg, s0) :=
    match s with
    | c :: s' => if code c =? 45 then (true, s') else (false, s)
    | [] => (false, s)
    end in
  match parse_int_part s0 with
  | None => None
  | Some (i, s1) =>
      match parse_frac s1 i with
      | None => None
      | Some (m, e1, s2) =>
          match parse_exp s2 with
          | None => None
          | Some (e2, s3) => Some (JNum (if neg then - m else m)%Z (e1 + e2)%Z, s3)
          end
      end
  end.

(** The characters of a string after its opening quote. *)
Fixpoint parse_chars (s : jstring) : option (jstring * jstring) :=
  match s with
  | [] => None
  | c :: s' =>
      if code c =? 34 then Some ([], s')
      else if code c <? 32 then None
      else if code c =? 92 then
        match s' with
        | e :: s'' =>
            let simple (x : nat) :=
              match parse_chars s'' with
              | Some (t, r) => Some (ascii_of_nat x :: t, r)
              | None => None
              end in
            let n := code e in
            if n =? 34 then simple 34
            else if n =? 92 then simple 92
            else if n =? 47 then simple 47
            else if n =? 98 then simple 8
            else if n =? 102 then simple 12
            else if n =? 110 then simple 10
            else if n =? 114 then simple 13
            else if n =? 116 then simple 9
            else if n =? 117 then
              match s'' with
              | h1 :: h2 :: h3 :: h4 :: s4 =>
                  match hex_val h1, hex_val h2, hex_val h3, hex_val h4 with
                  | Some 0, Some 0, Some a, Some b =>
                      match parse_chars s4 with
                      | Some (t, r) => Some (ascii_of_nat (16 * a + b) :: t, r)
                      | None => None
                      end
                  | _, _, _, _ => None
                  end
              | _ => None
              end
            else None
        | [] => None
        end
      else
        match parse_chars s' with
        | Some (t, r) => Some (c :: t, r)
        | None => None
        end
  end.

Fixpoint parse_value (fuel : nat) (s : jstring) : option (json * jstring) :=
  match fuel with
  | O => None
  | S f =>
      match skip_ws s with
      | [] => None
      | c :: r =>
          let n := code c in
          if n =? 34 then
            match parse_chars r with
            | Some (t, r') => Some (JStr t, r')
            | None => None
            end
          else if n =? 91 then
            match skip_ws r with
            | d :: r' =>
                if code d =? 93 then Some (JArr [], r')
                else
                  match parse_elements f r with
                  | Some (l, r'') => Some (JArr l, r'')
                  | None => None
                  end
            | [] => None
            end
          else if n =? 123 then
            match skip_ws r with
            | d :: r' =>
                if code d =? 125 then Some (JObj [], r')
                else
                  match parse_members f r with
                  | Some (l, r'') => Some (JObj l, r'')
                  | None => None
                  end
            | [] => None
            end
          else
            match strip_prefix (lit "null") (c :: r) with
            | Some r' => Some (JNull, r')
            | None =>
                match strip_prefix (lit "true") (c :: r) with
                | Some r' => Some (JBool true, r')
                | None =>
                    match strip_prefix (lit "false") (c :: r) with
                    | Some r' => Some (JBool false, r')
                    | None => parse_number (c :: r)
                    end
                end
            end
      end
  end
with parse_elements (fuel : nat) (s : jstring) : option (list json * jstring) :=
  match fuel with
  | O => None
  | S f =>
      match parse_value f s with
      | None => None
      | Some (v, r) =>
          match skip_ws r with
          | d :: r' =>
              if code d =? 44 then
                match parse_elements f r' with
                | Some (l, r'') => Some (v :: l, r'')
                | None => None
                end
              else if code d =? 93 then Some ([v], r')
              else None
          | [] => None
          end
      end
  end
with parse_members (fuel : nat) (s : jstring)
  : option (list (jstring * json) * jstring) :=
  match fuel with
  | O => None
  | S f =>
      match skip_ws s with
      | q :: r0 =>
          if code q =? 34 then
            match parse_chars r0 with
            | None => None
            | Some (k, r1) =>
                match skip_ws r1 with
                | col :: r2 =>
                    if code col =? 58 then
                      match parse_value f r2 with
                      | None => None
                      | Some (v, r3) =>
                          match skip_ws r3 with
                          | d :: r4 =>
                              if code d =? 44 then
                                match parse_members f r4 with
                                | Some (l, r5) => Some ((k, v) :: l, r5)
                                | None => None
                                end
                              else if code d =? 125 then Some ([(k, v)], r4)
                              else None
                          | [] => None
                          end
                      end
                    else None
                | [] => None
                end
            end
          else None
      | [] => None
      end
  end.

(** A later duplicate key of an object replaces the earlier one, in the
    position of the first occurrence. *)
Fixpoint set_field (k : jstring) (v : json) (fs : list (jstring * json))
  : list (jstring * json) :=
  match fs with
  | [] => [(k, v)]
  | (k', v') :: fs' =>
      if jstr_eqb k k' then (k', v) :: fs' else (k', v') :: set_field k v fs'
  end.

Fixpoint normalise (v : json) : json :=
  match v with
  | JArr l => JArr (map normalise l)
  | JObj fs =>
      JObj (fold_left (fun acc kv => set_field (fst kv) (normalise (snd kv)) acc) fs [])
  | _ => v
  end.

(** [JSON.parse(s)]; [None] when it throws a [SyntaxError]. *)
Definition parse (s : jstring) : option json :=
  match parse_value (S (length s)) s with
  | Some (v, r) =>
      match skip_ws r with
      | [] => Some (normalise v)
      | _ => None
      end
  | None => None
  end.

End Json.
Import Json.

(** ** Results of calls *)

(** A call returns a value or throws an [Error] with a message. *)
Inductive outcome (A : Type) : Type :=
| Returned : A -> outcome A
| Threw : jstring -> outcome A.
Arguments Returned {A} _.
Arguments Threw {A} _.

(** A promise as its caller observes it. *)
Inductive promise (A : Type) : Type :=
| Resolved : A -> promise A
| Rejected : jstring -> promise A
| Pending : promise A.
Arguments Resolved {A} _.
Arguments Rejected {A} _.
Arguments Pending {A}.

(** ** The command executor ([SystemTools], src/system-tools.js) *)

(** [exitCode]: a number, a string code such as ENOENT, or [null]. *)
Inductive exit_code : Type :=
| ExitNum : Z -> exit_code
| ExitStr : jstring -> exit_code
| ExitNull : exit_code.

(** The record pushed on [executionHistory].  [executionTime] and [error]
    are absent from some records. *)
Record execution : Type := {
  command : jstring;
  stdout : jstring;
  stderr : jstring;
  exitCode : exit_code;
  executionTime : option Z;
  timestamp : jstring;
  cwd : json;
  error : option jstring
}.

Record SystemTools : Type := {
  platform : jstring;
  isWindows : bool;
  shell : jstring;
  executionHistory : list execution
}.

Definition set_executionHistory (t : SystemTools) (h : list execution) : SystemTools :=
  {| platform := platform t; isWindows := isWindows t; shell := shell t;
     executionHistory := h |}.

(** [new SystemTools()] on a host whose [os.platform()] is [p]. *)
Definition new_SystemTools (p : jstring) : SystemTools :=
  let win := jstr_eqb p (lit "win32") in
  {| platform := p; isWindows := win;
     shell := if win then lit "powershell.exe" else lit "/bin/bash";
     executionHistory := [] |}.

(** The error object a rejected [execAsync] carries. *)
Record exec_error : Type := {
  err_stdout : option jstring;
  err_stderr : option jstring;
  err_code : option exit_code;
  err_message : jstring;
  err_killed : bool;
  err_signal : option jstring
}.

Inductive exec_settled : Type :=
| ExecResolved : jstring -> jstring -> exec_settled      (* stdout, stderr *)
| ExecRejected : exec_error -> exec_settled.

(** What the operating system did, in order. *)
Inductive os_event : Type :=
| ExecStarted : jstring -> Z -> os_event        (* exec(command, {timeout}) *)
| Spawned : jstring -> os_event                 (* spawn(command) *)
| TimerArmed : Z -> os_event                    (* setTimeout(_, ms) *)
| Killed : os_event.                            (* child.kill() *)

(** What the builtins and the operating system answer.  The [nat] is the
    number of records already in the history the call appends to, so that
    successive calls may get different answers.  [fs_listDirectory],
    [fs_readFile] and [fs_writeFile] stand for [listDirectory], [readFile]
    and [writeFile] of system-tools.js, which return an array of entries,
    [{path, size, content, modified}] and [{path, size, success}], or throw;
    [os_systemInfo] is what [getSystemInfo] reads from the [os] module. *)
Record Env : Type := {
  JSON_parse : jstring -> outcome json;
  JSON_stringify : json -> jstring;
  JSON_stringify_indent2 : json -> jstring;
  process_cwd : jstring;
  execAsync : jstring -> Z -> json -> nat -> exec_settled;
  exec_elapsed : nat -> Z;
  now_iso : nat -> jstring;
  fs_listDirectory : option json -> option json -> nat -> outcome json;
  fs_readFile : option json -> nat -> outcome json;
  fs_writeFile : option json -> option json -> option json -> nat -> outcome json;
  os_systemInfo : nat -> json;
  tool_elapsed : nat -> Z
}.

(** The denylist of [isDangerousCommand], pattern by pattern. *)
Definition dangerousPatterns : list regex :=
  [ (* /rm\s+-rf\s+\/[^\/]*/ *)
    seqs [str (lit "rm"); ws_plus; str (lit "-rf"); ws_plus; str (lit "/");
          Star true (not_chr "/"%char)];
    (* /del\s+\/s\s+\/q\s+c:\\/i *)
    seqs [str_i (lit "del"); ws_plus; str_i (lit "/s"); ws_plus;
          str_i (lit "/q"); ws_plus; str_i (lit "c:" ++ [BACKSLASH])];
    (* /format\s+c:/i *)
    seqs [str_i (lit "format"); ws_plus; str_i (lit "c:")];
    (* /mkfs/ *)
    str (lit "mkfs");
    (* /dd\s+if=/ *)
    seqs [str (lit "dd"); ws_plus; str (lit "if=")];
    (* /:(){ :|:& };:/ : the bar is an alternation, the parentheses an
       empty group and the braces, which form no quantifier, literals *)
    Alt (seqs [str (lit ":"); Group 1 Empty; str (lit "{ :")])
        (str (lit ":& };:"));
    (* /shutdown/ *)
    str (lit "shutdown");
    (* /reboot/ *)
    str (lit "reboot");
    (* /init\s+0/ *)
    seqs [str (lit "init"); ws_plus; str (lit "0")];
    (* /systemctl\s+poweroff/ *)
    seqs [str (lit "systemctl"); ws_plus; str (lit "poweroff")] ].

Definition isDangerousCommand (command : jstring) : bool :=
  let lowerCmd := toLowerCase command in
  existsb (fun pattern => test pattern lowerCmd) dangerousPatterns.

Definition security_error : jstring := lit "Command blocked for security reasons".

(** The [options] of [executeCommand]; an absent property is [None]. *)
Record exec_options : Type := {
  opt_timeout : option Z;
  opt_cwd : option json
}.

Definition no_options : exec_options := {| opt_timeout := None; opt_cwd := None |}.

Definition default_timeout : Z := 30000.

(** [a || b] on the exit code of an error. *)
Definition or_code (c : option exit_code) (d : exit_code) : exit_code :=
  match c with
  | Some (ExitNum n) => if Z.eqb n 0 then d else ExitNum n
  | Some (ExitStr s) => if truthy_str s then ExitStr s else d
  | Some ExitNull => d
  | None => d
  end.

(** [executeCommand(command, options)]: the value the returned promise
    settles with, the new state, and what the operating system was asked. *)
Definition executeCommand (env : Env) (t : SystemTools) (command : jstring)
  (options : exec_options) : outcome execution * SystemTools * list os_event :=
  let timeout := match opt_timeout options with Some ms => ms | None => default_timeout end in
  let cwd := match opt_cwd options with Some d => d | None => JStr (process_cwd env) end in
  if isDangerousCommand command then (Threw security_error, t, [])
  else
    let n := length (executionHistory t) in
    let rec :=
      match execAsync env command timeout cwd n with
      | ExecResolved out err =>
          {| command := command; stdout := out; stderr := err;
             exitCode := ExitNum 0; executionTime := Some (exec_elapsed env n);
             timestamp := now_iso env n; cwd := cwd; error := None |}
      | ExecRejected e =>
          {| command := command;
             stdout := or_str (err_stdout e) [];
             stderr := or_str (err_stderr e) (err_message e);
             exitCode := or_code (err_code e) (ExitNum 1);
             executionTime := Some (exec_elapsed env n);
             timestamp := now_iso env n; cwd := cwd;
             error := Some (err_message e) |}
      end in
    (Returned rec, set_executionHistory t (executionHistory t ++ [rec]),
     [ExecStarted command timeout]).

(** *** Streamed execution

    [executeCommandStream] registers handlers on the child process and on a
    60 s timer; the model runs the handlers over the events in the order
    the event loop delivers them. *)

Inductive child_event : Type :=
| OnStdout : jstring -> child_event            (* child.stdout 'data' *)
| OnStderr : jstring -> child_event            (* child.stderr 'data' *)
| OnClose : exit_code -> child_event           (* child 'close' *)
| OnError : jstring -> child_event             (* child 'error' *)
| OnTimeout : child_event.                     (* the timer fires *)

Inductive stream_name : Type := StdoutStream | StderrStream.

Record stream_call : Type := {
  sc_stdout : jstring;
  sc_stderr : jstring;
  sc_promise : promise execution;
  sc_tools : SystemTools;
  sc_onData : list (stream_name * jstring);
  sc_os : list os_event
}.

Definition stream_timeout : Z := 60000.
Definition timeout_error : jstring := lit "Command timeout".

(** [resolve] and [reject] settle a promise once; later calls do nothing. *)
Definition settle {A : Type} (p : promise A) (v : promise A) : promise A :=
  match p with
  | Pending => v
  | _ => p
  end.

Definition stream_handler (env : Env) (command : jstring) (cwd : json)
  (s : stream_call) (ev : child_event) : stream_call :=
  match ev with
  | OnStdout text =>
      {| sc_stdout := sc_stdout s ++ text; sc_stderr := sc_stderr s;
         sc_promise := sc_promise s; sc_tools := sc_tools s;
         sc_onData := sc_onData s ++ [(StdoutStream, text)]; sc_os := sc_os s |}
  | OnStderr text =>
      {| sc_stdout := sc_stdout s; sc_stderr := sc_stderr s ++ text;
         sc_promise := sc_promise s; sc_tools := sc_tools s;
         sc_onData := sc_onData s ++ [(StderrStream, text)]; sc_os := sc_os s |}
  | OnClose code =>
      let n := length (executionHistory (sc_tools s)) in
      let rec :=
        {| command := command; stdout := sc_stdout s; stderr := sc_stderr s;
           exitCode := code; executionTime := None;
           timestamp := now_iso env n; cwd := cwd; error := None |} in
      {| sc_stdout := sc_stdout s; sc_stderr := sc_stderr s;
         sc_promise := settle (sc_promise s) (Resolved rec);
         sc_tools := set_executionHistory (sc_tools s)
                       (executionHistory (sc_tools s) ++ [rec]);
         sc_onData := sc_onData s; sc_os := sc_os s |}
  | OnError msg =>
      {| sc_stdout := sc_stdout s; sc_stderr := sc_stderr s;
         sc_promise := settle (sc_promise s) (Rejected msg);
         sc_tools := sc_tools s; sc_onData := sc_onData s; sc_os := sc_os s |}
  | OnTimeout =>
      {| sc_stdout := sc_stdout s; sc_stderr := sc_stderr s;
         sc_promise := settle (sc_promise s) (Rejected timeout_error);
         sc_tools := sc_tools s; sc_onData := sc_onData s;
         sc_os := sc_os s ++ [Killed] |}
  end.

(** [executeCommandStream(command, onData, options)] followed by the events
    [events] of the child, for a command that [spawn] starts; a command
    that [spawn] itself refuses, such as the empty one, has no child and no
    events, and is not modelled. *)
Definition executeCommandStream (env : Env) (t : SystemTools) (command : jstring)
  (options : exec_options) (events : list child_event) : stream_call :=
  let cwd := match opt_cwd options with Some d => d | None => JStr (process_cwd env) end in
  if isDangerousCommand command then
    {| sc_stdout := []; sc_stderr := []; sc_promise := Rejected security_error;
       sc_tools := t; sc_onData := []; sc_os := [] |}
  else
    fold_left (stream_handler env command cwd) events
      {| sc_stdout := []; sc_stderr := []; sc_promise := Pending;
         sc_tools := t; sc_onData := [];
         sc_os := [Spawned command; TimerArmed stream_timeout] |}.

(** ** The agent ([PrivateAgent], src/agent.js) *)

Record Message : Type := {
  role : jstring;
  content : jstring
}.

(** What a tool returns: a string ([getCurrentDirectory]), an execution
    record ([executeCommand]) or another object. *)
Inductive tool_result : Type :=
| RText : jstring -> tool_result
| RExec : execution -> tool_result
| RJson : json -> tool_result.

(** The record pushed on [toolCallHistory]; the source names its
    properties [function], [args], [result], [error], [executionTime],
    [timestamp] and [success]. *)
Record ToolCallRecord : Type := {
  tc_function : jstring;
  tc_args : json;
  tc_result : option tool_result;
  tc_error : option jstring;
  tc_executionTime : Z;
  tc_timestamp : jstring;
  tc_success : bool
}.

Record PrivateAgent : Type := {
  ollamaUrl : jstring;
  model : jstring;
  maxContextTokens : Z;
  conversationHistory : list Message;
  systemPrompt : jstring;
  enableTools : bool;
  systemTools : SystemTools;
  toolCallHistory : list ToolCallRecord;
  logs : bool
}.

Definition set_conversationHistory (a : PrivateAgent) (h : list Message) : PrivateAgent :=
  {| ollamaUrl := ollamaUrl a; model := model a;
     maxContextTokens := maxContextTokens a; conversationHistory := h;
     systemPrompt := systemPrompt a; enableTools := enableTools a;
     systemTools := systemTools a; toolCallHistory := toolCallHistory a;
     logs := logs a |}.

Definition set_systemTools (a : PrivateAgent) (t : SystemTools) : PrivateAgent :=
  {| ollamaUrl := ollamaUrl a; model := model a;
     maxContextTokens := maxContextTokens a;
     conversationHistory := conversationHistory a;
     systemPrompt := systemPrompt a; enableTools := enableTools a;
     systemTools := t; toolCallHistory := toolCallHistory a;
     logs := logs a |}.

Definition set_toolCallHistory (a : PrivateAgent) (h : list ToolCallRecord) : PrivateAgent :=
  {| ollamaUrl := ollamaUrl a; model := model a;
     maxContextTokens := maxContextTokens a;
     conversationHistory := conversationHistory a;
     systemPrompt := systemPrompt a; enableTools := enableTools a;
     systemTools := systemTools a; toolCallHistory := h;
     logs := logs a |}.

Definition set_model_prompt_history (a : PrivateAgent) (m p : jstring)
  (h : list Message) : PrivateAgent :=
  {| ollamaUrl := ollamaUrl a; model := m;
     maxContextTokens := maxContextTokens a; conversationHistory := h;
     systemPrompt := p; enableTools := enableTools a;
     systemTools := systemTools a; toolCallHistory := toolCallHistory a;
     logs := logs a |}.

(** The [config] of the constructor; an absent property is [None]. *)
Record Config : Type := {
  cfg_ollamaUrl : option jstring;
  cfg_model : option jstring;
  cfg_maxContextTokens : option Z;
  cfg_systemPrompt : option jstring;
  cfg_enableTools : option bool;
  cfg_source : option jstring;
  cfg_consoleLog : option bool
}.

(** [new PrivateAgent(config)] on a host of platform [p]. *)
Definition new_PrivateAgent (p : jstring) (config : Config) : PrivateAgent :=
  {| ollamaUrl := or_str (cfg_ollamaUrl config) (lit "http://localhost:11434");
     model := or_str (cfg_model config) (lit "llama2");
     maxContextTokens :=
       match cfg_maxContextTokens config with
       | Some n => if Z.eqb n 0 then 4096%Z else n
       | None => 4096%Z
       end;
     conversationHistory := [];
     systemPrompt := or_str (cfg_systemPrompt config) (lit "You are a helpful AI assistant.");
     enableTools := match cfg_enableTools config with Some false => false | _ => true end;
     systemTools := new_SystemTools p;
     toolCallHistory := [];
     logs :=
       match cfg_source config, cfg_consoleLog config with
       | Some s, Some b => jstr_eqb s (lit "web") && b
       | _, _ => false
       end |}.

(** *** Conversation state *)

Definition system_role : jstring := lit "system".

(** The synthetic message a reset inserts. *)
Definition reset_notice : Message :=
  {| role := system_role;
     content := lit "[Previous conversation context was reset due to length limit]" |}.

(** [history.reduce((sum, msg) => sum + msg.content.length, 0)]. *)
Definition totalChars (history : list Message) : Z :=
  fold_left (fun sum msg => (sum + Z.of_nat (length (content msg)))%Z) history 0%Z.

(** [totalChars / 4]: one token for four characters. *)
Definition estimatedTokens (history : list Message) : Q := totalChars history # 4.

(** [l.slice(-n)]: the last [n] elements, all of them when there are fewer. *)
Definition slice_last {A : Type} (n : nat) (l : list A) : list A :=
  skipn (length l - n) l.

Definition is_system (msg : Message) : bool := jstr_eqb (role msg) system_role.

Definition exceeds (a : PrivateAgent) : bool :=
  match (estimatedTokens (conversationHistory a) ?= inject_Z (maxContextTokens a))%Q with
  | Gt => true
  | _ => false
  end.

(** [checkAndResetContext()]: whether the context was reset, and the state. *)
Definition checkAndResetContext (a : PrivateAgent) : bool * PrivateAgent :=
  if exceeds a then
    let systemMessages := filter is_system (conversationHistory a) in
    let recentMessages := slice_last 10 (conversationHistory a) in
    (true,
     set_conversationHistory a (systemMessages ++ [reset_notice] ++ recentMessages))
  else (false, a).

(** [addMessage(role, content)]; the method returns nothing. *)
Definition addMessage (a : PrivateAgent) (r c : jstring) : PrivateAgent :=
  let pushed :=
    set_conversationHistory a
      (conversationHistory a ++ [{| role := r; content := c |}]) in
  snd (checkAndResetContext pushed).

Definition clearHistory (a : PrivateAgent) : PrivateAgent :=
  set_conversationHistory a [].

Definition getHistory (a : PrivateAgent) : list Message := conversationHistory a.

(** *** Export and import *)

Definition message_json (m : Message) : json :=
  JObj [(lit "role", JStr (role m)); (lit "content", JStr (content m))].

(** The document [exportHistory] serialises, at wall-clock time [iso]. *)
Definition export_document (a : PrivateAgent) (iso : jstring) : json :=
  JObj [(lit "model", JStr (model a));
        (lit "systemPrompt", JStr (systemPrompt a));
        (lit "history", JArr (map message_json (conversationHistory a)));
        (lit "timestamp", JStr iso)].

Definition exportHistory (env : Env) (a : PrivateAgent) (iso : jstring) : jstring :=
  JSON_stringify_indent2 env (export_document a iso).

(** A message object of an imported history, when it is one of the data
    model: exactly a [role] and a [content], both strings. *)
Definition json_message (v : json) : option Message :=
  match v with
  | JObj [(k1, JStr r); (k2, JStr c)] =>
      if jstr_eqb k1 (lit "role") && jstr_eqb k2 (lit "content")
      then Some {| role := r; content := c |} else None
  | _ => None
  end.

Fixpoint json_messages (l : list json) : option (list Message) :=
  match l with
  | [] => Some []
  | v :: l' =>
      match json_message v, json_messages l' with
      | Some m, Some ms => Some (m :: ms)
      | _, _ => None
      end
  end.

(** [importHistory] returns [true], throws, or leaves the typed model: the
    blob holds a truthy [model] or [systemPrompt] that is no string, or a
    truthy [history] that is no array of messages. *)
Inductive import_result : Type :=
| Imported : PrivateAgent -> import_result
| ImportThrew : jstring -> import_result
| ImportUntyped : import_result.

Definition import_prefix : jstring := lit "Failed to import history: ".

Definition null_read_error (k : jstring) : jstring :=
  lit "Cannot read properties of null (reading '" ++ k ++ lit "')".

(** [v || d] where [v] must be a string to stay in the typed model. *)
Definition or_string_field (v : option json) (d : jstring) : option jstring :=
  if truthy v then
    match v with
    | Some (JStr s) => Some s
    | _ => None
    end
  else Some d.

Definition importHistory (env : Env) (a : PrivateAgent) (jsonString : jstring)
  : import_result :=
  match JSON_parse env jsonString with
  | Threw msg => ImportThrew (import_prefix ++ msg)
  | Returned data =>
      match prop data (lit "model"), prop data (lit "systemPrompt"),
            prop data (lit "history") with
      | Some vm, Some vp, Some vh =>
          match or_string_field vm (model a),
                or_string_field vp (systemPrompt a),
                (if truthy vh then
                   match vh with
                   | Some (JArr l) => json_messages l
                   | _ => None
                   end
                 else Some [])
          with
          | Some m, Some p, Some h => Imported (set_model_prompt_history a m p h)
          | _, _, _ => ImportUntyped
          end
      | _, _, _ => ImportThrew (import_prefix ++ null_read_error (lit "model"))
      end
  end.

(** *** The tool dispatcher *)

(** The object [getSystemInfo] builds from the [os] module. *)
Definition getSystemInfo (env : Env) (t : SystemTools) (n : nat) : json :=
  match os_systemInfo env n with
  | JObj host => JObj ((lit "platform", JStr (platform t)) :: host
                       ++ [(lit "shell", JStr (shell t))])
  | other => other
  end.

Definition undefined_read_error (k : jstring) : jstring :=
  lit "Cannot read properties of undefined (reading '" ++ k ++ lit "')".

Definition not_a_function_error (what : jstring) : jstring :=
  what ++ lit " is not a function".

Definition unknown_tool_error (functionName : jstring) : jstring :=
  lit "Unknown tool: " ++ functionName.

Definition RJson_outcome (r : outcome json) : outcome tool_result :=
  match r with
  | Returned v => Returned (RJson v)
  | Threw msg => Threw msg
  end.

(** The [switch] of [executeTool]: the value of [result], or what is
    thrown, and the executor after the call. *)
Definition dispatch (env : Env) (a : PrivateAgent) (functionName : jstring)
  (args : json) : outcome tool_result * SystemTools :=
  let t := systemTools a in
  let n := length (toolCallHistory a) in
  if jstr_eqb functionName (lit "execute_command") then
    match prop args (lit "command"), prop args (lit "cwd") with
    | Some (Some (JStr c)), Some d =>
        match executeCommand env t c {| opt_timeout := None; opt_cwd := d |} with
        | (Returned e, t', _) => (Returned (RExec e), t')
        | (Threw msg, t', _) => (Threw msg, t')
        end
    | Some (Some JNull), Some _ => (Threw (null_read_error (lit "toLowerCase")), t)
    | Some (Some _), Some _ =>
        (Threw (not_a_function_error (lit "command.toLowerCase")), t)
    | Some None, Some _ => (Threw (undefined_read_error (lit "toLowerCase")), t)
    | _, _ => (Threw (null_read_error (lit "command")), t)
    end
  else if jstr_eqb functionName (lit "list_directory") then
    match prop args (lit "path"), prop args (lit "detailed") with
    | Some p, Some d => (RJson_outcome (fs_listDirectory env p d n), t)
    | _, _ => (Threw (null_read_error (lit "path")), t)
    end
  else if jstr_eqb functionName (lit "read_file") then
    match prop args (lit "filepath") with
    | Some p => (RJson_outcome (fs_readFile env p n), t)
    | None => (Threw (null_read_error (lit "filepath")), t)
    end
  else if jstr_eqb functionName (lit "write_file") then
    match prop args (lit "filepath"), prop args (lit "content"),
          prop args (lit "append") with
    | Some p, Some c, Some ap => (RJson_outcome (fs_writeFile env p c ap n), t)
    | _, _, _ => (Threw (null_read_error (lit "filepath")), t)
    end
  else if jstr_eqb functionName (lit "get_system_info") then
    (Returned (RJson (getSystemInfo env t n)), t)
  else if jstr_eqb functionName (lit "get_current_directory") then
    (Returned (RText (process_cwd env)), t)
  else (Threw (unknown_tool_error functionName), t).

(** [executeTool(functionName, args)]. *)
Definition executeTool (env : Env) (a : PrivateAgent) (functionName : jstring)
  (args : json) : outcome tool_result * PrivateAgent :=
  let n := length (toolCallHistory a) in
  match dispatch env a functionName args with
  | (Returned result, t') =>
      let toolCall :=
        {| tc_function := functionName; tc_args := args;
           tc_result := Some result; tc_error := None;
           tc_executionTime := tool_elapsed env n;
           tc_timestamp := now_iso env n; tc_success := true |} in
      (Returned result,
       set_toolCallHistory (set_systemTools a t') (toolCallHistory a ++ [toolCall]))
  | (Threw msg, t') =>
      let toolCall :=
        {| tc_function := functionName; tc_args := args;
           tc_result := None; tc_error := Some msg;
           tc_executionTime := tool_elapsed env n;
           tc_timestamp := now_iso env n; tc_success := false |} in
      (Threw msg,
       set_toolCallHistory (set_systemTools a t') (toolCallHistory a ++ [toolCall]))
  end.

(** *** Tool calls in the text of the assistant *)

(** An entry [{function: {name, arguments}}]. *)
Record ToolCall : Type := {
  name : jstring;
  arguments : json
}.

(** [/<tool_call>\s*<function>(.*?)<\/function>\s*<arguments>(.*?)<\/arguments>\s*<\/tool_call>/gs] *)
Definition tool_call_regex : regex :=
  seqs [str (lit "<tool_call>"); ws_star;
        str (lit "<function>"); Group 1 (Star false any); str (lit "</function>");
        ws_star;
        str (lit "<arguments>"); Group 2 (Star false any); str (lit "</arguments>");
        ws_star; str (lit "</tool_call>")].

(** The body of the loop for one match; [None] when the body throws and
    the entry is dropped. *)
Definition toolCall_of_match (env : Env) (m : captures) : option ToolCall :=
  match capture 1 m, capture 2 m with
  | Some m1, Some m2 =>
      let functionName := trim m1 in
      let argsText := trim m2 in
      let args :=
        if truthy_str argsText then
          match JSON_parse env argsText with
          | Returned v => v
          | Threw _ => empty_object
          end
        else empty_object in
      Some {| name := functionName; arguments := args |}
  | _, _ => None
  end.

(** [while ((match = regex.exec(text)) !== null) ...], on the text from
    [lastIndex] on.  A match is never empty, so [fuel] above the length of
    the text is never exhausted. *)
Fixpoint extract_loop (env : Env) (fuel : nat) (text : jstring) : list ToolCall :=
  match fuel with
  | O => []
  | S fuel' =>
      match exec tool_call_regex text with
      | None => []
      | Some (m, rest) =>
          match toolCall_of_match env m with
          | Some toolCall => toolCall :: extract_loop env fuel' rest
          | None => extract_loop env fuel' rest
          end
      end
  end.

Definition extractToolCalls (env : Env) (text : jstring) : list ToolCall :=
  extract_loop env (S (length text)) text.

(** *** Running the tool calls of a turn *)

(** An entry of the results list: [{tool, result}] or [{tool, error}]. *)
Record ToolResultEntry : Type := {
  tr_tool : jstring;
  tr_result : option jstring;
  tr_error : option jstring
}.

(** The calls of [onChunk], by what they show. *)
Inductive chunk : Type :=
| Delta : jstring -> chunk                 (* a content delta of the model *)
| ToolsBanner : chunk                      (* "Executing tools..." *)
| ToolHeader : jstring -> chunk            (* "**Tool:** name" *)
| ToolArguments : jstring -> chunk         (* "**Arguments:** `json`" *)
| ToolResultPreview : jstring -> chunk     (* "**Result:**" and the preview *)
| ToolError : jstring -> chunk.            (* "**Error:** message" *)

(** The arguments handed to the tool, from the raw [arguments] of an entry. *)
Definition decode_arguments (env : Env) (rawArgs : json) : json :=
  match rawArgs with
  | JNull => empty_object
  | JObj _ => rawArgs
  | JStr s =>
      if jstr_eqb (trim s) [] || jstr_eqb (trim s) (lit "{}") then empty_object
      else
        match JSON_parse env s with
        | Returned v => v
        | Threw _ => empty_object
        end
  | _ => empty_object
  end.

(** [resultText]; the objects the primitives return have no [stdout]
    property, and a [null] result throws on the read of [stdout]. *)
Definition resultText (env : Env) (r : tool_result) : outcome jstring :=
  match r with
  | RText s => Returned s
  | RExec e =>
      Returned (stdout e ++
                if truthy_str (stderr e) then [NL] ++ lit "Stderr: " ++ stderr e else [])
  | RJson JNull => Threw (null_read_error (lit "stdout"))
  | RJson (JStr s) => Returned s
  | RJson v => Returned (JSON_stringify_indent2 env v)
  end.

Definition preview (text : jstring) : jstring :=
  substring0 500 text ++ (if 500 <? length text then lit "..." else []).

(** One iteration of the loop of [executeToolCallsAndContinue]. *)
Definition run_tool_call (env : Env)
  (acc : list ToolResultEntry * PrivateAgent * list chunk) (toolCall : ToolCall)
  : list ToolResultEntry * PrivateAgent * list chunk :=
  let '(results, a, chunks) := acc in
  let functionName := name toolCall in
  let args := decode_arguments env (arguments toolCall) in
  let chunks1 :=
    chunks ++ [ToolHeader functionName; ToolArguments (JSON_stringify env args)] in
  let failed (msg : jstring) (a' : PrivateAgent) :=
    (results ++ [{| tr_tool := functionName; tr_result := None; tr_error := Some msg |}],
     a', chunks1 ++ [ToolError msg]) in
  match executeTool env a functionName args with
  | (Returned result, a') =>
      match resultText env result with
      | Returned text =>
          (results ++ [{| tr_tool := functionName; tr_result := Some text;
                          tr_error := None |}],
           a', chunks1 ++ [ToolResultPreview (preview text)])
      | Threw msg => failed msg a'
      end
  | (Threw msg, a') => failed msg a'
  end.

(** [executeToolCallsAndContinue(toolCalls, onChunk, options)]: the results,
    the state, and the chunks shown. *)
Definition executeToolCallsAndContinue (env : Env) (a : PrivateAgent)
  (toolCalls : list ToolCall) : list ToolResultEntry * PrivateAgent * list chunk :=
  fold_left (run_tool_call env) toolCalls ([], a, [ToolsBanner]).

(** The text of [result.result] in a template: the result, or [undefined]
    for an entry without one. *)
Definition result_text (r : ToolResultEntry) : jstring :=
  match tr_result r with Some t => t | None => lit "undefined" end.

(** [buildToolResultPrompt(toolResults)]: an entry shows its error when it
    has one that is not empty, and its result otherwise. *)
Definition buildToolResultPrompt (toolResults : list ToolResultEntry) : jstring :=
  fold_left
    (fun prompt r =>
       prompt ++ lit "Tool: " ++ tr_tool r ++ [NL] ++
       match tr_error r with
       | Some e =>
           if truthy_str e then lit "Error: " ++ e ++ [NL; NL]
           else lit "Result:" ++ [NL] ++ result_text r ++ [NL; NL]
       | None => lit "Result:" ++ [NL] ++ result_text r ++ [NL; NL]
       end)
    toolResults (lit "Tool execution results:" ++ [NL; NL])
  ++ lit "Please provide a natural language response to the user based on these results.".

(** *** The streamed chat *)

(** A line of the response that parses to the envelope
    [{message: {content}, done, prompt_eval_count, eval_count}]; an absent
    property is [None]. *)
Record fragment : Type := {
  f_content : option jstring;
  f_done : bool;
  f_prompt_eval_count : option Z;
  f_eval_count : option Z
}.

(** The handler splits each chunk of the response at the line breaks and
    drops the blank lines.  A line either parses to a fragment or makes the
    handler throw, and is skipped. *)
Inductive line : Type :=
| Garbage : line
| Fragment : fragment -> line.

Inductive stream_event : Type :=
| Line : line -> stream_event
| StreamError : jstring -> stream_event.

(** The answer of the inference server to one request. *)
Inductive response : Type :=
| RequestFailed : jstring -> response
| Streaming : list stream_event -> response.

(** How the consumption of a stream ends: at the first fragment with
    [done], where the handler settles the promise or starts the tools --
    the server sends it last, and the lines of a response that goes on
    after it are not modelled --, with an error, or still open. *)
Inductive stream_end : Type :=
| Done : jstring -> fragment -> stream_end
| Errored : jstring -> stream_end
| Open : stream_end.

(** The ['data'] handler over the lines of a response: [fullResponse] and
    the chunks forwarded. *)
Fixpoint consume (events : list stream_event) (fullResponse : jstring)
  (chunks : list chunk) : stream_end * list chunk :=
  match events with
  | [] => (Open, chunks)
  | StreamError msg :: _ => (Errored msg, chunks)
  | Line Garbage :: rest => consume rest fullResponse chunks
  | Line (Fragment parsed) :: rest =>
      let '(full, chunks') :=
        match f_content parsed with
        | Some c =>
            if truthy_str c then (fullResponse ++ c, chunks ++ [Delta c])
            else (fullResponse, chunks)
        | None => (fullResponse, chunks)
        end in
      if f_done parsed then (Done full parsed, chunks')
      else consume rest full chunks'
  end.

(** [(parsed?.prompt_eval_count || 0) + (parsed?.eval_count || 0)]. *)
Definition token_total (parsed : fragment) : Z :=
  (match f_prompt_eval_count parsed with Some n => n | None => 0 end
   + match f_eval_count parsed with Some n => n | None => 0 end)%Z.

Definition user_role : jstring := lit "user".
Definition assistant_role : jstring := lit "assistant".

(** [continueAfterTools(prompt, onChunk, options)] against the response
    [resp] of the server. *)
Definition continueAfterTools (env : Env) (a : PrivateAgent) (prompt : jstring)
  (resp : response) : promise jstring * PrivateAgent * list chunk :=
  let a1 := addMessage a user_role prompt in
  match resp with
  | RequestFailed msg => (Rejected (lit "Continue chat error: " ++ msg), a1, [])
  | Streaming events =>
      match consume events [] [] with
      | (Done fullResponse _, chunks) =>
          (Resolved fullResponse, addMessage a1 assistant_role fullResponse, chunks)
      | (Errored msg, chunks) => (Rejected (lit "Stream error: " ++ msg), a1, chunks)
      | (Open, chunks) => (Pending, a1, chunks)
      end
  end.

(** The value a turn resolves with. *)
Record TurnResult : Type := {
  message : jstring;
  turn_model : jstring;
  contextReset : bool;
  toolCalls : list ToolCall;
  total_tokens : Z
}.

(** [options.executeTools]; [None] when absent. *)
Record chat_options : Type := {
  executeTools : option bool
}.

Definition tools_wanted (options : chat_options) : bool :=
  match executeTools options with Some false => false | _ => true end.

(** [streamChat(userMessage, onChunk, options)] against the responses of
    the server to the first request and to the follow-up request. *)
Definition streamChat (env : Env) (a : PrivateAgent) (userMessage : jstring)
  (options : chat_options) (first followUp : response)
  : promise TurnResult * PrivateAgent * list chunk :=
  let a1 := addMessage a user_role userMessage in
  match first with
  | RequestFailed msg => (Rejected (lit "Stream chat error: " ++ msg), a1, [])
  | Streaming events =>
      match consume events [] [] with
      | (Open, chunks) => (Pending, a1, chunks)
      | (Errored msg, chunks) => (Rejected (lit "Stream error: " ++ msg), a1, chunks)
      | (Done fullResponse parsed, chunks) =>
          let calls := extractToolCalls env fullResponse in
          if (0 <? length calls) && enableTools a1 && tools_wanted options then
            let '(toolResults, a2, chunks2) := executeToolCallsAndContinue env a1 calls in
            let a3 := addMessage a2 assistant_role fullResponse in
            let followUpPrompt := buildToolResultPrompt toolResults in
            let '(p, a4, chunks3) := continueAfterTools env a3 followUpPrompt followUp in
            let all := chunks ++ chunks2 ++ chunks3 in
            match p with
            | Resolved _ =>
                (Resolved {| message := fullResponse; turn_model := model a4;
                             contextReset := false; toolCalls := calls;
                             total_tokens := token_total parsed |}, a4, all)
            | Rejected msg => (Rejected msg, a4, all)
            | Pending => (Pending, a4, all)
            end
          else
            let a2 := addMessage a1 assistant_role fullResponse in
            (Resolved {| message := fullResponse; turn_model := model a2;
                         contextReset := false; toolCalls := [];
                         total_tokens := token_total parsed |}, a2, chunks)
      end
  end.

(** ** A concrete environment for the worked examples *)

(** Text with the apostrophes read as double quotes. *)
Definition jtext (s : string) : jstring :=
  map (fun c => if chr_eqb c "'"%char then QUOTE else c) (lit s).

Definition parse_outcome (s : jstring) : outcome json :=
  match Json.parse s with
  | Some v => Returned v
  | None => Threw (lit "Unexpected token in JSON")
  end.

Definition iso_2024 : jstring := lit "2024-01-01T00:00:00.000Z".

(** Every command succeeds and prints [ok]. *)
Definition demo_env : Env :=
  {| JSON_parse := parse_outcome;
     JSON_stringify := stringify;
     JSON_stringify_indent2 := stringify_pretty;
     process_cwd := lit "/home/user";
     execAsync := fun _ _ _ _ => ExecResolved (lit "ok") [];
     exec_elapsed := fun _ => 5%Z;
     now_iso := fun _ => iso_2024;
     fs_listDirectory := fun _ _ _ =>
       Returned (JArr [JObj [(lit "name", JStr (lit "README.md"));
                             (lit "isDirectory", JBool false)]]);
     fs_readFile := fun _ _ => Threw (lit "Failed to read file: ENOENT");
     fs_writeFile := fun _ _ _ _ =>
       Returned (JObj [(lit "path", JStr (lit "/home/user/out.txt"));
                       (lit "size", JNum 2 0); (lit "success", JBool true)]);
     os_systemInfo := fun _ => JObj [(lit "arch", JStr (lit "x64"))];
     tool_elapsed := fun _ => 7%Z |}.

(** The error [exec] rejects with when its timeout kills the child; the
    message is the command and, on a line of its own, the empty stderr. *)
Definition killed_by_timeout (c : jstring) : exec_error :=
  {| err_stdout := Some []; err_stderr := Some [];
     err_code := Some ExitNull;
     err_message := lit "Command failed: " ++ c ++ [NL];
     err_killed := true; err_signal := Some (lit "SIGTERM") |}.

(** Every command runs past the timeout of [exec]. *)
Definition slow_env : Env :=
  {| JSON_parse := parse_outcome;
     JSON_stringify := stringify;
     JSON_stringify_indent2 := stringify_pretty;
     process_cwd := lit "/home/user";
     execAsync := fun c _ _ _ => ExecRejected (killed_by_timeout c);
     exec_elapsed := fun _ => 30001%Z;
     now_iso := fun _ => iso_2024;
     fs_listDirectory := fs_listDirectory demo_env;
     fs_readFile := fs_readFile demo_env;
     fs_writeFile := fs_writeFile demo_env;
     os_systemInfo := os_systemInfo demo_env;
     tool_elapsed := fun _ => 30002%Z |}.

Definition demo_agent (budget : Z) : PrivateAgent :=
  new_PrivateAgent (lit "linux")
    {| cfg_ollamaUrl := None; cfg_model := None;
       cfg_maxContextTokens := Some budget; cfg_systemPrompt := None;
       cfg_enableTools := None; cfg_source := Some (lit "cli");
       cfg_consoleLog := Some true |}.

(** The pieces of a tool-call marker: the function name, the text of the
    arguments, and the white space between the tags. *)
Record marker_spec : Type := {
  m_ws1 : jstring;
  m_function : jstring;
  m_ws2 : jstring;
  m_arguments : jstring;
  m_ws3 : jstring
}.

Definition marker_text (m : marker_spec) : jstring :=
  lit "<tool_call>" ++ m_ws1 m ++
  lit "<function>" ++ m_function m ++ lit "</function>" ++ m_ws2 m ++
  lit "<arguments>" ++ m_arguments m ++ lit "</arguments>" ++ m_ws3 m ++
  lit "</tool_call>".

(** The white space is white space, the name holds no closing function tag
    and the arguments hold no closing arguments tag. *)
Definition well_formed (m : marker_spec) : bool :=
  forallb is_space (m_ws1 m) && forallb is_space (m_ws2 m)
  && forallb is_space (m_ws3 m)
  && negb (includes (lit "</function>") (m_function m))
  && negb (includes (lit "</arguments>") (m_arguments m)).

(** Plain text: text without the opening tag of a marker. *)
Definition plain (p : jstring) : bool := negb (includes (lit "<tool_call>") p).

(** Plain text, then markers each followed by plain text. *)
Fixpoint assemble (p0 : jstring) (l : list (marker_spec * jstring)) : jstring :=
  match l with
  | [] => p0
  | (m, p) :: l' => p0 ++ marker_text m ++ assemble p l'
  end.

Definition segments_ok (l : list (marker_spec * jstring)) : bool :=
  forallb (fun mp => well_formed (fst mp) && plain (snd mp)) l.

(** The entry the loop of [extractToolCalls] builds for a marker. *)
Definition entry_of (env : Env) (functionText argsText : jstring) : ToolCall :=
  {| name := trim functionText;
     arguments :=
       if truthy_str (trim argsText) then
         match JSON_parse env (trim argsText) with
         | Returned v => v
         | Threw _ => empty_object
         end
       else empty_object |}.

(** The successive values of [match] in the loop of [extractToolCalls]. *)
Fixpoint match_loop (fuel : nat) (text : jstring) : list captures :=
  match fuel with
  | O => []
  | S fuel' =>
      match exec tool_call_regex text with
      | None => []
      | Some (m, rest) => m :: match_loop fuel' rest
      end
  end.

Definition loop_matches (text : jstring) : list captures :=
  match_loop (S (length text)) text.

(** A tool-call marker as the system prompt shows it. *)
Definition marker (functionName argsText : jstring) : jstring :=
  marker_text {| m_ws1 := [NL]; m_function := functionName; m_ws2 := [NL];
                 m_arguments := argsText; m_ws3 := [NL] |}.

(** Whether a text is empty or begins with [<]. *)
Definition head_lt (k : jstring) : bool :=
  match k with
  | [] => true
  | y :: _ => chr_eqb "<"%char y
  end.

Definition head_space (k : jstring) : bool :=
  match k with
  | [] => false
  | y :: _ => is_space y
  end.

Definition no_lt (t : jstring) : bool :=
  forallb (fun c => negb (chr_eqb "<"%char c)) t.

(** The events that settle the promise of a streamed execution. *)
Definition settles (ev : child_event) : bool :=
  match ev with
  | OnClose _ | OnError _ | OnTimeout => true
  | OnStdout _ | OnStderr _ => false
  end.

Definition is_close (ev : child_event) : bool :=
  match ev with
  | OnClose _ => true
  | _ => false
  end.

(** The arguments object [{command: c}]. *)
Definition command_args (c : jstring) : json := JObj [(lit "command", JStr c)].

Definition linux_tools : SystemTools := new_SystemTools (lit "linux").

(** The history right after the [push] of [addMessage]. *)
Definition pushed_history (a : PrivateAgent) (r c : jstring) : list Message :=
  conversationHistory a ++ [{| role := r; content := c |}].

Definition hello : jstring := lit "hello".

(** The names [executeTool] dispatches on. *)
Definition tool_names : list jstring :=
  [lit "execute_command"; lit "list_directory"; lit "read_file";
   lit "write_file"; lit "get_system_info"; lit "get_current_directory"].

Definition is_known_tool (functionName : jstring) : bool :=
  existsb (jstr_eqb functionName) tool_names.

(** The record [executeTool] pushes. *)
Definition tool_record (env : Env) (a : PrivateAgent) (functionName : jstring)
  (args : json) (r : outcome tool_result) : ToolCallRecord :=
  let n := length (toolCallHistory a) in
  match r with
  | Returned result =>
      {| tc_function := functionName; tc_args := args;
         tc_result := Some result; tc_error := None;
         tc_executionTime := tool_elapsed env n;
         tc_timestamp := now_iso env n; tc_success := true |}
  | Threw msg =>
      {| tc_function := functionName; tc_args := args;
         tc_result := None; tc_error := Some msg;
         tc_executionTime := tool_elapsed env n;
         tc_timestamp := now_iso env n; tc_success := false |}
  end.

Definition filepath_args (p : jstring) : json := JObj [(lit "filepath", JStr p)].

(** An agent with two messages, one of them with quotes and a line break. *)
Definition chatty_agent : PrivateAgent :=
  addMessage
    (addMessage (demo_agent 4096) user_role (lit "list files in ."))
    assistant_role (jtext "Here: 'a.txt'" ++ [NL] ++ lit "and b\c").

(** The turn of the end-to-end scenario: the model answers with one
    [list_directory] marker, then with a summary. *)
Definition listing_call : jstring :=
  marker (lit "list_directory") (jtext "{'path': '.', 'detailed': true}").

Definition delta (text : jstring) : stream_event :=
  Line (Fragment {| f_content := Some text; f_done := false;
                    f_prompt_eval_count := None; f_eval_count := None |}).

Definition done_with (prompt_count eval_count : Z) : fragment :=
  {| f_content := Some []; f_done := true;
     f_prompt_eval_count := Some prompt_count; f_eval_count := Some eval_count |}.

Definition first_response : response :=
  Streaming [delta (lit "Let me look. "); Line Garbage; delta listing_call;
             Line (Fragment (done_with 10 5))].

Definition follow_up_response : response :=
  Streaming [delta (lit "There is one file, README.md.");
             Line (Fragment (done_with 100 50))].

Definition default_chat : chat_options := {| executeTools := None |}.

(** A marker whose arguments are a JSON object with marker text in a
    string. *)
Definition tricky_arguments : jstring :=
  jtext "{'content': '</arguments></tool_call><tool_call><function>x</function><arguments>'}".

Definition tricky_marker : marker_spec :=
  {| m_ws1 := [NL]; m_function := lit "write_file"; m_ws2 := [NL];
     m_arguments := tricky_arguments; m_ws3 := [NL] |}.

(** Two markers in plain text, the second with arguments that are no JSON. *)
Definition good_marker : marker_spec :=
  {| m_ws1 := [NL]; m_function := lit "list_directory"; m_ws2 := [NL];
     m_arguments := jtext "{'path': '.', 'detailed': true}"; m_ws3 := [NL] |}.

Definition bad_marker : marker_spec :=
  {| m_ws1 := []; m_function := lit " read_file "; m_ws2 := lit "  ";
     m_arguments := jtext "{'filepath': oops"; m_ws3 := [] |}.

Definition two_calls : jstring :=
  assemble (lit "I will look < around. ")
    [(good_marker, lit " and then "); (bad_marker, lit " done.")].

Definition bad_call_response : response :=
  Streaming [delta two_calls; Line (Fragment (done_with 10 5))].

(** The text [JSON.stringify(document, null, 2)] prints for an exported
    document, piece by piece, each piece followed by the rest of the text. *)
Definition quote_to (s rest : jstring) : jstring :=
  QUOTE :: flat_map escape_chr s ++ QUOTE :: rest.

Definition member_to (ind : nat) (k : jstring) (rest : jstring) : jstring :=
  NL :: pad ind ++ quote_to k (":"%char :: " "%char :: rest).

Definition message_to (ind : nat) (m : Message) (rest : jstring) : jstring :=
  "{"%char ::
  member_to (ind + 2) (lit "role")
    (quote_to (role m)
       (","%char ::
        member_to (ind + 2) (lit "content")
          (quote_to (content m) (NL :: pad ind ++ "}"%char :: rest)))).

Fixpoint messages_to (ind : nat) (h : list Message) (rest : jstring) : jstring :=
  match h with
  | [] => rest
  | [m] => message_to ind m rest
  | m :: h' => message_to ind m (","%char :: NL :: pad ind ++ messages_to ind h' rest)
  end.

Definition history_to (h : list Message) (rest : jstring) : jstring :=
  match h with
  | [] => "["%char :: "]"%char :: rest
  | _ => "["%char :: NL :: pad 4 ++ messages_to 4 h (NL :: pad 2 ++ "]"%char :: rest)
  end.

Definition document_to (a : PrivateAgent) (iso : jstring) : jstring :=
  "{"%char ::
  member_to 2 (lit "model")
    (quote_to (model a)
       (","%char ::
        member_to 2 (lit "systemPrompt")
          (quote_to (systemPrompt a)
             (","%char ::
              member_to 2 (lit "history")
                (history_to (conversationHistory a)
                   (","%char ::
                    member_to 2 (lit "timestamp")
                      (quote_to iso [NL; "}"%char]))))))).

(** A marker after plain text that holds an opening tag of its own. *)
Definition stray_opening : jstring :=
  lit "<tool_call><function>junk " ++ marker (lit "ls") (jtext "{}").

(** ** More of the agent and of the executor *)

(** [l.slice(start)]: a negative [start] counts from the end; [-0] is [0]. *)
Definition slice_from {A : Type} (start : Z) (l : list A) : list A :=
  let len := Z.of_nat (length l) in
  let k := if (start <? 0)%Z then Z.max (len + start) 0 else Z.min start len in
  skipn (Z.to_nat k) l.

Definition default_limit : Z := 10.

Definition limit_or_default (limit : option Z) : Z :=
  match limit with Some n => n | None => default_limit end.

(** [getToolCallHistory(limit = 10)]: [toolCallHistory.slice(-limit)]. *)
Definition getToolCallHistory (a : PrivateAgent) (limit : option Z)
  : list ToolCallRecord :=
  slice_from (- limit_or_default limit) (toolCallHistory a).

(** [getExecutionHistory(limit = 10)]: [executionHistory.slice(-limit)]. *)
Definition getExecutionHistory (t : SystemTools) (limit : option Z)
  : list execution :=
  slice_from (- limit_or_default limit) (executionHistory t).

Definition setModel (a : PrivateAgent) (m : jstring) : PrivateAgent :=
  set_model_prompt_history a m (systemPrompt a) (conversationHistory a).

Definition setSystemPrompt (a : PrivateAgent) (p : jstring) : PrivateAgent :=
  set_model_prompt_history a (model a) p (conversationHistory a).

Definition is_notice (m : Message) : bool :=
  jstr_eqb (role m) (role reset_notice) && jstr_eqb (content m) (content reset_notice).

Definition three_records : list ToolCallRecord :=
  map (fun f => tool_record demo_env (demo_agent 4096) f empty_object
                  (Threw (unknown_tool_error f)))
      [lit "one"; lit "two"; lit "three"].

Definition agent_with_calls : PrivateAgent :=
  set_toolCallHistory (demo_agent 4096) three_records.

(** The text of a chunk when it is a content delta. *)
Definition delta_texts (chunks : list chunk) : list jstring :=
  flat_map (fun ch => match ch with Delta t => [t] | _ => [] end) chunks.

Definition is_garbage (ev : stream_event) : bool :=
  match ev with
  | Line Garbage => true
  | _ => false
  end.

(** Whether an event ends the consumption of a stream. *)
Definition ends_stream (ev : stream_event) : bool :=
  match ev with
  | Line (Fragment f) => f_done f
  | StreamError _ => true
  | Line Garbage => false
  end.

(** The content deltas of the events that carry one. *)
Definition event_deltas (events : list stream_event) : list jstring :=
  flat_map (fun ev =>
              match ev with
              | Line (Fragment f) =>
                  match f_content f with
                  | Some t => if truthy_str t then [t] else []
                  | None => []
                  end
              | _ => []
              end) events.

Definition broken_response : response :=
  Streaming [delta (lit "Once "); Line Garbage; delta (lit "upon");
             StreamError (lit "socket hang up"); delta (lit " a time")].

Definition no_tools : chat_options := {| executeTools := Some false |}.

(** The model asks for a command the denylist refuses. *)
Definition wipe_call : jstring :=
  marker (lit "execute_command") (jtext "{'command': 'sudo rm -rf / --no-preserve-root'}").

Definition wipe_args : json :=
  JObj [(lit "command", JStr (lit "sudo rm -rf / --no-preserve-root"))].

(** The output events of a child, as [onData] sees them. *)
Definition data_events (events : list child_event) : list (stream_name * jstring) :=
  flat_map (fun ev =>
              match ev with
              | OnStdout text => [(StdoutStream, text)]
              | OnStderr text => [(StderrStream, text)]
              | _ => []
              end) events.

Definition stream_texts (which : stream_name) (events : list child_event)
  : list jstring :=
  flat_map (fun ev =>
              match which, ev with
              | StdoutStream, OnStdout text => [text]
              | StderrStream, OnStderr text => [text]
              | _, _ => []
              end) events.

(** The texts a regular expression matches in full, whatever it captures. *)
Fixpoint lang (r : regex) (s : jstring) : Prop :=
  match r with
  | Empty => s = []
  | Chr p => exists x, s = [x] /\ p x = true
  | Seq r1 r2 => exists s1 s2, s = s1 ++ s2 /\ lang r1 s1 /\ lang r2 s2
  | Alt r1 r2 => lang r1 s \/ lang r2 s
  | Star _ p => forallb p s = true
  | Group _ r1 => lang r1 s
  end.

(** The six tags of a tool-call marker. *)
Definition marker_tags : list jstring :=
  [lit "<tool_call>"; lit "<function>"; lit "</function>";
   lit "<arguments>"; lit "</arguments>"; lit "</tool_call>"].

(** A marker the stream cut before its closing tag. *)
Definition cut_marker : jstring :=
  lit "Let me look. <tool_call>" ++ [NL] ++ lit "<function>list_directory</function>"
  ++ [NL] ++ jtext "<arguments>{'path': '.'}</arguments>" ++ [NL] ++ lit "</tool_".

(** [chat(userMessage, options)] against the answer of the server: the
    text of [response.data.message.content], or the error of the request.
    With [options.stream] the method returns the stream of the response and
    adds nothing to the conversation. *)
Inductive chat_result : Type :=
| ChatReply : jstring -> jstring -> bool -> chat_result   (* message, model, contextReset *)
| ChatStream : chat_result.

Definition chat (a : PrivateAgent) (userMessage : jstring) (stream : bool)
  (answer : outcome jstring) : outcome chat_result * PrivateAgent :=
  let a1 := addMessage a user_role userMessage in
  match answer with
  | Threw msg => (Threw (lit "Chat error: " ++ msg), a1)
  | Returned assistantMessage =>
      if stream then (Returned ChatStream, a1)
      else
        let a2 := addMessage a1 assistant_role assistantMessage in
        (Returned (ChatReply assistantMessage (model a2) false), a2)
  end.

(** The part of the tool-result prompt for one entry. *)
Definition result_section (r : ToolResultEntry) : jstring :=
  lit "Tool: " ++ tr_tool r ++ [NL] ++
  match tr_error r with
  | Some e =>
      if truthy_str e then lit "Error: " ++ e ++ [NL; NL]
      else lit "Result:" ++ [NL] ++ result_text r ++ [NL; NL]
  | None => lit "Result:" ++ [NL] ++ result_text r ++ [NL; NL]
  end.

Definition prompt_header : jstring := lit "Tool execution results:" ++ [NL; NL].

Definition prompt_footer : jstring :=
  lit "Please provide a natural language response to the user based on these results.".

Definition sample_results : list ToolResultEntry :=
  [{| tr_tool := lit "list_directory"; tr_result := Some (lit "README.md");
      tr_error := None |};
   {| tr_tool := lit "read_file"; tr_result := None;
      tr_error := Some (lit "Failed to read file: ENOENT") |};
   {| tr_tool := lit "get_current_directory"; tr_result := Some (lit "/home/user");
      tr_error := Some [] |}].

(** An agent with an empty model name and an empty system prompt. *)
Definition blank_agent : PrivateAgent :=
  setSystemPrompt (setModel chatty_agent []) [].

(** ** The file methods of the executor *)

(** What [fs.stat] gives, as far as the code reads it; the date [mtime]
    stands as its ISO text. *)
Record Stats : Type := { st_size : Z; st_mtime : jstring; st_mode : Z }.

(** A directory entry of [fs.readdir(..., { withFileTypes: true })]. *)
Record Dirent : Type := {
  d_name : jstring;
  d_isDirectory : bool;
  d_isFile : bool
}.

(** The calls to [fs], in the order they are made. *)
Inductive fs_call : Type :=
| FsReaddir (p : jstring)
| FsStat (p : jstring)
| FsReadFile (p : jstring).

(** The modules [path] and [fs/promises]: what each call answers.  A
    rejected promise carries the message of its error. *)
Record FileSystem : Type := {
  path_resolve : jstring -> jstring;
  path_join : jstring -> jstring -> jstring;
  readdir : jstring -> outcome (list Dirent);
  stat : jstring -> outcome Stats;
  read : jstring -> outcome jstring
}.

Definition octal_digit (d : Z) : ascii := ascii_of_nat (48 + Z.to_nat d).

Fixpoint octal (fuel : nat) (n : Z) : jstring :=
  match fuel with
  | O => []
  | S fuel' =>
      if (n <? 8)%Z then [octal_digit n]
      else octal fuel' (n / 8) ++ [octal_digit (n mod 8)]
  end.

(** [n.toString(8)] of an integer that is not negative. *)
Definition toString8 (n : Z) : jstring := octal (S (Z.to_nat (Z.log2 n))) n.

(** [stats.mode.toString(8).slice(-3)]. *)
Definition permissions (mode : Z) : jstring := slice_from (-3) (toString8 mode).

Definition entry_plain (f : Dirent) : json :=
  JObj [(lit "name", JStr (d_name f));
        (lit "isDirectory", JBool (d_isDirectory f))].

Definition stats_unreadable : jstring := lit "Unable to read stats".

Definition entry_detailed (fs : FileSystem) (fullPath : jstring) (f : Dirent) : json :=
  match stat fs (path_join fs fullPath (d_name f)) with
  | Returned stats =>
      JObj [(lit "name", JStr (d_name f));
            (lit "isDirectory", JBool (d_isDirectory f));
            (lit "isFile", JBool (d_isFile f));
            (lit "size", JNum (st_size stats) 0);
            (lit "modified", JStr (st_mtime stats));
            (lit "permissions", JStr (permissions (st_mode stats)))]
  | Threw _ =>
      JObj [(lit "name", JStr (d_name f));
            (lit "isDirectory", JBool (d_isDirectory f));
            (lit "isFile", JBool (d_isFile f));
            (lit "error", JStr stats_unreadable)]
  end.

Definition list_prefix : jstring := lit "Failed to list directory: ".

(** [listDirectory(dirPath = '.', { detailed })] for a path that is a string
    or absent: the value or the message thrown, and the calls made. *)
Definition listDirectory (fs : FileSystem) (dirPath : option jstring)
  (detailed : bool) : outcome json * list fs_call :=
  let fullPath :=
    path_resolve fs (match dirPath with Some p => p | None => lit "." end) in
  match readdir fs fullPath with
  | Returned files =>
      if detailed then
        (Returned (JArr (map (entry_detailed fs fullPath) files)),
         FsReaddir fullPath
         :: map (fun f => FsStat (path_join fs fullPath (d_name f))) files)
      else (Returned (JArr (map entry_plain files)), [FsReaddir fullPath])
  | Threw msg => (Threw (list_prefix ++ msg), [FsReaddir fullPath])
  end.

Definition default_maxSize : Z := 1024 * 1024.

Definition read_prefix : jstring := lit "Failed to read file: ".

Definition too_large_error (size maxSize : Z) : jstring :=
  lit "File too large (" ++ print_Z size ++ lit " bytes). Max: "
  ++ print_Z maxSize ++ lit " bytes".

(** [readFile(filePath, { maxSize })] for a path that is a string. *)
Definition readFile (fs : FileSystem) (filePath : jstring) (maxSize : option Z)
  : outcome json * list fs_call :=
  let maxSize := match maxSize with Some m => m | None => default_maxSize end in
  let fullPath := path_resolve fs filePath in
  match stat fs fullPath with
  | Returned stats =>
      if (maxSize <? st_size stats)%Z then
        (Threw (read_prefix ++ too_large_error (st_size stats) maxSize),
         [FsStat fullPath])
      else
        match read fs fullPath with
        | Returned content =>
            (Returned (JObj [(lit "path", JStr fullPath);
                             (lit "size", JNum (st_size stats) 0);
                             (lit "content", JStr content);
                             (lit "modified", JStr (st_mtime stats))]),
             [FsStat fullPath; FsReadFile fullPath])
        | Threw msg =>
            (Threw (read_prefix ++ msg), [FsStat fullPath; FsReadFile fullPath])
        end
  | Threw msg => (Threw (read_prefix ++ msg), [FsStat fullPath])
  end.

(** [getCommonCommands()], property by property. *)
Definition getCommonCommands (t : SystemTools) : list (jstring * jstring) :=
  if isWindows t then
    [(lit "listFiles", lit "dir");
     (lit "currentDir", lit "cd");
     (lit "systemInfo", lit "systeminfo");
     (lit "processes", lit "tasklist");
     (lit "diskSpace", lit "wmic logicaldisk get size,freespace,caption");
     (lit "networkInfo", lit "ipconfig");
     (lit "ping", lit "ping");
     (lit "environmentVars", lit "set");
     (lit "path", lit "echo %PATH%");
     (lit "whoami", lit "whoami");
     (lit "date", lit "date /t");
     (lit "time", lit "time /t")]
  else
    [(lit "listFiles", lit "ls -la");
     (lit "currentDir", lit "pwd");
     (lit "systemInfo", lit "uname -a");
     (lit "processes", lit "ps aux");
     (lit "diskSpace", lit "df -h");
     (lit "networkInfo", lit "ifconfig");
     (lit "ping", lit "ping");
     (lit "environmentVars", lit "env");
     (lit "path", lit "echo $PATH");
     (lit "whoami", lit "whoami");
     (lit "date", lit "date");
     (lit "uptime", lit "uptime")].

(** A directory with one file whose [stat] fails. *)
Definition sample_fs : FileSystem :=
  {| path_resolve := fun p => lit "/home/user/" ++ p;
     path_join := fun d n => d ++ lit "/" ++ n;
     readdir := fun _ =>
       Returned [{| d_name := lit "notes.txt"; d_isDirectory := false;
                    d_isFile := true |};
                 {| d_name := lit "gone"; d_isDirectory := false;
                    d_isFile := true |}];
     stat := fun p =>
       if includes (lit "gone") p then Threw (lit "ENOENT: no such file or directory")
       else Returned {| st_size := 2097152; st_mtime := iso_2024;
                        st_mode := 33188 |};
     read := fun _ => Returned (lit "text") |}.

(** [getEnhancedSystemPrompt()]: the template, line by line. *)
Definition getEnhancedSystemPrompt (a : PrivateAgent) : jstring :=
  if negb (enableTools a) then systemPrompt a
  else
    systemPrompt a ++ [NL] ++
    [NL] ++
    lit "You have access to system tools that allow you to interact with the "
      ++ platform (systemTools a) ++ lit " system using "
      ++ shell (systemTools a) ++ lit "." ++ [NL] ++
    [NL] ++
    lit "Available tools:" ++ [NL] ++
    lit "1. execute_command(command, cwd?) - Run all shell commands" ++ [NL] ++
    lit "2. list_directory(path, detailed?) - List files in a directory" ++ [NL] ++
    lit "3. read_file(filepath) - Read file contents" ++ [NL] ++
    lit "4. write_file(filepath, content, append?) - Write to files" ++ [NL] ++
    lit "5. get_system_info() - Get system information" ++ [NL] ++
    lit "6. get_current_directory() - Get current working directory" ++ [NL] ++
    [NL] ++
    lit "To use a tool, respond with a special format:" ++ [NL] ++
    lit "<tool_call>" ++ [NL] ++
    lit "<function>tool_name</function>" ++ [NL] ++
    jtext "<arguments>{'arg1': 'value1', 'arg2': 'value2'}</arguments>" ++ [NL] ++
    lit "</tool_call>" ++ [NL] ++
    [NL] ++
    lit "After I execute the tool and show you the results, you can provide a natural language response to the user." ++ [NL] ++
    [NL] ++
    lit "Example:" ++ [NL] ++
    jtext "User: 'What files are in my current directory?'" ++ [NL] ++
    lit "You: <tool_call>" ++ [NL] ++
    lit "<function>list_directory</function>" ++ [NL] ++
    jtext "<arguments>{'path': '.', 'detailed': true}</arguments>" ++ [NL] ++
    lit "</tool_call>" ++ [NL] ++
    [NL] ++
    lit "[I will execute the tool and show results]" ++ [NL] ++
    [NL] ++
    jtext "You: 'Here are the files in your current directory: [explain results]'" ++ [NL] ++
    [NL] ++
    lit "IMPORTANT: Only use tools when the user explicitly asks for system interaction. Always explain what you're doing.".

(** The enhanced prompt up to its first marker. *)
Definition enhanced_intro (a : PrivateAgent) : jstring :=
  systemPrompt a ++ [NL; NL] ++
  lit "You have access to system tools that allow you to interact with the "
    ++ platform (systemTools a) ++ lit " system using "
    ++ shell (systemTools a) ++ lit "." ++ [NL; NL] ++
  lit "Available tools:" ++ [NL] ++
  lit "1. execute_command(command, cwd?) - Run all shell commands" ++ [NL] ++
  lit "2. list_directory(path, detailed?) - List files in a directory" ++ [NL] ++
  lit "3. read_file(filepath) - Read file contents" ++ [NL] ++
  lit "4. write_file(filepath, content, append?) - Write to files" ++ [NL] ++
  lit "5. get_system_info() - Get system information" ++ [NL] ++
  lit "6. get_current_directory() - Get current working directory" ++ [NL; NL] ++
  lit "To use a tool, respond with a special format:" ++ [NL].

(** The two markers of the enhanced prompt, and the text after each. *)
Definition format_marker : marker_spec :=
  {| m_ws1 := [NL]; m_function := lit "tool_name"; m_ws2 := [NL];
     m_arguments := jtext "{'arg1': 'value1', 'arg2': 'value2'}";
     m_ws3 := [NL] |}.

Definition example_marker : marker_spec :=
  {| m_ws1 := [NL]; m_function := lit "list_directory"; m_ws2 := [NL];
     m_arguments := jtext "{'path': '.', 'detailed': true}";
     m_ws3 := [NL] |}.

Definition after_format : jstring :=
  [NL; NL] ++
  lit "After I execute the tool and show you the results, you can provide a natural language response to the user." ++ [NL; NL] ++
  lit "Example:" ++ [NL] ++
  jtext "User: 'What files are in my current directory?'" ++ [NL] ++
  lit "You: ".

Definition after_example : jstring :=
  [NL; NL] ++
  lit "[I will execute the tool and show results]" ++ [NL; NL] ++
  jtext "You: 'Here are the files in your current directory: [explain results]'" ++ [NL; NL] ++
  lit "IMPORTANT: Only use tools when the user explicitly asks for system interaction. Always explain what you're doing.".

(** The response ends at its [done] fragment: its last event is a fragment
    with [done], and no event before it is an error or a fragment with
    [done]. *)
Fixpoint done_is_last (events : list stream_event) : bool :=
  match events with
  | [] => false
  | ev :: rest =>
      match rest with
      | [] => match ev with Line (Fragment f) => f_done f | _ => false end
      | _ :: _ => negb (ends_stream ev) && done_is_last rest
      end
  end.

(* ================================================================== *)
(** * Part II.  Properties *)
(* ================================================================== *)

(** ** Conversation state *)

Section ConversationState.

Variable a : PrivateAgent.
Variables r c : jstring.

Let msg : Message := {| role := r; content := c |}.
Let h : list Message := pushed_history a r c.

Lemma slice_last_length {A : Type} (n : nat) (l : list A) :
  length (slice_last n l) = Nat.min n (length l).
Proof. unfold slice_last. rewrite length_skipn. lia. Qed.

Lemma slice_last_snoc {A : Type} (n : nat) (l : list A) (x : A) :
  slice_last (S n) (l ++ [x]) = slice_last n l ++ [x].
Proof.
  unfold slice_last. rewrite length_app, skipn_app. simpl length.
  replace (length l + 1 - S n) with (length l - n) by lia.
  replace (length l - n - length l) with 0 by lia.
  reflexivity.
Qed.

Lemma slice_last_short {A : Type} (n : nat) (l : list A) :
  length l <= n -> slice_last n l = l.
Proof.
  intros Hle. unfold slice_last.
  replace (length l - n) with 0 by lia. reflexivity.
Qed.

(** The test [estimatedTokens > maxContextTokens] in integers. *)
Lemma exceeds_spec (b : PrivateAgent) :
  exceeds b = true <-> (4 * maxContextTokens b < totalChars (conversationHistory b))%Z.
Proof.
  unfold exceeds, estimatedTokens, Qcompare. cbn [Qnum Qden inject_Z].
  destruct (Z.compare_spec (totalChars (conversationHistory b) * 1)
                           (maxContextTokens b * 4)) as [E | E | E];
    split; intros H; try discriminate; try reflexivity; lia.
Qed.

Lemma exceeds_false_spec (b : PrivateAgent) :
  exceeds b = false <-> (totalChars (conversationHistory b) <= 4 * maxContextTokens b)%Z.
Proof.
  destruct (exceeds b) eqn:E.
  - apply exceeds_spec in E. split; [discriminate | lia].
  - split; [intros _ | reflexivity].
    destruct (Z_lt_le_dec (4 * maxContextTokens b) (totalChars (conversationHistory b)))
      as [Hlt | Hle]; [| exact Hle].
    apply exceeds_spec in Hlt. congruence.
Qed.

Lemma addMessage_pushed :
  addMessage a r c = snd (checkAndResetContext (set_conversationHistory a h)).
Proof. reflexivity. Qed.

(** C1, as the code has it: when the content of the history, the new
    message included, is longer than four times the token budget, the
    check reports a reset and the history becomes every system-role message
    it held, then the reset notice, then its last ten messages -- all of
    them when it held fewer than ten, the new message being the last. *)
Theorem C1_reset_replaces_history :
  (4 * maxContextTokens a < totalChars h)%Z ->
  fst (checkAndResetContext (set_conversationHistory a h)) = true
  /\ conversationHistory (addMessage a r c)
     = filter is_system h ++ [reset_notice] ++ slice_last 10 h
  /\ length (slice_last 10 h) = Nat.min 10 (length h)
  /\ (length h <= 10 -> slice_last 10 h = h)
  /\ slice_last 10 h = slice_last 9 (conversationHistory a) ++ [msg].
Proof.
  intros Hover.
  assert (E : exceeds (set_conversationHistory a h) = true)
    by (apply exceeds_spec; exact Hover).
  split; [| split; [| split; [| split]]].
  - unfold checkAndResetContext. rewrite E. reflexivity.
  - rewrite addMessage_pushed. unfold checkAndResetContext. rewrite E. reflexivity.
  - apply slice_last_length.
  - apply slice_last_short.
  - apply slice_last_snoc.
Qed.

(** Below the threshold the history is the old one with the message added,
    and the check reports no reset. *)
Lemma addMessage_no_reset :
  (totalChars h <= 4 * maxContextTokens a)%Z ->
  fst (checkAndResetContext (set_conversationHistory a h)) = false
  /\ conversationHistory (addMessage a r c) = h.
Proof.
  intros Hle.
  assert (E : exceeds (set_conversationHistory a h) = false)
    by (apply exceeds_false_spec; exact Hle).
  split.
  - unfold checkAndResetContext. rewrite E. reflexivity.
  - rewrite addMessage_pushed. unfold checkAndResetContext. rewrite E. reflexivity.
Qed.

(** C10: after [addMessage(role, content)] the history ends with the
    message just added, reset or not. *)
Theorem C10_newest_message_is_last :
  exists earlier : list Message,
    conversationHistory (addMessage a r c) = earlier ++ [msg]
    /\ conversationHistory (addMessage a r c) <> []
    /\ forall d, last (conversationHistory (addMessage a r c)) d = msg.
Proof.
  assert (Hshape : exists earlier,
             conversationHistory (addMessage a r c) = earlier ++ [msg]).
  { unfold addMessage, checkAndResetContext. fold msg.
    destruct (exceeds _); cbn [snd].
    - cbn [conversationHistory set_conversationHistory].
      exists (filter is_system (conversationHistory a ++ [msg]) ++ [reset_notice]
              ++ slice_last 9 (conversationHistory a)).
      rewrite slice_last_snoc. rewrite <- !app_assoc. reflexivity.
    - exists (conversationHistory a). reflexivity. }
  destruct Hshape as [earlier He]. exists earlier. rewrite He.
  repeat split.
  - intros Hnil. apply app_eq_nil in Hnil. destruct Hnil as [_ Hnil]. discriminate.
  - intros d. apply last_last.
Qed.

End ConversationState.

(** A first message of five characters against a budget of one token:
    the history after the reset is the notice and that message. *)
Lemma C1_reset_replaces_history_witness :
  conversationHistory (addMessage (demo_agent 1) user_role hello)
  = [reset_notice; {| role := user_role; content := hello |}].
Proof.
  destruct (C1_reset_replaces_history (demo_agent 1) user_role hello)
    as (_ & Hh & _).
  - vm_compute. reflexivity.
  - rewrite Hh. reflexivity.
Defined.

(** C1 as the specification words it fails there: the reset keeps one
    message after the notice, not ten. *)
Lemma C1_counterexample :
  let a := demo_agent 1 in
  let h := pushed_history a user_role hello in
  (4 * maxContextTokens a < totalChars h)%Z
  /\ ~ (exists recent : list Message,
          length recent = 10
          /\ conversationHistory (addMessage a user_role hello)
             = filter is_system h ++ [reset_notice] ++ recent).
Proof.
  cbv zeta. split.
  - vm_compute. reflexivity.
  - intros (recent & Hlen & Heq).
    apply (f_equal (@length Message)) in Heq.
    rewrite !length_app, Hlen in Heq. vm_compute in Heq. discriminate.
Qed.

(** ** The regular expressions of the denylist *)

Section LiteralPatterns.

Context {A : Type}.

(** A literal pattern strips the literal from the head of the text. *)
Lemma rmatch_str (l s : jstring) (c : captures)
  (k : jstring -> captures -> option A) :
  rmatch (str l) s c k =
  match strip_prefix l s with
  | Some s' => k s' c
  | None => None
  end.
Proof.
  revert s. induction l as [| x l IH]; intros s; cbn [str rmatch strip_prefix].
  - reflexivity.
  - destruct s as [| y s]; [reflexivity |].
    unfold chr at 1. cbn [rmatch].
    destruct (chr_eqb x y); [apply IH | reflexivity].
Qed.

End LiteralPatterns.

Lemma match_here_str (l s : jstring) :
  match_here (str l) s =
  match strip_prefix l s with
  | Some s' => Some ([], s')
  | None => None
  end.
Proof. unfold match_here. apply rmatch_str. Qed.

(** [/literal/.test(s)] is [s.includes(literal)]. *)
Lemma test_str (l s : jstring) : test (str l) s = includes l s.
Proof.
  unfold test. induction s as [| x s IH].
  - cbn [exec includes]. rewrite match_here_str. unfold starts_with.
    destruct (strip_prefix l []); reflexivity.
  - cbn [exec includes]. rewrite match_here_str. unfold starts_with.
    destruct (strip_prefix l (x :: s)); [reflexivity | exact IH].
Qed.

(** A command that mentions one of the bare words of the denylist, in any
    letter case, is dangerous. *)
Lemma bare_word_is_dangerous (command word : jstring) :
  In word [lit "mkfs"; lit "shutdown"; lit "reboot"] ->
  includes word (toLowerCase command) = true ->
  isDangerousCommand command = true.
Proof.
  intros Hin Hinc. unfold isDangerousCommand. apply existsb_exists.
  exists (str word). split.
  - cbn [In] in Hin. unfold dangerousPatterns.
    destruct Hin as [<- | [<- | [<- | []]]]; cbn [In]; tauto.
  - rewrite test_str. exact Hinc.
Qed.

Example dangerous_examples :
  map isDangerousCommand
    [lit "rm -rf /"; lit "sudo RM  -RF /home"; lit "mkfs.ext4 /dev/sda1";
     lit ":(){ :|:& };:"; lit "shutdown -h now"; lit "reboot";
     lit "init 0"; lit "systemctl poweroff"; lit "dd if=/dev/zero of=/dev/sda";
     lit "Format C:"]
  = [true; true; true; true; true; true; true; true; true; true].
Proof. vm_compute. reflexivity. Qed.

Example harmless_examples :
  map isDangerousCommand [lit "ls -la"; lit "rm -rf ./build"; lit "echo hello"]
  = [false; false; false].
Proof. vm_compute. reflexivity. Qed.

(** ** The command executor *)

Section Executor.

Variable env : Env.
Variable t : SystemTools.
Variable command : jstring.
Variable options : exec_options.

Let timeout : Z :=
  match opt_timeout options with Some ms => ms | None => default_timeout end.
Let dir : json :=
  match opt_cwd options with Some d => d | None => JStr (process_cwd env) end.
Let n : nat := length (executionHistory t).

(** C4: a command the denylist matches is refused by both entry points
    with the security error; the operating system is asked nothing -- no
    process is started and no timer armed -- and the executor is unchanged. *)
Theorem C4_denylisted_command_is_refused (events : list child_event) :
  isDangerousCommand command = true ->
  executeCommand env t command options = (Threw security_error, t, [])
  /\ sc_promise (executeCommandStream env t command options events)
     = Rejected security_error
  /\ sc_os (executeCommandStream env t command options events) = []
  /\ sc_onData (executeCommandStream env t command options events) = []
  /\ sc_tools (executeCommandStream env t command options events) = t.
Proof.
  intros Hd. unfold executeCommand, executeCommandStream. rewrite Hd.
  repeat split.
Qed.

(** The handlers only ever append to the execution history, one record
    for each [close]. *)
Lemma stream_handler_history (s : stream_call) (ev : child_event) :
  exists new : list execution,
    executionHistory (sc_tools (stream_handler env command dir s ev))
    = executionHistory (sc_tools s) ++ new
    /\ length new = (if is_close ev then 1 else 0).
Proof.
  destruct ev; cbn [stream_handler sc_tools is_close];
    try (exists []; rewrite app_nil_r; split; reflexivity).
  eexists [_]. split; reflexivity.
Qed.

Lemma stream_fold_history (events : list child_event) (s : stream_call) :
  exists new : list execution,
    executionHistory (sc_tools (fold_left (stream_handler env command dir) events s))
    = executionHistory (sc_tools s) ++ new
    /\ length new = length (filter is_close events).
Proof.
  revert s. induction events as [| ev events IH]; intros s; cbn [fold_left filter].
  - exists []. rewrite app_nil_r. split; reflexivity.
  - destruct (IH (stream_handler env command dir s ev)) as (new2 & E2 & L2).
    destruct (stream_handler_history s ev) as (new1 & E1 & L1).
    exists (new1 ++ new2). rewrite E2, E1, <- app_assoc. split; [reflexivity |].
    rewrite length_app, L1, L2. destruct (is_close ev); reflexivity.
Qed.

(** A settled promise stays as it is. *)
Lemma stream_fold_settled (events : list child_event) (s : stream_call) :
  sc_promise s <> Pending ->
  sc_promise (fold_left (stream_handler env command dir) events s) = sc_promise s.
Proof.
  revert s. induction events as [| ev events IH]; intros s Hs; cbn [fold_left].
  - reflexivity.
  - rewrite IH.
    + destruct ev; cbn [stream_handler sc_promise]; try reflexivity;
        destruct (sc_promise s); try reflexivity; congruence.
    + destruct ev; cbn [stream_handler sc_promise]; try exact Hs;
        destruct (sc_promise s); cbn [settle]; congruence.
Qed.

(** Output alone leaves the promise pending. *)
Lemma stream_fold_pending (events : list child_event) (s : stream_call) :
  forallb (fun ev => negb (settles ev)) events = true ->
  sc_promise s = Pending ->
  sc_promise (fold_left (stream_handler env command dir) events s) = Pending.
Proof.
  revert s. induction events as [| ev events IH]; intros s Hev Hs; cbn [fold_left].
  - exact Hs.
  - cbn [forallb] in Hev. apply andb_true_iff in Hev. destruct Hev as [Hev Hrest].
    apply IH; [exact Hrest |].
    destruct ev; cbn [settles negb] in Hev; try discriminate;
      cbn [stream_handler sc_promise]; exact Hs.
Qed.

(** What the operating system was asked is never taken back. *)
Lemma stream_fold_os (events : list child_event) (s : stream_call) (e : os_event) :
  In e (sc_os s) ->
  In e (sc_os (fold_left (stream_handler env command dir) events s)).
Proof.
  revert s. induction events as [| ev events IH]; intros s Hin; cbn [fold_left].
  - exact Hin.
  - apply IH. destruct ev; cbn [stream_handler sc_os]; try exact Hin.
    apply in_or_app. left. exact Hin.
Qed.

(** C8, as the code has it: a run the denylist lets through appends
    exactly one record in buffered mode, whether [exec] resolves or
    rejects, and in streamed mode one record for each [close] of the child;
    a run the denylist refuses appends none.  Earlier records are kept, and
    the tool call history of the agent that owns the executor is another
    list, which no run of the executor touches. *)
Theorem C8_records_appended (events : list child_event) :
  (isDangerousCommand command = false ->
   (exists rec : execution,
      executeCommand env t command options
      = (Returned rec, set_executionHistory t (executionHistory t ++ [rec]),
         [ExecStarted command timeout]))
   /\ (exists new : list execution,
         executionHistory (sc_tools (executeCommandStream env t command options events))
         = executionHistory t ++ new
         /\ length new = length (filter is_close events)))
  /\ (isDangerousCommand command = true ->
      executionHistory (snd (fst (executeCommand env t command options)))
      = executionHistory t
      /\ executionHistory (sc_tools (executeCommandStream env t command options events))
         = executionHistory t)
  /\ (forall a : PrivateAgent,
        toolCallHistory
          (set_systemTools a (snd (fst (executeCommand env t command options))))
        = toolCallHistory a
        /\ toolCallHistory
             (set_systemTools a
                (sc_tools (executeCommandStream env t command options events)))
           = toolCallHistory a).
Proof.
  split; [| split].
  - intros Hd. split.
    + unfold executeCommand. rewrite Hd. eexists. reflexivity.
    + unfold executeCommandStream. rewrite Hd. apply stream_fold_history.
  - intros Hd. unfold executeCommand, executeCommandStream. rewrite Hd.
    split; reflexivity.
  - intros a. split; reflexivity.
Qed.

(** C5, as the code has it.  In buffered mode the timeout, 30 s unless the
    caller gives one, is handed to [exec]; when [exec] rejects -- as it
    does when it kills the child on timeout -- the call returns a record
    with exit code [error.code || 1] and the message of the error, and does
    not fail.  In streamed mode a 60 s timer is armed, and when it fires
    before the child has closed or failed, the child is killed and the call
    fails with the timeout error. *)
Theorem C5_timeout_behaviour :
  isDangerousCommand command = false ->
  (forall e : exec_error,
     execAsync env command timeout dir n = ExecRejected e ->
     exists rec : execution,
       executeCommand env t command options
       = (Returned rec, set_executionHistory t (executionHistory t ++ [rec]),
          [ExecStarted command timeout])
       /\ exitCode rec = or_code (err_code e) (ExitNum 1)
       /\ error rec = Some (err_message e)
       /\ stdout rec = or_str (err_stdout e) []
       /\ stderr rec = or_str (err_stderr e) (err_message e))
  /\ (opt_timeout options = None -> timeout = 30000%Z)
  /\ (forall before after : list child_event,
        forallb (fun ev => negb (settles ev)) before = true ->
        let s := executeCommandStream env t command options
                   (before ++ OnTimeout :: after) in
        sc_promise s = Rejected timeout_error
        /\ In Killed (sc_os s)
        /\ In (TimerArmed 60000) (sc_os s)).
Proof.
  intros Hd. split; [| split].
  - intros e He. unfold executeCommand. rewrite Hd.
    fold timeout. fold dir. fold n. rewrite He.
    eexists. split; [reflexivity |]. repeat split.
  - intros Hnone. unfold timeout. rewrite Hnone. reflexivity.
  - intros before after Hbefore s. subst s.
    unfold executeCommandStream. rewrite Hd. fold dir.
    rewrite fold_left_app. cbn [fold_left].
    set (s0 := fold_left (stream_handler env command dir) before _).
    assert (Hp : sc_promise s0 = Pending)
      by (apply stream_fold_pending; [exact Hbefore | reflexivity]).
    assert (Ht : In (TimerArmed 60000) (sc_os s0))
      by (apply stream_fold_os; cbn; tauto).
    split; [| split].
    + rewrite stream_fold_settled;
        cbn [stream_handler sc_promise]; rewrite Hp; cbn [settle];
        [reflexivity | discriminate].
    + apply stream_fold_os. cbn [stream_handler sc_os].
      apply in_or_app. right. cbn. tauto.
    + apply stream_fold_os. cbn [stream_handler sc_os].
      apply in_or_app. left. exact Ht.
Qed.

End Executor.

(** [rm -rf /] is refused. *)
Lemma C4_denylisted_command_is_refused_witness :
  executeCommand demo_env linux_tools (lit "rm -rf /") no_options
  = (Threw security_error, linux_tools, [])
  /\ sc_promise (executeCommandStream demo_env linux_tools (lit "rm -rf /")
                   no_options [OnStdout (lit "x"); OnTimeout])
     = Rejected security_error.
Proof.
  destruct (C4_denylisted_command_is_refused demo_env linux_tools
              (lit "rm -rf /") no_options [OnStdout (lit "x"); OnTimeout])
    as (Hb & Hs & _).
  - vm_compute. reflexivity.
  - split; [exact Hb | exact Hs].
Defined.

(** [ls -la] leaves one record in each mode. *)
Lemma C8_records_appended_witness :
  length (executionHistory
            (snd (fst (executeCommand demo_env linux_tools (lit "ls -la") no_options))))
  = 1
  /\ length (executionHistory
               (sc_tools (executeCommandStream demo_env linux_tools (lit "ls -la")
                            no_options [OnStdout (lit "x"); OnClose (ExitNum 0)])))
     = 1.
Proof.
  destruct (C8_records_appended demo_env linux_tools (lit "ls -la") no_options
              [OnStdout (lit "x"); OnClose (ExitNum 0)]) as (Hrun & _ & _).
  destruct Hrun as ((rec & Hb) & (new & Hs & Hlen)).
  - vm_compute. reflexivity.
  - rewrite Hb, Hs. cbn [fst snd]. rewrite length_app, Hlen. split; reflexivity.
Defined.

(** C8 as the specification words it fails on a refused command: the
    invocation fails and no record is appended. *)
Lemma C8_counterexample :
  fst (fst (executeCommand demo_env linux_tools (lit "rm -rf /") no_options))
  = Threw security_error
  /\ length (executionHistory
               (snd (fst (executeCommand demo_env linux_tools (lit "rm -rf /")
                            no_options))))
     <> length (executionHistory linux_tools) + 1.
Proof. split; [vm_compute; reflexivity | vm_compute; discriminate]. Qed.

(** A command that outlives both timeouts. *)
Lemma C5_timeout_behaviour_witness :
  (exists rec : execution,
     fst (fst (executeCommand slow_env linux_tools (lit "sleep 100") no_options))
     = Returned rec
     /\ exitCode rec = ExitNum 1)
  /\ sc_promise (executeCommandStream slow_env linux_tools (lit "sleep 100")
                   no_options [OnStdout (lit "z"); OnTimeout; OnClose ExitNull])
     = Rejected timeout_error.
Proof.
  destruct (C5_timeout_behaviour slow_env linux_tools (lit "sleep 100") no_options)
    as (Hbuf & _ & Hstream).
  - vm_compute. reflexivity.
  - split.
    + destruct (Hbuf (killed_by_timeout (lit "sleep 100")) eq_refl)
        as (rec & Hrun & Hcode & _).
      exists rec. rewrite Hrun. split; [reflexivity | exact Hcode].
    + destruct (Hstream [OnStdout (lit "z")] [OnClose ExitNull] eq_refl) as (Hp & _).
      exact Hp.
Defined.

(** C5 as the specification words it fails in buffered mode: [exec] kills
    the child on timeout and rejects, and the call still returns a record,
    with exit code 1, instead of failing with a timeout error. *)
Lemma C5_counterexample :
  execAsync slow_env (lit "sleep 100") default_timeout
    (JStr (process_cwd slow_env)) 0
  = ExecRejected (killed_by_timeout (lit "sleep 100"))
  /\ exists rec : execution,
       fst (fst (executeCommand slow_env linux_tools (lit "sleep 100") no_options))
       = Returned rec
       /\ exitCode rec = ExitNum 1
       /\ error rec = Some (lit "Command failed: sleep 100" ++ [NL]).
Proof.
  split; [reflexivity |]. eexists. split; [vm_compute; reflexivity |].
  split; reflexivity.
Qed.

(** In streamed mode, output that arrives after the kill still reaches the
    record pushed at [close]. *)
Example late_output_is_recorded :
  map stdout
    (executionHistory
       (sc_tools (executeCommandStream demo_env linux_tools (lit "yes") no_options
                    [OnStdout (lit "y"); OnTimeout; OnStdout (lit "late");
                     OnClose ExitNull])))
  = [lit "ylate"].
Proof. vm_compute. reflexivity. Qed.

(** ** The tool dispatcher *)

Section Dispatcher.

Variable env : Env.
Variable a : PrivateAgent.
Variable functionName : jstring.
Variable args : json.

Lemma jstr_eqb_eq (x y : jstring) : jstr_eqb x y = true <-> x = y.
Proof.
  revert y. induction x as [| c x IH]; intros [| d y]; cbn [jstr_eqb];
    try (split; [discriminate | discriminate]); [tauto |].
  rewrite andb_true_iff, IH. unfold chr_eqb. rewrite Ascii.eqb_eq.
  split; [intros [-> ->]; reflexivity | intros E; injection E; tauto].
Qed.

Lemma jstr_eqb_refl (x : jstring) : jstr_eqb x x = true.
Proof. apply jstr_eqb_eq. reflexivity. Qed.

Lemma dispatch_unknown :
  is_known_tool functionName = false ->
  dispatch env a functionName args
  = (Threw (unknown_tool_error functionName), systemTools a).
Proof.
  unfold is_known_tool, tool_names. cbn [existsb]. intros H.
  repeat (apply orb_false_iff in H; destruct H as [?E H]).
  unfold dispatch. rewrite E, E0, E1, E2, E3, E4. reflexivity.
Qed.

Lemma executeTool_record :
  executeTool env a functionName args
  = (fst (dispatch env a functionName args),
     set_toolCallHistory
       (set_systemTools a (snd (dispatch env a functionName args)))
       (toolCallHistory a
        ++ [tool_record env a functionName args
              (fst (dispatch env a functionName args))])).
Proof.
  unfold executeTool.
  destruct (dispatch env a functionName args) as [[result | msg] t']; reflexivity.
Qed.

(** C9: [executeTool] with a name outside the six tools fails with the
    unknown-tool error; when the primitive returns, its result is returned
    and a record with [success = true] appended; when the primitive throws,
    a record with [success = false] and the message is appended and the
    error thrown again.  One record is appended in every case. *)
Theorem C9_executeTool_outcomes :
  (is_known_tool functionName = false ->
   fst (executeTool env a functionName args)
   = Threw (unknown_tool_error functionName))
  /\ (forall (result : tool_result) (t' : SystemTools),
        dispatch env a functionName args = (Returned result, t') ->
        fst (executeTool env a functionName args) = Returned result
        /\ toolCallHistory (snd (executeTool env a functionName args))
           = toolCallHistory a
             ++ [{| tc_function := functionName; tc_args := args;
                    tc_result := Some result; tc_error := None;
                    tc_executionTime := tool_elapsed env (length (toolCallHistory a));
                    tc_timestamp := now_iso env (length (toolCallHistory a));
                    tc_success := true |}])
  /\ (forall (msg : jstring) (t' : SystemTools),
        dispatch env a functionName args = (Threw msg, t') ->
        fst (executeTool env a functionName args) = Threw msg
        /\ toolCallHistory (snd (executeTool env a functionName args))
           = toolCallHistory a
             ++ [{| tc_function := functionName; tc_args := args;
                    tc_result := None; tc_error := Some msg;
                    tc_executionTime := tool_elapsed env (length (toolCallHistory a));
                    tc_timestamp := now_iso env (length (toolCallHistory a));
                    tc_success := false |}])
  /\ length (toolCallHistory (snd (executeTool env a functionName args)))
     = length (toolCallHistory a) + 1
  /\ conversationHistory (snd (executeTool env a functionName args))
     = conversationHistory a.
Proof.
  rewrite executeTool_record. cbn [fst snd].
  split; [| split; [| split; [| split]]].
  - intros Hu. rewrite (dispatch_unknown Hu). reflexivity.
  - intros result t' Hd. rewrite Hd. split; reflexivity.
  - intros msg t' Hd. rewrite Hd. split; reflexivity.
  - cbn [toolCallHistory set_toolCallHistory]. rewrite length_app. reflexivity.
  - reflexivity.
Qed.

End Dispatcher.

(** The three cases on the demo host: an unknown name, a directory listing
    that succeeds and a file read that fails. *)
Lemma C9_executeTool_outcomes_witness :
  fst (executeTool demo_env (demo_agent 4096) (lit "frobnicate") empty_object)
  = Threw (lit "Unknown tool: frobnicate")
  /\ map tc_success
       (toolCallHistory
          (snd (executeTool demo_env (demo_agent 4096) (lit "list_directory")
                  empty_object)))
     = [true]
  /\ map tc_error
       (toolCallHistory
          (snd (executeTool demo_env (demo_agent 4096) (lit "read_file")
                  (filepath_args (lit "missing.txt")))))
     = [Some (lit "Failed to read file: ENOENT")].
Proof.
  split; [| split].
  - destruct (C9_executeTool_outcomes demo_env (demo_agent 4096)
                (lit "frobnicate") empty_object) as (Hu & _).
    rewrite Hu; [reflexivity | vm_compute; reflexivity].
  - destruct (C9_executeTool_outcomes demo_env (demo_agent 4096)
                (lit "list_directory") empty_object) as (_ & Hok & _).
    destruct (Hok _ _ eq_refl) as (_ & Hh). rewrite Hh. reflexivity.
  - destruct (C9_executeTool_outcomes demo_env (demo_agent 4096)
                (lit "read_file") (filepath_args (lit "missing.txt")))
      as (_ & _ & Hthrow & _).
    destruct (Hthrow _ _ eq_refl) as (_ & Hh). rewrite Hh. reflexivity.
Defined.

(** ** Export and import *)

Section RoundTrip.

Variable env : Env.
Variable a : PrivateAgent.
Variable iso : jstring.

Lemma json_message_roundtrip (m : Message) : json_message (message_json m) = Some m.
Proof. destruct m as [r c]. reflexivity. Qed.

Lemma json_messages_roundtrip (h : list Message) :
  json_messages (map message_json h) = Some h.
Proof.
  induction h as [| m h IH]; cbn [map json_messages]; [reflexivity |].
  rewrite json_message_roundtrip, IH. reflexivity.
Qed.

(** [x || x] is [x], empty or not. *)
Lemma or_string_field_same (s : jstring) :
  or_string_field (Some (JStr s)) s = Some s.
Proof. unfold or_string_field. cbn [truthy]. destruct (truthy_str s); reflexivity. Qed.

Lemma set_fields_same :
  set_model_prompt_history a (model a) (systemPrompt a) (conversationHistory a) = a.
Proof. destruct a. reflexivity. Qed.

Lemma import_of_parsed_export :
  JSON_parse env (exportHistory env a iso) = Returned (export_document a iso) ->
  importHistory env a (exportHistory env a iso) = Imported a.
Proof.
  intros Hparse. unfold importHistory. rewrite Hparse. cbv beta iota.
  change (prop (export_document a iso) (lit "model"))
    with (Some (Some (JStr (model a)))).
  change (prop (export_document a iso) (lit "systemPrompt"))
    with (Some (Some (JStr (systemPrompt a)))).
  change (prop (export_document a iso) (lit "history"))
    with (Some (Some (JArr (map message_json (conversationHistory a))))).
  cbv beta iota. rewrite !or_string_field_same. cbn [truthy].
  rewrite json_messages_roundtrip, set_fields_same. reflexivity.
Qed.

(** C6: importing what [exportHistory] has just produced, into the state
    it was exported from, leaves model, system prompt and history as
    they were -- given that [JSON.parse] reads back the document that
    [JSON.stringify] printed. *)
Theorem C6_export_import_round_trip :
  JSON_parse env (exportHistory env a iso) = Returned (export_document a iso) ->
  importHistory env a (exportHistory env a iso) = Imported a
  /\ forall a' : PrivateAgent,
       importHistory env a (exportHistory env a iso) = Imported a' ->
       model a' = model a
       /\ systemPrompt a' = systemPrompt a
       /\ conversationHistory a' = conversationHistory a.
Proof.
  intros Hparse. pose proof (import_of_parsed_export Hparse) as E.
  split; [exact E |].
  intros a' E'. rewrite E in E'. injection E' as <-. repeat split.
Qed.

End RoundTrip.

Lemma C6_export_import_round_trip_witness :
  importHistory demo_env chatty_agent (exportHistory demo_env chatty_agent iso_2024)
  = Imported chatty_agent.
Proof.
  apply (C6_export_import_round_trip demo_env chatty_agent iso_2024).
  vm_compute. reflexivity.
Defined.

(** *** The printer and the parser of the examples on exported documents *)

Section Codec.

Lemma quote_app (s rest : jstring) : quote s ++ rest = quote_to s rest.
Proof. unfold quote, quote_to. cbn [app]. rewrite <- app_assoc. reflexivity. Qed.

Lemma join_map_cons2 {A : Type} (f : A -> jstring) (sep : jstring) (x y : A)
  (l : list A) :
  join_map f sep (x :: y :: l) = f x ++ sep ++ join_map f sep (y :: l).
Proof. reflexivity. Qed.

Lemma stringify_at_array (ind : nat) (x : json) (l : list json) :
  stringify_at ind (JArr (x :: l))
  = lit "[" ++ [NL] ++ pad (ind + 2) ++
    join_map (stringify_at (ind + 2)) (lit "," ++ [NL] ++ pad (ind + 2)) (x :: l)
    ++ [NL] ++ pad ind ++ lit "]".
Proof. reflexivity. Qed.

Ltac right_nest :=
  repeat first [rewrite <- !app_assoc | progress cbn [app]].

Lemma stringify_message (ind : nat) (m : Message) (rest : jstring) :
  stringify_at ind (message_json m) ++ rest = message_to ind m rest.
Proof.
  unfold message_to, member_to, message_json.
  cbn [stringify_at stringify join_map lit list_ascii_of_string app].
  right_nest. rewrite !quote_app. reflexivity.
Qed.

Lemma stringify_messages (h : list Message) (m : Message) (rest : jstring) :
  join_map (stringify_at 4) (lit "," ++ [NL] ++ pad 4) (map message_json (m :: h))
  ++ rest
  = messages_to 4 (m :: h) rest.
Proof.
  revert m. induction h as [| m' h IH]; intros m.
  - cbn [map join_map messages_to]. apply stringify_message.
  - change (map message_json (m :: m' :: h))
      with (message_json m :: message_json m' :: map message_json h).
    rewrite join_map_cons2.
    change (message_json m' :: map message_json h)
      with (map message_json (m' :: h)).
    rewrite <- !app_assoc. rewrite IH.
    cbn [lit list_ascii_of_string app]. rewrite stringify_message. reflexivity.
Qed.

Lemma stringify_history (h : list Message) (rest : jstring) :
  stringify_at 2 (JArr (map message_json h)) ++ rest = history_to h rest.
Proof.
  destruct h as [| m h].
  - reflexivity.
  - change (map message_json (m :: h))
      with (message_json m :: map message_json h).
    rewrite stringify_at_array.
    change (message_json m :: map message_json h)
      with (map message_json (m :: h)).
    change (2 + 2) with 4.
    cbn [lit list_ascii_of_string]. right_nest.
    rewrite stringify_messages. reflexivity.
Qed.

Lemma stringify_document (a : PrivateAgent) (iso : jstring) :
  stringify_pretty (export_document a iso) = document_to a iso.
Proof.
  unfold stringify_pretty, export_document, document_to, member_to.
  set (h := JArr (map message_json (conversationHistory a))).
  cbn [stringify_at stringify join_map lit list_ascii_of_string app pad repeat Nat.add].
  right_nest. subst h.
  change (stringify_at 2 (JArr (map message_json (conversationHistory a)))
          ++ "," :: NL :: " " :: " "
             :: quote (list_ascii_of_string "timestamp")
                ++ ":" :: " " :: quote iso ++ [NL; "}"])%char
    with (stringify_at 2 (JArr (map message_json (conversationHistory a)))
          ++ ("," :: NL :: " " :: " "
             :: quote (list_ascii_of_string "timestamp")
                ++ ":" :: " " :: quote iso ++ [NL; "}"]))%char.
  rewrite stringify_history. rewrite !quote_app. reflexivity.
Qed.

Lemma skip_ws_pad (k : nat) (s : jstring) : skip_ws (pad k ++ s) = skip_ws s.
Proof. induction k as [| k IH]; [reflexivity | exact IH]. Qed.

Lemma skip_ws_member (ind : nat) (k rest : jstring) :
  skip_ws (member_to ind k rest) = quote_to k (":"%char :: " "%char :: rest).
Proof. unfold member_to. cbn [skip_ws]. change (is_json_ws NL) with true. cbv iota.
  rewrite skip_ws_pad. reflexivity. Qed.

Lemma parse_chars_escape (c : ascii) (x : jstring) :
  parse_chars (escape_chr c ++ x) =
  match parse_chars x with
  | Some (t, r) => Some (c :: t, r)
  | None => None
  end.
Proof. destruct c as [[] [] [] [] [] [] [] []]; reflexivity. Qed.

Lemma parse_chars_quote (s rest : jstring) :
  parse_chars (flat_map escape_chr s ++ QUOTE :: rest) = Some (s, rest).
Proof.
  induction s as [| c s IH]; cbn [flat_map app].
  - reflexivity.
  - rewrite <- app_assoc, parse_chars_escape, IH. reflexivity.
Qed.

(** A quoted string, after a blank. *)
Lemma parse_value_string (f : nat) (s rest : jstring) :
  parse_value (S f) (" "%char :: quote_to s rest) = Some (JStr s, rest).
Proof.
  unfold quote_to. cbn [parse_value skip_ws].
  change (is_json_ws " ") with true. change (is_json_ws QUOTE) with false.
  change (code QUOTE =? 34) with true. cbv iota.
  rewrite parse_chars_quote. reflexivity.
Qed.

(** The parser skips white space before a value. *)
Lemma parse_value_skip (f : nat) (s s' : jstring) :
  skip_ws s = skip_ws s' -> parse_value f s = parse_value f s'.
Proof. intros E. destruct f as [| f]; [reflexivity |]. cbn [parse_value]. rewrite E. reflexivity. Qed.

Lemma parse_elements_skip (f : nat) (s s' : jstring) :
  skip_ws s = skip_ws s' -> parse_elements f s = parse_elements f s'.
Proof.
  intros E. destruct f as [| f]; [reflexivity |]. cbn [parse_elements].
  rewrite (parse_value_skip f s s' E). reflexivity.
Qed.

Lemma skip_ws_nl_pad (k : nat) (s : jstring) : skip_ws (NL :: pad k ++ s) = skip_ws s.
Proof. cbn [skip_ws]. change (is_json_ws NL) with true. cbv iota. apply skip_ws_pad. Qed.

(** A member [key: value] that is followed by another member. *)
Lemma parse_members_more (f ind : nat) (k r2 r4 r5 : jstring) (v : json)
  (l : list (jstring * json)) :
  parse_value f (" "%char :: r2) = Some (v, ","%char :: r4) ->
  parse_members f r4 = Some (l, r5) ->
  parse_members (S f) (member_to ind k r2) = Some ((k, v) :: l, r5).
Proof.
  intros Hv Hl. cbn [parse_members]. rewrite skip_ws_member.
  unfold quote_to. change (code QUOTE =? 34) with true. cbv iota.
  rewrite parse_chars_quote. cbn [skip_ws].
  change (is_json_ws ":") with false. cbv iota.
  change (code ":" =? 58) with true. cbv iota.
  rewrite Hv. cbn [skip_ws]. change (is_json_ws ",") with false. cbv iota.
  change (code "," =? 44) with true. cbv iota. rewrite Hl. reflexivity.
Qed.

(** The last member of an object. *)
Lemma parse_members_last (f ind ind' : nat) (k r2 r4 : jstring) (v : json) :
  parse_value f (" "%char :: r2) = Some (v, NL :: pad ind' ++ "}"%char :: r4) ->
  parse_members (S f) (member_to ind k r2) = Some ([(k, v)], r4).
Proof.
  intros Hv. cbn [parse_members]. rewrite skip_ws_member.
  unfold quote_to. change (code QUOTE =? 34) with true. cbv iota.
  rewrite parse_chars_quote. cbn [skip_ws].
  change (is_json_ws ":") with false. cbv iota.
  change (code ":" =? 58) with true. cbv iota.
  rewrite Hv, skip_ws_nl_pad. cbn [skip_ws].
  change (is_json_ws "}") with false. cbv iota.
  change (code "}" =? 44) with false. change (code "}" =? 125) with true.
  reflexivity.
Qed.

Lemma parse_value_object (f ind : nat) (k r : jstring) :
  parse_value (S f) ("{"%char :: member_to ind k r)
  = match parse_members f (member_to ind k r) with
    | Some (l, r') => Some (JObj l, r')
    | None => None
    end.
Proof.
  cbn [parse_value skip_ws]. change (is_json_ws "{") with false. cbv iota.
  change (code "{" =? 34) with false. change (code "{" =? 91) with false.
  change (code "{" =? 123) with true. cbv iota.
  rewrite skip_ws_member. unfold quote_to.
  change (code QUOTE =? 125) with false. reflexivity.
Qed.

Lemma parse_value_message (f ind : nat) (m : Message) (rest : jstring) :
  parse_value (S (S (S (S f)))) (message_to ind m rest) = Some (message_json m, rest).
Proof.
  unfold message_to. rewrite parse_value_object.
  erewrite parse_members_more.
  - reflexivity.
  - apply parse_value_string.
  - eapply parse_members_last. apply parse_value_string.
Qed.

Lemma parse_elements_messages (h : list Message) (m : Message) (f : nat)
  (rest : jstring) :
  parse_elements (length h + 5 + f)
    (messages_to 4 (m :: h) (NL :: pad 2 ++ "]"%char :: rest))
  = Some (map message_json (m :: h), rest).
Proof.
  revert m. induction h as [| m' h IH]; intros m.
  - cbn [length Nat.add messages_to parse_elements].
    rewrite parse_value_message, skip_ws_nl_pad. reflexivity.
  - change (messages_to 4 (m :: m' :: h) (NL :: pad 2 ++ "]"%char :: rest))
      with (message_to 4 m
              (","%char :: NL :: pad 4
               ++ messages_to 4 (m' :: h) (NL :: pad 2 ++ "]"%char :: rest))).
    change (length (m' :: h) + 5 + f) with (S (length h + 5 + f)).
    cbn [parse_elements].
    replace (length h + 5 + f) with (S (S (S (S (length h + 1 + f))))) at 1 by lia.
    rewrite parse_value_message. cbn [skip_ws].
    change (is_json_ws ",") with false. cbv iota.
    change (code "," =? 44) with true. cbv iota.
    rewrite (parse_elements_skip _ _ _ (skip_ws_nl_pad 4 _)).
    rewrite IH. reflexivity.
Qed.

Lemma parse_value_history (h : list Message) (f : nat) (rest : jstring) :
  parse_value (S (length h + 5 + f)) (" "%char :: history_to h rest)
  = Some (JArr (map message_json h), rest).
Proof.
  destruct h as [| m h].
  - reflexivity.
  - unfold history_to. cbn [parse_value skip_ws].
    change (is_json_ws " ") with true. change (is_json_ws "[") with false.
    cbv iota.
    change (code "[" =? 34) with false. change (code "[" =? 91) with true.
    cbv iota. rewrite skip_ws_nl_pad.
    assert (Hhead : exists r, messages_to 4 (m :: h) (NL :: pad 2 ++ "]"%char :: rest)
                              = "{"%char :: r).
    { destruct h; cbn [messages_to]; unfold message_to; eauto. }
    destruct Hhead as (r & Hr). rewrite Hr. cbn [skip_ws].
    change (is_json_ws "{") with false. cbv iota.
    change (code "{" =? 93) with false. cbv iota. rewrite <- Hr.
    rewrite (parse_elements_skip _ _ _ (skip_ws_nl_pad 4 _)).
    change (length (m :: h) + 5 + f) with (S (length h + 5 + f)).
    replace (S (length h + 5 + f)) with (length h + 5 + S f) by lia.
    rewrite parse_elements_messages. reflexivity.
Qed.

Lemma parse_value_document (a : PrivateAgent) (iso : jstring) (f : nat) :
  parse_value (S (S (S (S (S (length (conversationHistory a) + 5 + f))))))
    (document_to a iso)
  = Some (export_document a iso, []).
Proof.
  unfold document_to. rewrite parse_value_object.
  erewrite parse_members_more; [reflexivity | apply parse_value_string |].
  erewrite parse_members_more; [reflexivity | apply parse_value_string |].
  erewrite parse_members_more; [reflexivity | apply parse_value_history |].
  eapply (parse_members_last _ _ 0).
  replace (length (conversationHistory a) + 5 + f)
    with (S (length (conversationHistory a) + 4 + f)) by lia.
  apply parse_value_string.
Qed.

Lemma normalise_messages (h : list Message) :
  map normalise (map message_json h) = map message_json h.
Proof. induction h as [| m h IH]; [reflexivity |]. cbn [map]. rewrite IH. reflexivity. Qed.

Lemma normalise_document (a : PrivateAgent) (iso : jstring) :
  normalise (export_document a iso) = export_document a iso.
Proof.
  unfold export_document. cbn [normalise fold_left fst snd].
  rewrite normalise_messages. reflexivity.
Qed.

Lemma quote_to_le (s rest : jstring) : length rest <= length (quote_to s rest).
Proof. unfold quote_to. cbn [length]. rewrite length_app. cbn [length]. lia. Qed.

Lemma member_to_le (ind : nat) (k rest : jstring) :
  length rest <= length (member_to ind k rest).
Proof.
  unfold member_to. cbn [length]. rewrite length_app.
  pose proof (quote_to_le k (":"%char :: " "%char :: rest)) as H.
  cbn [length] in H. lia.
Qed.

Ltac grow :=
  repeat first
    [ eapply Nat.le_trans; [| apply member_to_le]
    | eapply Nat.le_trans; [| apply quote_to_le]
    | progress cbn [length]; apply Nat.le_le_succ_r ].

Lemma message_to_length (ind : nat) (m : Message) (rest : jstring) :
  length rest < length (message_to ind m rest).
Proof.
  unfold message_to. cbn [length]. apply Nat.lt_succ_r. grow.
  rewrite length_app. cbn [length]. lia.
Qed.

Lemma messages_to_length (ind : nat) (h : list Message) (rest : jstring) :
  length h + length rest <= length (messages_to ind h rest).
Proof.
  induction h as [| m h IH]; [cbn; lia |].
  destruct h as [| m' h].
  - cbn [messages_to length]. pose proof (message_to_length ind m rest). lia.
  - change (messages_to ind (m :: m' :: h) rest)
      with (message_to ind m
              (","%char :: NL :: pad ind ++ messages_to ind (m' :: h) rest)).
    pose proof (message_to_length ind m
                  (","%char :: NL :: pad ind ++ messages_to ind (m' :: h) rest)) as H.
    cbn [length] in H |- *. rewrite length_app in H. cbn [length] in IH. lia.
Qed.

Lemma history_to_length (h : list Message) (rest : jstring) :
  length h + length rest < length (history_to h rest).
Proof.
  destruct h as [| m h]; [cbn; lia |].
  unfold history_to. cbn [length]. rewrite length_app.
  pose proof (messages_to_length 4 (m :: h) (NL :: pad 2 ++ "]"%char :: rest)) as H.
  cbn [length] in H. rewrite length_app in H. cbn [length] in H |- *. lia.
Qed.

Lemma document_to_length (a : PrivateAgent) (iso : jstring) :
  length (conversationHistory a) + 10 <= length (document_to a iso).
Proof.
  unfold document_to.
  pose proof (history_to_length (conversationHistory a)
                (","%char :: member_to 2 (lit "timestamp") (quote_to iso [NL; "}"%char])))
    as Hh.
  pose proof (member_to_le 2 (lit "timestamp") (quote_to iso [NL; "}"%char])) as Ht.
  pose proof (quote_to_le iso [NL; "}"%char]) as Hq.
  cbn [length] in Hh, Ht, Hq.
  assert (Hm : forall x, length x + 9
                 <= length ("{"%char :: member_to 2 (lit "model")
                    (quote_to (model a)
                       (","%char :: member_to 2 (lit "systemPrompt")
                          (quote_to (systemPrompt a)
                             (","%char :: member_to 2 (lit "history") x)))))).
  { intros x.
    assert (H1 : forall k r, length r + 3 <= length (member_to 2 k r)).
    { intros k r. unfold member_to, quote_to. cbn [length pad repeat app].
      rewrite length_app. cbn [length]. lia. }
    pose proof (H1 (lit "history") x) as Ha.
    pose proof (quote_to_le (systemPrompt a)
                  (","%char :: member_to 2 (lit "history") x)) as Hb.
    pose proof (H1 (lit "systemPrompt")
                  (quote_to (systemPrompt a)
                     (","%char :: member_to 2 (lit "history") x))) as Hc.
    pose proof (quote_to_le (model a)
                  (","%char :: member_to 2 (lit "systemPrompt")
                     (quote_to (systemPrompt a)
                        (","%char :: member_to 2 (lit "history") x)))) as Hd.
    pose proof (H1 (lit "model")
                  (quote_to (model a)
                     (","%char :: member_to 2 (lit "systemPrompt")
                        (quote_to (systemPrompt a)
                           (","%char :: member_to 2 (lit "history") x))))) as He.
    cbn [length] in *. lia. }
  specialize (Hm (history_to (conversationHistory a)
                    (","%char :: member_to 2 (lit "timestamp")
                       (quote_to iso [NL; "}"%char])))).
  lia.
Qed.

(** The stand-in parser reads back every exported document. *)
Lemma parse_exported_document (a : PrivateAgent) (iso : jstring) :
  Json.parse (stringify_pretty (export_document a iso))
  = Some (export_document a iso).
Proof.
  rewrite stringify_document. unfold Json.parse.
  pose proof (document_to_length a iso) as Hlen.
  replace (S (length (document_to a iso)))
    with (S (S (S (S (S (length (conversationHistory a) + 5
                         + (length (document_to a iso)
                            - length (conversationHistory a) - 9)))))))
    by lia.
  rewrite parse_value_document. cbn [skip_ws].
  rewrite normalise_document. reflexivity.
Qed.

(** With the printer and the parser of the examples the round trip holds
    for every state and every time stamp. *)
Lemma demo_round_trip (a : PrivateAgent) (iso : jstring) :
  importHistory demo_env a (exportHistory demo_env a iso) = Imported a.
Proof.
  apply import_of_parsed_export.
  unfold exportHistory. cbn [JSON_parse JSON_stringify_indent2 demo_env].
  unfold parse_outcome. rewrite parse_exported_document. reflexivity.
Qed.

End Codec.

(** ** The streamed turn *)

Section Turn.

Variable env : Env.

Lemma addMessage_enableTools (a : PrivateAgent) (r c : jstring) :
  enableTools (addMessage a r c) = enableTools a.
Proof.
  unfold addMessage, checkAndResetContext.
  destruct (exceeds _); reflexivity.
Qed.

Lemma nonempty_length {A : Type} (l : list A) : l <> [] -> (0 <? length l) = true.
Proof. destruct l; [congruence | reflexivity]. Qed.

(** C2, as the code has it: when the first response ends at its [done]
    fragment, the turn ran tool calls and the follow-up request completed,
    the turn resolves with the token total of the fragment that completed
    the FIRST request; the counters of the follow-up request are read
    nowhere. *)
Theorem C2_token_total_of_a_tool_turn
  (a : PrivateAgent) (userMessage : jstring) (options : chat_options)
  (events1 events2 : list stream_event)
  (full1 full2 : jstring) (parsed1 parsed2 : fragment) (chunks1 chunks2 : list chunk) :
  done_is_last events1 = true ->
  consume events1 [] [] = (Done full1 parsed1, chunks1) ->
  consume events2 [] [] = (Done full2 parsed2, chunks2) ->
  extractToolCalls env full1 <> [] ->
  enableTools a = true ->
  tools_wanted options = true ->
  exists (r : TurnResult) (a' : PrivateAgent) (shown : list chunk),
    streamChat env a userMessage options (Streaming events1) (Streaming events2)
    = (Resolved r, a', shown)
    /\ total_tokens r = token_total parsed1
    /\ toolCalls r = extractToolCalls env full1
    /\ message r = full1.
Proof.
  intros _ H1 H2 Hcalls Hen Hwant.
  unfold streamChat. rewrite H1.
  rewrite (nonempty_length _ Hcalls), addMessage_enableTools, Hen, Hwant.
  cbn [andb].
  destruct (executeToolCallsAndContinue env _ _) as [[toolResults a2] shown2].
  unfold continueAfterTools. rewrite H2.
  do 3 eexists. split; [reflexivity |]. repeat split.
Qed.

End Turn.

(** The scenario turn resolves with the 15 tokens of the first request. *)
Lemma C2_token_total_of_a_tool_turn_witness :
  exists (r : TurnResult) (a' : PrivateAgent) (shown : list chunk),
    streamChat demo_env (demo_agent 4096) (lit "list files in .") default_chat
      first_response follow_up_response = (Resolved r, a', shown)
    /\ total_tokens r = 15%Z
    /\ length (toolCalls r) = 1.
Proof.
  destruct (C2_token_total_of_a_tool_turn demo_env (demo_agent 4096)
              (lit "list files in .") default_chat
              [delta (lit "Let me look. "); Line Garbage; delta listing_call;
               Line (Fragment (done_with 10 5))]
              [delta (lit "There is one file, README.md.");
               Line (Fragment (done_with 100 50))]
              (lit "Let me look. " ++ listing_call)
              (lit "There is one file, README.md.")
              (done_with 10 5) (done_with 100 50)
              [Delta (lit "Let me look. "); Delta listing_call]
              [Delta (lit "There is one file, README.md.")])
    as (r & a' & shown & Hrun & Htok & Hcalls & _).
  - reflexivity.
  - vm_compute. reflexivity.
  - vm_compute. reflexivity.
  - vm_compute. discriminate.
  - reflexivity.
  - reflexivity.
  - exists r, a', shown. split; [exact Hrun |]. split; [exact Htok |].
    rewrite Hcalls. vm_compute. reflexivity.
Defined.

(** C2 as the specification words it fails on the scenario turn: the
    follow-up request ends with 100 + 50 tokens and the turn reports the
    10 + 5 of the first request. *)
Lemma C2_counterexample :
  consume [delta (lit "There is one file, README.md.");
           Line (Fragment (done_with 100 50))] [] []
  = (Done (lit "There is one file, README.md.") (done_with 100 50),
     [Delta (lit "There is one file, README.md.")])
  /\ token_total (done_with 100 50) = 150%Z
  /\ exists (r : TurnResult) (a' : PrivateAgent) (shown : list chunk),
       streamChat demo_env (demo_agent 4096) (lit "list files in .") default_chat
         first_response follow_up_response = (Resolved r, a', shown)
       /\ length (toolCalls r) = 1
       /\ total_tokens r = 15%Z
       /\ total_tokens r <> token_total (done_with 100 50).
Proof.
  split; [vm_compute; reflexivity |]. split; [reflexivity |].
  do 3 eexists. split; [vm_compute; reflexivity |].
  split; [reflexivity |]. split; [reflexivity |]. vm_compute. discriminate.
Qed.

(** ** Tool-call markers and the regular expression that finds them *)

Section Tags.

Lemma strip_prefix_app (l s : jstring) : strip_prefix l (l ++ s) = Some s.
Proof.
  induction l as [| x l IH]; cbn [strip_prefix app]; [reflexivity |].
  unfold chr_eqb. rewrite Ascii.eqb_refl. exact IH.
Qed.

Lemma strip_prefix_inv (l s s' : jstring) :
  strip_prefix l s = Some s' -> s = l ++ s'.
Proof.
  revert s. induction l as [| x l IH]; intros s; cbn [strip_prefix app].
  - intros E. injection E as <-. reflexivity.
  - destruct s as [| y s]; [discriminate |].
    unfold chr_eqb. destruct (Ascii.eqb x y) eqn:Exy; [| discriminate].
    apply Ascii.eqb_eq in Exy. subst y. intros E. rewrite (IH _ E). reflexivity.
Qed.

(** A text without an occurrence of [p] has none at its head, nor in its
    tail. *)
Lemma includes_cons_false (p : jstring) (y : ascii) (x : jstring) :
  includes p (y :: x) = false ->
  starts_with p (y :: x) = false /\ includes p x = false.
Proof. cbn [includes]. intros H. apply orb_false_iff in H. exact H. Qed.

(** A tail of a tag that holds no [<] cannot begin where a text ends when
    what follows is empty or begins with [<]. *)
Lemma strip_tail_app (t x k : jstring) :
  no_lt t = true -> head_lt k = true ->
  strip_prefix t x = None -> strip_prefix t (x ++ k) = None.
Proof.
  intros Ht Hk. revert x. induction t as [| c t IH]; intros x; cbn [strip_prefix].
  - discriminate.
  - cbn [no_lt forallb] in Ht. apply andb_true_iff in Ht. destruct Ht as [Hc Ht].
    destruct x as [| y x]; cbn [app].
    + intros _. destruct k as [| z k]; [reflexivity |].
      cbn [head_lt] in Hk. unfold chr_eqb in *.
      apply Ascii.eqb_eq in Hk. subst z.
      rewrite Ascii.eqb_sym. apply negb_true_iff in Hc. rewrite Hc. reflexivity.
    + destruct (chr_eqb c y); [apply IH; exact Ht | reflexivity].
Qed.

(** A tag [<...] without another [<] that does not begin a non-empty text
    does not begin it either when more text follows. *)
Lemma strip_tag_app (t x k : jstring) :
  no_lt t = true -> head_lt k = true -> x <> [] ->
  starts_with ("<"%char :: t) x = false ->
  strip_prefix ("<"%char :: t) (x ++ k) = None.
Proof.
  intros Ht Hk Hx Hs. destruct x as [| y x]; [congruence |].
  unfold starts_with in Hs. cbn [strip_prefix app] in *.
  destruct (chr_eqb "<" y); [| reflexivity].
  apply strip_tail_app; [exact Ht | exact Hk |].
  destruct (strip_prefix t x); [discriminate | reflexivity].
Qed.

(** In a text without the tag, followed by nothing or by [<], the tag
    begins at no position of the text. *)
Lemma tag_absent (t x1 x2 k : jstring) :
  no_lt t = true -> head_lt k = true ->
  includes ("<"%char :: t) (x1 ++ x2) = false -> x2 <> [] ->
  strip_prefix ("<"%char :: t) (x2 ++ k) = None.
Proof.
  intros Ht Hk Hinc Hx. induction x1 as [| y x1 IH].
  - destruct x2 as [| y x2]; [congruence |].
    apply includes_cons_false in Hinc. destruct Hinc as [Hs _].
    apply strip_tag_app; assumption.
  - apply IH. cbn [app] in Hinc. apply includes_cons_false in Hinc. tauto.
Qed.

End Tags.

Section Quantifiers.

Context {A : Type}.

(** The lazy [.*?] stops at the first position where the rest matches. *)
Lemma star_lazy_here (s : jstring) (k : jstring -> option A) (r : A) :
  k s = Some r -> star_lazy any s k = Some r.
Proof. intros H. destruct s; cbn [star_lazy]; rewrite H; reflexivity. Qed.

Lemma star_lazy_skip (x s : jstring) (k : jstring -> option A) :
  (forall x1 x2, x = x1 ++ x2 -> x2 <> [] -> k (x2 ++ s) = None) ->
  star_lazy any (x ++ s) k = star_lazy any s k.
Proof.
  induction x as [| y x IH]; intros Hfail; [reflexivity |].
  assert (H0 : k (y :: x ++ s) = None)
    by (apply (Hfail [] (y :: x) eq_refl); discriminate).
  cbn [app star_lazy]. rewrite H0.
  cbn [any]. apply IH. intros x1 x2 E Hx2.
  apply (Hfail (y :: x1) x2); [rewrite E; reflexivity | exact Hx2].
Qed.

(** The greedy [\s*] takes all the white space before a character that is
    none. *)
Lemma star_greedy_all (w s : jstring) (k : jstring -> option A) (r : A) :
  forallb is_space w = true -> head_space s = false -> k s = Some r ->
  star_greedy is_space (w ++ s) k = Some r.
Proof.
  intros Hw Hs Hk. induction w as [| c w IH]; cbn [app].
  - destruct s as [| y s]; cbn [star_greedy]; [exact Hk |].
    cbn [head_space] in Hs. rewrite Hs. exact Hk.
  - cbn [forallb] in Hw. apply andb_true_iff in Hw. destruct Hw as [Hc Hw].
    cbn [star_greedy]. rewrite Hc, (IH Hw). reflexivity.
Qed.

(** What the quantifiers matched, when they matched. *)
Lemma star_greedy_inv (p : ascii -> bool) (s : jstring)
  (k : jstring -> option A) (r : A) :
  star_greedy p s k = Some r ->
  exists w s', s = w ++ s' /\ forallb p w = true /\ k s' = Some r.
Proof.
  induction s as [| c s IH]; cbn [star_greedy]; intros H.
  - exists [], []. repeat split. exact H.
  - destruct (p c) eqn:Hc.
    + destruct (star_greedy p s k) as [r' |] eqn:E.
      * injection H as <-. destruct (IH eq_refl) as (w & s' & -> & Hw & Hk).
        exists (c :: w), s'. cbn [forallb app]. rewrite Hc, Hw. repeat split. exact Hk.
      * exists [], (c :: s). repeat split. exact H.
    + exists [], (c :: s). repeat split. exact H.
Qed.

Lemma star_lazy_inv (p : ascii -> bool) (s : jstring)
  (k : jstring -> option A) (r : A) :
  star_lazy p s k = Some r ->
  exists x s', s = x ++ s' /\ forallb p x = true /\ k s' = Some r.
Proof.
  induction s as [| c s IH]; cbn [star_lazy]; intros H.
  - destruct (k []) eqn:E; [| discriminate].
    exists [], []. repeat split. rewrite E. exact H.
  - destruct (k (c :: s)) eqn:E.
    + exists [], (c :: s). repeat split. rewrite E. exact H.
    + destruct (p c) eqn:Hc; [| discriminate].
      destruct (IH H) as (x & s' & -> & Hx & Hk).
      exists (c :: x), s'. cbn [forallb app]. rewrite Hc, Hx. repeat split. exact Hk.
Qed.

End Quantifiers.

Section ToolCallRegex.

Lemma firstn_prefix {A : Type} (x s : list A) :
  firstn (length (x ++ s) - length s) (x ++ s) = x.
Proof.
  rewrite length_app.
  replace (length x + length s - length s) with (length x) by lia.
  rewrite firstn_app, firstn_all, Nat.sub_diag. cbn [firstn]. apply app_nil_r.
Qed.

Lemma well_formed_inv (m : marker_spec) :
  well_formed m = true ->
  forallb is_space (m_ws1 m) = true /\ forallb is_space (m_ws2 m) = true
  /\ forallb is_space (m_ws3 m) = true
  /\ includes (lit "</function>") (m_function m) = false
  /\ includes (lit "</arguments>") (m_arguments m) = false.
Proof.
  unfold well_formed. rewrite !andb_true_iff, !negb_true_iff. tauto.
Qed.

Lemma exec_unfold (r : regex) (s : jstring) :
  exec r s =
  match match_here r s with
  | Some m => Some m
  | None =>
      match s with
      | [] => None
      | _ :: s' => exec r s'
      end
  end.
Proof. destruct s; reflexivity. Qed.

(** On the text of a well-formed marker the expression matches the whole
    marker, and captures the function name and the arguments. *)
Lemma match_here_marker (m : marker_spec) (rest : jstring) :
  well_formed m = true ->
  match_here tool_call_regex (marker_text m ++ rest)
  = Some ([(2, m_arguments m); (1, m_function m)], rest).
Proof.
  intros Hwf. apply well_formed_inv in Hwf.
  destruct Hwf as (Hw1 & Hw2 & Hw3 & Hf & Ha).
  unfold match_here, tool_call_regex, marker_text. cbn [seqs rmatch].
  rewrite <- !app_assoc.
  rewrite rmatch_str, strip_prefix_app.
  unfold ws_star. cbn [rmatch].
  apply star_greedy_all; [exact Hw1 | reflexivity |].
  rewrite rmatch_str, strip_prefix_app. cbn [rmatch].
  rewrite star_lazy_skip.
  2:{ intros x1 x2 E Hx2. rewrite rmatch_str.
      rewrite (tag_absent (lit "/function>") x1 x2); try reflexivity; try assumption.
      rewrite <- E. exact Hf. }
  apply star_lazy_here.
  rewrite rmatch_str, strip_prefix_app. cbn [rmatch].
  apply star_greedy_all; [exact Hw2 | reflexivity |].
  rewrite rmatch_str, strip_prefix_app. cbn [rmatch].
  rewrite star_lazy_skip.
  2:{ intros x1 x2 E Hx2. rewrite rmatch_str.
      rewrite (tag_absent (lit "/arguments>") x1 x2); try reflexivity; try assumption.
      rewrite <- E. exact Ha. }
  apply star_lazy_here.
  rewrite rmatch_str, strip_prefix_app. cbn [rmatch].
  apply star_greedy_all; [exact Hw3 | reflexivity |].
  rewrite rmatch_str, strip_prefix_app.
  rewrite !firstn_prefix. reflexivity.
Qed.

(** Inside plain text the expression matches nowhere. *)
Lemma match_here_plain (x1 x2 k : jstring) :
  plain (x1 ++ x2) = true -> x2 <> [] -> head_lt k = true ->
  match_here tool_call_regex (x2 ++ k) = None.
Proof.
  unfold plain. rewrite negb_true_iff. intros Hp Hx Hk.
  unfold match_here, tool_call_regex. cbn [seqs rmatch].
  rewrite rmatch_str.
  rewrite (tag_absent (lit "tool_call>") x1 x2); try reflexivity; assumption.
Qed.

Lemma exec_plain (p k : jstring) :
  plain p = true -> head_lt k = true ->
  exec tool_call_regex (p ++ k) = exec tool_call_regex k.
Proof.
  intros Hp Hk.
  assert (H : forall x1 x2, p = x1 ++ x2 ->
              exec tool_call_regex (x2 ++ k) = exec tool_call_regex k).
  { intros x1 x2. revert x1. induction x2 as [| y x2 IH]; intros x1 E.
    - reflexivity.
    - cbn [app exec].
      change (y :: x2 ++ k) with ((y :: x2) ++ k).
      rewrite (match_here_plain x1 (y :: x2)); [| rewrite <- E; exact Hp
                                               | discriminate | exact Hk].
      apply (IH (x1 ++ [y])). rewrite <- app_assoc. exact E. }
  exact (H [] p eq_refl).
Qed.

Lemma exec_nil : exec tool_call_regex [] = None.
Proof. reflexivity. Qed.

Lemma exec_marker (m : marker_spec) (rest : jstring) :
  well_formed m = true ->
  exec tool_call_regex (marker_text m ++ rest)
  = Some ([(2, m_arguments m); (1, m_function m)], rest).
Proof.
  intros Hwf. rewrite exec_unfold, (match_here_marker m rest Hwf). reflexivity.
Qed.

Lemma marker_text_head (m : marker_spec) (rest : jstring) :
  head_lt (marker_text m ++ rest) = true.
Proof. reflexivity. Qed.

Lemma marker_text_length (m : marker_spec) : 0 < length (marker_text m).
Proof. unfold marker_text. rewrite length_app. cbn. lia. Qed.

(** What a match of the expression looks like: the text of a marker whose
    white space is white space, with the name and the arguments captured. *)
Lemma match_here_inv (s : jstring) (c : captures) (rest : jstring) :
  match_here tool_call_regex s = Some (c, rest) ->
  exists m : marker_spec,
    s = marker_text m ++ rest
    /\ c = [(2, m_arguments m); (1, m_function m)]
    /\ forallb is_space (m_ws1 m) = true
    /\ forallb is_space (m_ws2 m) = true
    /\ forallb is_space (m_ws3 m) = true.
Proof.
  unfold match_here, tool_call_regex. cbn [seqs rmatch]. intros H.
  rewrite rmatch_str in H.
  destruct (strip_prefix _ s) as [s1 |] eqn:E1; [| discriminate].
  apply strip_prefix_inv in E1. subst s.
  unfold ws_star in H. cbn [rmatch] in H.
  apply star_greedy_inv in H. destruct H as (w1 & s2 & -> & Hw1 & H).
  rewrite rmatch_str in H.
  destruct (strip_prefix _ s2) as [s3 |] eqn:E2; [| discriminate].
  apply strip_prefix_inv in E2. subst s2.
  cbn [rmatch] in H.
  apply star_lazy_inv in H. destruct H as (f & s4 & -> & _ & H).
  rewrite rmatch_str in H.
  destruct (strip_prefix _ s4) as [s5 |] eqn:E3; [| discriminate].
  apply strip_prefix_inv in E3. subst s4.
  cbn [rmatch] in H.
  apply star_greedy_inv in H. destruct H as (w2 & s6 & -> & Hw2 & H).
  rewrite rmatch_str in H.
  destruct (strip_prefix _ s6) as [s7 |] eqn:E4; [| discriminate].
  apply strip_prefix_inv in E4. subst s6.
  cbn [rmatch] in H.
  apply star_lazy_inv in H. destruct H as (a & s8 & -> & _ & H).
  rewrite rmatch_str in H.
  destruct (strip_prefix _ s8) as [s9 |] eqn:E5; [| discriminate].
  apply strip_prefix_inv in E5. subst s8.
  cbn [rmatch] in H.
  apply star_greedy_inv in H. destruct H as (w3 & s10 & -> & Hw3 & H).
  rewrite rmatch_str in H.
  destruct (strip_prefix _ s10) as [s11 |] eqn:E6; [| discriminate].
  apply strip_prefix_inv in E6. subst s10.
  rewrite !firstn_prefix in H. injection H as <- <-.
  exists {| m_ws1 := w1; m_function := f; m_ws2 := w2; m_arguments := a;
            m_ws3 := w3 |}.
  unfold marker_text. cbn [m_ws1 m_function m_ws2 m_arguments m_ws3].
  rewrite <- !app_assoc. repeat split; assumption.
Qed.

(** The leftmost match begins somewhere in the text. *)
Lemma exec_inv (r : regex) (s : jstring) (c : captures) (rest : jstring) :
  exec r s = Some (c, rest) ->
  exists pre s0, s = pre ++ s0 /\ match_here r s0 = Some (c, rest).
Proof.
  induction s as [| y s IH]; cbn [exec]; intros H.
  - destruct (match_here r []) eqn:E; [| discriminate].
    exists [], []. split; [reflexivity | congruence].
  - destruct (match_here r (y :: s)) eqn:E.
    + exists [], (y :: s). split; [reflexivity | congruence].
    + destruct (IH H) as (pre & s0 & -> & Hm).
      exists (y :: pre), s0. split; [reflexivity | exact Hm].
Qed.

(** A match is never empty: the loop moves on in the text. *)
Lemma exec_shorter (s : jstring) (c : captures) (rest : jstring) :
  exec tool_call_regex s = Some (c, rest) -> length rest < length s.
Proof.
  intros H. apply exec_inv in H. destruct H as (pre & s0 & -> & H).
  apply match_here_inv in H. destruct H as (m & -> & _).
  rewrite !length_app. pose proof (marker_text_length m). lia.
Qed.

Lemma exec_captures (s : jstring) (c : captures) (rest : jstring) :
  exec tool_call_regex s = Some (c, rest) ->
  exists f a, c = [(2, a); (1, f)].
Proof.
  intros H. apply exec_inv in H. destruct H as (pre & s0 & -> & H).
  apply match_here_inv in H. destruct H as (m & _ & -> & _).
  eauto.
Qed.

End ToolCallRegex.

(** ** Extraction of the tool calls *)

Section Extraction.

Variable env : Env.

Lemma toolCall_of_captures (f a : jstring) :
  toolCall_of_match env [(2, a); (1, f)] = Some (entry_of env f a).
Proof. reflexivity. Qed.

(** Fuel above the length of the text is never exhausted. *)
Lemma extract_loop_fuel (fuel : nat) (text : jstring) :
  length text < fuel ->
  extract_loop env fuel text = extractToolCalls env text.
Proof.
  unfold extractToolCalls.
  remember (length text) as n eqn:En.
  revert fuel text En. induction n as [n IH] using lt_wf_ind.
  intros fuel text En Hlt. destruct fuel as [| fuel]; [lia |].
  cbn [extract_loop].
  destruct (exec tool_call_regex text) as [[c rest] |] eqn:E; [| reflexivity].
  pose proof (exec_shorter _ _ _ E) as Hshort.
  rewrite (IH (length rest)) by (try reflexivity; lia).
  rewrite (IH (length rest) ltac:(lia) n rest) by (try reflexivity; lia).
  reflexivity.
Qed.

Lemma match_loop_fuel (fuel : nat) (text : jstring) :
  length text < fuel -> match_loop fuel text = loop_matches text.
Proof.
  unfold loop_matches.
  remember (length text) as n eqn:En.
  revert fuel text En. induction n as [n IH] using lt_wf_ind.
  intros fuel text En Hlt. destruct fuel as [| fuel]; [lia |].
  cbn [match_loop].
  destruct (exec tool_call_regex text) as [[c rest] |] eqn:E; [| reflexivity].
  pose proof (exec_shorter _ _ _ E) as Hshort.
  rewrite (IH (length rest)) by (try reflexivity; lia).
  rewrite (IH (length rest) ltac:(lia) n rest) by (try reflexivity; lia).
  reflexivity.
Qed.

(** One step of the loop. *)
Lemma extractToolCalls_step (text : jstring) (f a rest : jstring) :
  exec tool_call_regex text = Some ([(2, a); (1, f)], rest) ->
  extractToolCalls env text = entry_of env f a :: extractToolCalls env rest
  /\ loop_matches text = [(2, a); (1, f)] :: loop_matches rest.
Proof.
  intros E. pose proof (exec_shorter _ _ _ E) as Hshort.
  unfold extractToolCalls, loop_matches. cbn [extract_loop match_loop].
  rewrite E, toolCall_of_captures.
  rewrite extract_loop_fuel, match_loop_fuel by lia.
  split; reflexivity.
Qed.

Lemma extractToolCalls_none (text : jstring) :
  exec tool_call_regex text = None ->
  extractToolCalls env text = [] /\ loop_matches text = [].
Proof.
  intros E. unfold extractToolCalls, loop_matches.
  cbn [extract_loop match_loop]. rewrite E. split; reflexivity.
Qed.

(** Every iteration of the loop pushes the entry of its match. *)
Lemma extract_follows_matches (text : jstring) (i : nat) (c : captures) :
  nth_error (loop_matches text) i = Some c ->
  exists f a,
    c = [(2, a); (1, f)]
    /\ nth_error (extractToolCalls env text) i = Some (entry_of env f a).
Proof.
  remember (length text) as n eqn:En.
  revert text En i. induction n as [n IH] using lt_wf_ind. intros text En i.
  destruct (exec tool_call_regex text) as [[c0 rest] |] eqn:E.
  - destruct (exec_captures _ _ _ E) as (f & a & ->).
    pose proof (exec_shorter _ _ _ E) as Hshort.
    destruct (extractToolCalls_step _ _ _ _ E) as [-> ->].
    destruct i as [| i]; cbn [nth_error].
    + intros H. injection H as <-. eauto.
    + apply (IH (length rest)); [lia | reflexivity].
  - destruct (extractToolCalls_none _ E) as [-> ->].
    destruct i; discriminate.
Qed.

Lemma extract_length (text : jstring) :
  length (extractToolCalls env text) = length (loop_matches text).
Proof.
  remember (length text) as n eqn:En.
  revert text En. induction n as [n IH] using lt_wf_ind. intros text En.
  destruct (exec tool_call_regex text) as [[c0 rest] |] eqn:E.
  - destruct (exec_captures _ _ _ E) as (f & a & ->).
    pose proof (exec_shorter _ _ _ E) as Hshort.
    destruct (extractToolCalls_step _ _ _ _ E) as [-> ->].
    cbn [length]. f_equal. apply (IH (length rest)); [lia | reflexivity].
  - destruct (extractToolCalls_none _ E) as [-> ->]. reflexivity.
Qed.

(** Extraction over plain text and well-formed markers, marker by marker. *)
Lemma extract_assemble (l : list (marker_spec * jstring)) (p0 : jstring) :
  plain p0 = true -> segments_ok l = true ->
  extractToolCalls env (assemble p0 l)
  = map (fun mp => entry_of env (m_function (fst mp)) (m_arguments (fst mp))) l.
Proof.
  revert p0. induction l as [| [m p] l IH]; intros p0 Hp Hl; cbn [assemble map].
  - apply extractToolCalls_none.
    rewrite <- (app_nil_r p0), exec_plain; [apply exec_nil | exact Hp | reflexivity].
  - cbn [segments_ok forallb fst snd] in Hl.
    apply andb_true_iff in Hl. destruct Hl as [Hm Hl].
    apply andb_true_iff in Hm. destruct Hm as [Hwf Hpp].
    assert (E : exec tool_call_regex (p0 ++ marker_text m ++ assemble p l)
                = Some ([(2, m_arguments m); (1, m_function m)], assemble p l)).
    { rewrite exec_plain; [apply exec_marker; exact Hwf | exact Hp
                          | apply marker_text_head]. }
    destruct (extractToolCalls_step _ _ _ _ E) as [-> _].
    cbn [fst]. f_equal. apply IH; [exact Hpp | exact Hl].
Qed.

(** C3, as the code has it: in a text made of plain text (text without the
    opening tag) and N markers whose function name holds no closing
    function tag and whose arguments hold no closing arguments tag, the
    extraction yields exactly N entries, in the order of the markers, each
    with the trimmed name of its marker.  The extraction reads the text
    only, so it yields the same entries each time. *)
Theorem C3_extraction_in_order (p0 : jstring) (l : list (marker_spec * jstring)) :
  plain p0 = true ->
  segments_ok l = true ->
  length (extractToolCalls env (assemble p0 l)) = length l
  /\ map name (extractToolCalls env (assemble p0 l))
     = map (fun mp => trim (m_function (fst mp))) l
  /\ extractToolCalls env (assemble p0 l)
     = map (fun mp => entry_of env (m_function (fst mp)) (m_arguments (fst mp))) l.
Proof.
  intros Hp Hl. rewrite (extract_assemble l p0 Hp Hl).
  rewrite length_map, map_map. repeat split.
Qed.

Lemma consume_done_resolves (a : PrivateAgent) (userMessage : jstring)
  (options : chat_options) (events1 events2 : list stream_event)
  (full1 full2 : jstring) (parsed1 parsed2 : fragment)
  (chunks1 chunks2 : list chunk) :
  consume events1 [] [] = (Done full1 parsed1, chunks1) ->
  consume events2 [] [] = (Done full2 parsed2, chunks2) ->
  exists (r : TurnResult) (a' : PrivateAgent) (shown : list chunk),
    streamChat env a userMessage options (Streaming events1) (Streaming events2)
    = (Resolved r, a', shown)
    /\ message r = full1.
Proof.
  intros H1 H2. unfold streamChat. rewrite H1.
  destruct (_ && _ && _).
  - destruct (executeToolCallsAndContinue env _ _) as [[toolResults a2] shown2].
    unfold continueAfterTools. rewrite H2.
    do 3 eexists. split; reflexivity.
  - do 3 eexists. split; reflexivity.
Qed.

(** C7: whenever the loop of the extraction finds a marker whose arguments
    [JSON.parse] refuses, it pushes for it the entry with the trimmed
    function name and the empty object -- every match gets its entry --,
    the empty object is handed to the tool unchanged, and a turn whose
    first response ends at its [done] fragment and whose follow-up request
    completes resolves whatever the arguments were. *)
Theorem C7_malformed_arguments_become_empty :
  (forall (text : jstring) (i : nat) (c : captures),
     nth_error (loop_matches text) i = Some c ->
     exists f a,
       capture 1 c = Some f /\ capture 2 c = Some a
       /\ forall e : jstring,
            JSON_parse env (trim a) = Threw e ->
            nth_error (extractToolCalls env text) i
            = Some {| name := trim f; arguments := empty_object |})
  /\ (forall text : jstring,
        length (extractToolCalls env text) = length (loop_matches text))
  /\ decode_arguments env empty_object = empty_object
  /\ (forall (a : PrivateAgent) (userMessage : jstring) (options : chat_options)
        (events1 events2 : list stream_event) (full1 full2 : jstring)
        (parsed1 parsed2 : fragment) (chunks1 chunks2 : list chunk),
        done_is_last events1 = true ->
        consume events1 [] [] = (Done full1 parsed1, chunks1) ->
        consume events2 [] [] = (Done full2 parsed2, chunks2) ->
        exists (r : TurnResult) (a' : PrivateAgent) (shown : list chunk),
          streamChat env a userMessage options (Streaming events1) (Streaming events2)
          = (Resolved r, a', shown)
          /\ message r = full1).
Proof.
  split; [| split; [| split]].
  - intros text i c Hc.
    destruct (extract_follows_matches text i c Hc) as (f & a & -> & Hentry).
    exists f, a. split; [reflexivity |]. split; [reflexivity |].
    intros e He. rewrite Hentry. unfold entry_of. rewrite He.
    destruct (truthy_str (trim a)); reflexivity.
  - apply extract_length.
  - reflexivity.
  - intros a userMessage options events1 events2 full1 full2 parsed1 parsed2
      chunks1 chunks2 _ H1 H2.
    eapply consume_done_resolves; eassumption.
Qed.

End Extraction.

(** Two markers in plain text that holds a [<] of its own. *)
Lemma C3_extraction_in_order_witness :
  map name (extractToolCalls demo_env two_calls)
  = [lit "list_directory"; lit "read_file"].
Proof.
  destruct (C3_extraction_in_order demo_env (lit "I will look < around. ")
              [(good_marker, lit " and then "); (bad_marker, lit " done.")])
    as (_ & Hnames & _).
  - vm_compute. reflexivity.
  - vm_compute. reflexivity.
  - exact Hnames.
Defined.

(** C3 as the specification words it fails on one marker whose arguments
    are a JSON object with marker text inside a string: the lazy match
    ends at the closing tags inside the string, and a second match begins
    at the opening tag that follows them. *)
Lemma C3_counterexample :
  (exists fields, Json.parse tricky_arguments = Some (JObj fields))
  /\ map name (extractToolCalls demo_env (marker_text tricky_marker))
     = [lit "write_file"; lit "x"]
  /\ length (extractToolCalls demo_env (marker_text tricky_marker)) <> 1.
Proof.
  split; [eexists; vm_compute; reflexivity |].
  split; [vm_compute; reflexivity | vm_compute; discriminate].
Qed.

(** The second marker of [two_calls] has arguments that are no JSON. *)
Lemma C7_malformed_arguments_become_empty_witness :
  nth_error (extractToolCalls demo_env two_calls) 1
  = Some {| name := lit "read_file"; arguments := empty_object |}
  /\ exists (r : TurnResult) (a' : PrivateAgent) (shown : list chunk),
       streamChat demo_env (demo_agent 4096) (lit "read it") default_chat
         bad_call_response follow_up_response = (Resolved r, a', shown)
       /\ message r = two_calls.
Proof.
  destruct (C7_malformed_arguments_become_empty demo_env)
    as (Hentry & _ & _ & Hturn).
  split.
  - destruct (Hentry two_calls 1
                [(2, m_arguments bad_marker); (1, m_function bad_marker)])
      as (f & a & Hf & Ha & Hempty).
    + vm_compute. reflexivity.
    + cbn [capture Nat.eqb] in Hf, Ha.
      injection Hf as <-. injection Ha as <-.
      rewrite (Hempty (lit "Unexpected token in JSON")).
      * vm_compute. reflexivity.
      * vm_compute. reflexivity.
  - apply (Hturn (demo_agent 4096) (lit "read it") default_chat
             [delta two_calls; Line (Fragment (done_with 10 5))]
             [delta (lit "There is one file, README.md.");
              Line (Fragment (done_with 100 50))]
             two_calls (lit "There is one file, README.md.")
             (done_with 10 5) (done_with 100 50)
             [Delta two_calls] [Delta (lit "There is one file, README.md.")]).
    + reflexivity.
    + vm_compute. reflexivity.
    + vm_compute. reflexivity.
Defined.

(** The whole turn on [two_calls]: both tools run, the second with the
    empty object, and its failure is folded into the follow-up prompt. *)
Example malformed_turn_runs_both_tools :
  let '(p, a', _) :=
    streamChat demo_env (demo_agent 4096) (lit "read it") default_chat
      bad_call_response follow_up_response in
  match p with
  | Resolved r => map arguments (toolCalls r)
  | _ => []
  end
  = [JObj [(lit "path", JStr (lit ".")); (lit "detailed", JBool true)]; empty_object]
  /\ map (fun t => (tc_function t, tc_args t, tc_success t)) (toolCallHistory a')
     = [(lit "list_directory",
         JObj [(lit "path", JStr (lit ".")); (lit "detailed", JBool true)], true);
        (lit "read_file", empty_object, false)]
  /\ map role (conversationHistory a')
     = [user_role; assistant_role; user_role; assistant_role].
Proof. vm_compute. repeat split. Qed.

(** An opening tag in the text before a marker is taken for the start of
    the marker: the entry is there, under another name. *)
Example stray_opening_tag_changes_the_name :
  map name (extractToolCalls demo_env stray_opening)
  = [lit "junk <tool_call>" ++ [NL] ++ lit "<function>ls"].
Proof. vm_compute. reflexivity. Qed.

(* ================================================================== *)
(** * Part III.  Further properties of the code *)
(* ================================================================== *)

(** ** The history getters *)

Section Slices.

Context {A : Type}.

Lemma slice_from_last (n : Z) (l : list A) :
  (0 < n)%Z -> slice_from (- n) l = slice_last (Z.to_nat n) l.
Proof.
  intros Hn. unfold slice_from, slice_last.
  destruct (Z.ltb_spec (- n) 0) as [_ | H]; [| lia].
  f_equal. lia.
Qed.

Lemma slice_from_zero (l : list A) : slice_from (- 0) l = l.
Proof.
  unfold slice_from. change (- 0 <? 0)%Z with false. cbv iota.
  rewrite Z.min_l by lia. reflexivity.
Qed.

Lemma slice_from_drop (n : Z) (l : list A) :
  (n < 0)%Z -> slice_from (- n) l = skipn (Z.to_nat (- n)) l.
Proof.
  intros Hn. unfold slice_from.
  destruct (Z.ltb_spec (- n) 0) as [H | _]; [lia |].
  destruct (Z.min_spec (- n) (Z.of_nat (length l))) as [[Hlt ->] | [Hle ->]].
  - reflexivity.
  - rewrite Nat2Z.id. rewrite skipn_all.
    symmetry. apply skipn_all2. lia.
Qed.

Lemma slice_last_suffix (n : nat) (l : list A) :
  exists older, l = older ++ slice_last n l.
Proof.
  unfold slice_last. exists (firstn (length l - n) l).
  symmetry. apply firstn_skipn.
Qed.

End Slices.

(** The history getters return the newest [limit] records, oldest first,
    when [limit] is positive -- all of them when there are fewer --; with a
    [limit] of 0 they return the whole history, because [slice(-0)] is
    [slice(0)]; with a negative [limit] they drop the oldest [-limit]
    records instead.  Without a [limit] they return the newest ten. *)
Theorem history_getters_limits (a : PrivateAgent) (t : SystemTools) (limit : Z) :
  ((0 < limit)%Z ->
   getToolCallHistory a (Some limit) = slice_last (Z.to_nat limit) (toolCallHistory a)
   /\ getExecutionHistory t (Some limit) = slice_last (Z.to_nat limit) (executionHistory t)
   /\ length (getToolCallHistory a (Some limit))
      = Nat.min (Z.to_nat limit) (length (toolCallHistory a))
   /\ (exists older, toolCallHistory a = older ++ getToolCallHistory a (Some limit)))
  /\ getToolCallHistory a (Some 0%Z) = toolCallHistory a
  /\ getExecutionHistory t (Some 0%Z) = executionHistory t
  /\ ((limit < 0)%Z ->
      getToolCallHistory a (Some limit) = skipn (Z.to_nat (- limit)) (toolCallHistory a)
      /\ getExecutionHistory t (Some limit)
         = skipn (Z.to_nat (- limit)) (executionHistory t))
  /\ getToolCallHistory a None = slice_last 10 (toolCallHistory a)
  /\ getExecutionHistory t None = slice_last 10 (executionHistory t).
Proof.
  unfold getToolCallHistory, getExecutionHistory, limit_or_default.
  split; [| split; [| split; [| split; [| split]]]].
  - intros Hpos. rewrite !slice_from_last by exact Hpos.
    split; [reflexivity |]. split; [reflexivity |].
    split; [apply slice_last_length | apply slice_last_suffix].
  - apply slice_from_zero.
  - apply slice_from_zero.
  - intros Hneg. rewrite !slice_from_drop by exact Hneg. split; reflexivity.
  - apply (slice_from_last 10). lia.
  - apply (slice_from_last 10). lia.
Qed.

Lemma history_getters_limits_witness :
  map tc_function (getToolCallHistory agent_with_calls (Some 2%Z))
  = [lit "two"; lit "three"]
  /\ map tc_function (getToolCallHistory agent_with_calls (Some 0%Z))
     = [lit "one"; lit "two"; lit "three"]
  /\ map tc_function (getToolCallHistory agent_with_calls (Some (-1)%Z))
     = [lit "two"; lit "three"].
Proof.
  destruct (history_getters_limits agent_with_calls linux_tools 2)
    as (Hpos & Hzero & _).
  destruct (history_getters_limits agent_with_calls linux_tools (-1))
    as (_ & _ & _ & Hneg & _).
  destruct Hpos as (E2 & _); [lia |].
  destruct Hneg as (En & _); [lia |].
  rewrite E2, Hzero, En. repeat split.
Defined.

(** ** More on the conversation state *)

Section Resets.

Variable a : PrivateAgent.
Variables r c : jstring.

Let msg : Message := {| role := r; content := c |}.
Let h : list Message := pushed_history a r c.

Lemma totalChars_from (l : list Message) (z : Z) :
  fold_left (fun sum m => (sum + Z.of_nat (length (content m)))%Z) l z
  = (z + totalChars l)%Z.
Proof.
  unfold totalChars. revert z. induction l as [| m l IH]; intros z; cbn [fold_left].
  - lia.
  - rewrite IH, (IH (0 + _)%Z). lia.
Qed.

Lemma totalChars_app (l1 l2 : list Message) :
  totalChars (l1 ++ l2) = (totalChars l1 + totalChars l2)%Z.
Proof. unfold totalChars at 1. rewrite fold_left_app. apply totalChars_from. Qed.

Lemma totalChars_nonneg (l : list Message) : (0 <= totalChars l)%Z.
Proof.
  induction l as [| m l IH]; [reflexivity |].
  change (m :: l) with ([m] ++ l). rewrite totalChars_app.
  unfold totalChars at 1. cbn [fold_left]. lia.
Qed.

Lemma slice_last_app {B : Type} (n : nat) (p t : list B) :
  length t <= n -> slice_last n (p ++ t) = slice_last (n - length t) p ++ t.
Proof.
  intros Hle. unfold slice_last. rewrite length_app, skipn_app.
  replace (length p + length t - n) with (length p - (n - length t)) by lia.
  replace (length p - (n - length t) - length p) with 0 by lia.
  reflexivity.
Qed.

Lemma addMessage_reset_history :
  exceeds (set_conversationHistory a h) = true ->
  conversationHistory (addMessage a r c)
  = filter is_system h ++ [reset_notice] ++ slice_last 10 h.
Proof.
  intros E. rewrite addMessage_pushed. unfold checkAndResetContext.
  fold h. rewrite E. reflexivity.
Qed.

Lemma addMessage_plain_history :
  exceeds (set_conversationHistory a h) = false ->
  conversationHistory (addMessage a r c) = h.
Proof.
  intros E. rewrite addMessage_pushed. unfold checkAndResetContext.
  fold h. rewrite E. reflexivity.
Qed.

(** The size of the context after a reset is the size of its system
    messages, plus the 61 characters of the notice, plus the size of its
    last ten messages.  On a history of at most ten messages a reset
    therefore removes nothing: the context grows, stays above the budget,
    and the next [addMessage] resets again. *)
Theorem reset_does_not_shrink_short_history :
  (4 * maxContextTokens a < totalChars h)%Z ->
  totalChars (conversationHistory (addMessage a r c))
  = (totalChars (filter is_system h) + 61 + totalChars (slice_last 10 h))%Z
  /\ (length h <= 10 ->
      (totalChars h < totalChars (conversationHistory (addMessage a r c)))%Z
      /\ exceeds (addMessage a r c) = true
      /\ forall r' c',
           fst (checkAndResetContext
                  (set_conversationHistory (addMessage a r c)
                     (pushed_history (addMessage a r c) r' c'))) = true).
Proof.
  intros Hover.
  assert (E : exceeds (set_conversationHistory a h) = true)
    by (apply exceeds_spec; exact Hover).
  assert (Hsize : totalChars (conversationHistory (addMessage a r c))
                  = (totalChars (filter is_system h) + 61
                     + totalChars (slice_last 10 h))%Z).
  { rewrite (addMessage_reset_history E), !totalChars_app.
    change (totalChars [reset_notice]) with 61%Z. lia. }
  split; [exact Hsize |].
  intros Hshort. rewrite (slice_last_short 10 h Hshort) in Hsize.
  pose proof (totalChars_nonneg (filter is_system h)) as Hsys.
  assert (Hbudget : maxContextTokens (addMessage a r c) = maxContextTokens a).
  { unfold addMessage, checkAndResetContext. destruct (exceeds _); reflexivity. }
  split; [lia |]. split.
  - apply exceeds_spec. rewrite Hbudget. lia.
  - intros r' c'. unfold checkAndResetContext.
    assert (E' : exceeds (set_conversationHistory (addMessage a r c)
                            (pushed_history (addMessage a r c) r' c')) = true).
    { apply exceeds_spec. cbn [maxContextTokens set_conversationHistory
                                conversationHistory].
      rewrite Hbudget. unfold pushed_history. rewrite totalChars_app.
      pose proof (totalChars_nonneg [{| role := r'; content := c' |}]). lia. }
    rewrite E'. reflexivity.
Qed.

(** [addMessage] never loses a system-role message: each one the history
    held is in the history afterwards, and so is each reset notice, to
    which a reset adds one more. *)
Theorem system_messages_are_kept :
  (forall m, In m (conversationHistory a) -> is_system m = true ->
             In m (conversationHistory (addMessage a r c)))
  /\ length (filter is_notice (conversationHistory a))
     <= length (filter is_notice (conversationHistory (addMessage a r c)))
  /\ (exceeds (set_conversationHistory a h) = true ->
      length (filter is_notice (conversationHistory a))
      < length (filter is_notice (conversationHistory (addMessage a r c)))).
Proof.
  assert (Hcount : forall l : list Message,
             length (filter is_notice l) <= length (filter is_notice (filter is_system l))).
  { induction l as [| m l IH]; [apply Nat.le_refl |]. cbn [filter].
    destruct (is_notice m) eqn:En.
    - assert (Hs : is_system m = true).
      { unfold is_notice in En. apply andb_true_iff in En. exact (proj1 En). }
      rewrite Hs. cbn [filter]. rewrite En. cbn [length]. lia.
    - destruct (is_system m); cbn [filter]; rewrite ?En; exact IH. }
  assert (Hpush : length (filter is_notice (conversationHistory a))
                  <= length (filter is_notice h)).
  { unfold h, pushed_history. rewrite filter_app, length_app. lia. }
  destruct (exceeds (set_conversationHistory a h)) eqn:E.
  - rewrite (addMessage_reset_history E).
    split; [| split].
    + intros m Hin Hs. apply in_or_app. left. apply filter_In. split; [| exact Hs].
      unfold h, pushed_history. apply in_or_app. left. exact Hin.
    + rewrite !filter_app, !length_app. cbn [filter length].
      pose proof (Hcount h). change (is_notice reset_notice) with true. cbn [length]. lia.
    + intros _. rewrite !filter_app, !length_app.
      change (filter is_notice [reset_notice]) with [reset_notice].
      pose proof (Hcount h). cbn [length]. lia.
  - rewrite (addMessage_plain_history E).
    split; [| split].
    + intros m Hin _. unfold h, pushed_history. apply in_or_app. left. exact Hin.
    + exact Hpush.
    + discriminate.
Qed.

(** After a reset at most ten messages of the history are not system
    messages, and the history holds at most eleven messages more than it
    held system messages. *)
Theorem reset_bounds_the_history :
  (4 * maxContextTokens a < totalChars h)%Z ->
  length (filter (fun m => negb (is_system m))
            (conversationHistory (addMessage a r c))) <= 10
  /\ length (conversationHistory (addMessage a r c))
     <= length (filter is_system h) + 11.
Proof.
  intros Hover.
  assert (E : exceeds (set_conversationHistory a h) = true)
    by (apply exceeds_spec; exact Hover).
  rewrite (addMessage_reset_history E).
  pose proof (slice_last_length 10 h) as Hlast.
  split.
  - rewrite !filter_app, !length_app.
    assert (Hnone : forall l : list Message,
               filter (fun m => negb (is_system m)) (filter is_system l) = []).
    { induction l as [| m l IH]; [reflexivity |]. cbn [filter].
      destruct (is_system m) eqn:Es; [| exact IH].
      cbn [filter]. rewrite Es. exact IH. }
    rewrite Hnone. change (filter _ [reset_notice]) with (@nil Message).
    cbn [length].
    pose proof (filter_length_le (fun m => negb (is_system m)) (slice_last 10 h)).
    lia.
  - rewrite !length_app. cbn [length]. lia.
Qed.

Lemma addMessage_suffix (earlier recent : list Message) :
  conversationHistory a = earlier ++ recent ->
  length recent <= 9 ->
  exists earlier',
    conversationHistory (addMessage a r c) = earlier' ++ recent ++ [msg].
Proof.
  intros Hh Hlen.
  assert (Hpushed : h = earlier ++ (recent ++ [msg])).
  { unfold h, pushed_history. rewrite Hh, <- app_assoc. reflexivity. }
  destruct (exceeds (set_conversationHistory a h)) eqn:E.
  - rewrite (addMessage_reset_history E).
    replace (slice_last 10 h) with (slice_last 10 (earlier ++ (recent ++ [msg])))
      by (rewrite <- Hpushed; reflexivity).
    rewrite slice_last_app.
    + exists (filter is_system h ++ [reset_notice]
              ++ slice_last (10 - length (recent ++ [msg])) earlier).
      rewrite <- !app_assoc. reflexivity.
    + rewrite length_app. cbn [length]. lia.
  - rewrite (addMessage_plain_history E). exists earlier. exact Hpushed.
Qed.

(** The newest messages survive [addMessage], reset or not: when the
    history ends with up to nine messages, it ends afterwards with the same
    messages followed by the new one. *)
Theorem recent_messages_are_kept (earlier recent : list Message) :
  conversationHistory a = earlier ++ recent ->
  length recent <= 9 ->
  exists earlier',
    conversationHistory (addMessage a r c) = earlier' ++ recent ++ [msg].
Proof.
  exact (addMessage_suffix earlier recent).
Qed.

End Resets.

Lemma reset_does_not_shrink_short_history_witness :
  (totalChars (pushed_history (demo_agent 1) user_role hello)
   < totalChars (conversationHistory (addMessage (demo_agent 1) user_role hello)))%Z.
Proof.
  destruct (reset_does_not_shrink_short_history (demo_agent 1) user_role hello)
    as (_ & Hshort).
  - vm_compute. reflexivity.
  - destruct Hshort as (Hgrow & _); [vm_compute; lia | exact Hgrow].
Defined.

Lemma system_messages_are_kept_witness :
  length (filter is_notice (conversationHistory (demo_agent 1)))
  < length (filter is_notice
              (conversationHistory (addMessage (demo_agent 1) user_role hello))).
Proof.
  destruct (system_messages_are_kept (demo_agent 1) user_role hello)
    as (_ & _ & Hmore).
  apply Hmore. vm_compute. reflexivity.
Defined.

Lemma reset_bounds_the_history_witness :
  length (conversationHistory (addMessage (demo_agent 1) user_role hello)) <= 11.
Proof.
  destruct (reset_bounds_the_history (demo_agent 1) user_role hello) as (_ & Hlen).
  - vm_compute. reflexivity.
  - exact Hlen.
Defined.

Lemma recent_messages_are_kept_witness :
  exists earlier',
    conversationHistory
      (addMessage (addMessage (demo_agent 1) user_role hello) assistant_role hello)
    = earlier' ++ [{| role := user_role; content := hello |}]
      ++ [{| role := assistant_role; content := hello |}].
Proof.
  apply (recent_messages_are_kept (addMessage (demo_agent 1) user_role hello)
           assistant_role hello [reset_notice]
           [{| role := user_role; content := hello |}]).
  - vm_compute. reflexivity.
  - cbn. lia.
Defined.

(** ** The consumption of a streamed response *)

Section Streams.

Lemma consume_chunks (events : list stream_event) (full : jstring)
  (chunks : list chunk) :
  exists ds : list jstring,
    snd (consume events full chunks) = chunks ++ map Delta ds
    /\ (forall full' parsed,
          fst (consume events full chunks) = Done full' parsed ->
          full' = full ++ concat ds).
Proof.
  revert full chunks. induction events as [| ev events IH]; intros full chunks.
  - exists []. cbn. rewrite app_nil_r. split; [reflexivity | discriminate].
  - destruct ev as [[| parsed] | msg]; cbn [consume].
    + apply IH.
    + destruct (f_content parsed) as [t |] eqn:Et.
      * destruct (truthy_str t) eqn:Ht.
        -- destruct (f_done parsed).
           ++ exists [t]. cbn [fst snd map concat]. rewrite app_nil_r.
              split; [reflexivity |]. intros full' p E. injection E as <- _. reflexivity.
           ++ destruct (IH (full ++ t) (chunks ++ [Delta t])) as (ds & Hs & Hf).
              exists (t :: ds). rewrite Hs. cbn [map concat].
              rewrite <- app_assoc. split; [reflexivity |].
              intros full' p E. rewrite (Hf _ _ E), <- app_assoc. reflexivity.
        -- destruct (f_done parsed).
           ++ exists []. cbn [fst snd map concat]. rewrite !app_nil_r.
              split; [reflexivity |]. intros full' p E. injection E as <- _. reflexivity.
           ++ apply IH.
      * destruct (f_done parsed).
        -- exists []. cbn [fst snd map concat]. rewrite !app_nil_r.
           split; [reflexivity |]. intros full' p E. injection E as <- _. reflexivity.
        -- apply IH.
    + exists []. cbn. rewrite app_nil_r. split; [reflexivity | discriminate].
Qed.

Lemma delta_texts_map (ds : list jstring) : delta_texts (map Delta ds) = ds.
Proof.
  unfold delta_texts. induction ds as [| d ds IH]; [reflexivity |].
  cbn [map flat_map app]. rewrite IH. reflexivity.
Qed.

(** The text a response completes with is the concatenation, in order, of
    the content deltas that were forwarded to the caller while it
    streamed: nothing is forwarded that is not part of the message, and
    nothing is part of the message that was not forwarded. *)
Theorem message_is_what_was_forwarded (events : list stream_event)
  (full : jstring) (parsed : fragment) (chunks : list chunk) :
  consume events [] [] = (Done full parsed, chunks) ->
  full = concat (delta_texts chunks)
  /\ chunks = map Delta (delta_texts chunks).
Proof.
  intros E. destruct (consume_chunks events [] []) as (ds & Hs & Hf).
  rewrite E in Hs, Hf. cbn [fst snd app] in Hs, Hf.
  rewrite Hs, delta_texts_map. split; [apply (Hf _ _ eq_refl) | reflexivity].
Qed.

(** Lines that do not parse are skipped: a response gives the same text,
    the same chunks and the same end with or without them. *)
Theorem garbage_lines_are_skipped (events : list stream_event)
  (full : jstring) (chunks : list chunk) :
  consume (filter (fun ev => negb (is_garbage ev)) events) full chunks
  = consume events full chunks.
Proof.
  revert full chunks. induction events as [| ev events IH]; intros full chunks.
  - reflexivity.
  - destruct ev as [[| parsed] | msg]; cbn [filter is_garbage negb consume].
    + apply IH.
    + destruct (f_content parsed) as [t |]; [destruct (truthy_str t) |];
        destruct (f_done parsed); try reflexivity; apply IH.
    + reflexivity.
Qed.

(** Until an event ends it, the consumption forwards every content delta. *)
Lemma consume_open_prefix (before after : list stream_event) (full : jstring)
  (chunks : list chunk) :
  forallb (fun ev => negb (ends_stream ev)) before = true ->
  consume (before ++ after) full chunks
  = consume after (full ++ concat (event_deltas before))
      (chunks ++ map Delta (event_deltas before)).
Proof.
  revert full chunks. induction before as [| ev before IH]; intros full chunks Hopen.
  - cbn. rewrite !app_nil_r. reflexivity.
  - cbn [forallb] in Hopen. apply andb_true_iff in Hopen.
    destruct Hopen as [Hev Hopen].
    destruct ev as [[| parsed] | msg]; cbn [ends_stream negb] in Hev;
      try discriminate; cbn [app consume].
    + rewrite (IH _ _ Hopen). reflexivity.
    + apply negb_true_iff in Hev. rewrite Hev.
      unfold event_deltas. cbn [flat_map]. fold (event_deltas before).
      destruct (f_content parsed) as [t |]; [destruct (truthy_str t) |];
        rewrite (IH _ _ Hopen); cbn [app map concat];
        rewrite <- ?app_assoc; reflexivity.
Qed.

(** A response ends at its [done] fragment when it is that fragment after
    events none of which ends the consumption. *)
Lemma done_is_last_spec (events : list stream_event) :
  done_is_last events = true <->
  exists before f,
    events = before ++ [Line (Fragment f)] /\ f_done f = true
    /\ forallb (fun ev => negb (ends_stream ev)) before = true.
Proof.
  split.
  - induction events as [| ev rest IH]; [discriminate |].
    destruct rest as [| ev' rest].
    + destruct ev as [[| f] | msg]; try discriminate.
      intros Hd. exists [], f. repeat split. exact Hd.
    + intros H. change (negb (ends_stream ev) && done_is_last (ev' :: rest) = true) in H.
      apply andb_true_iff in H. destruct H as [Hev Hrest].
      destruct (IH Hrest) as (before & f & E & Hd & Hopen).
      exists (ev :: before), f. rewrite E. repeat split; [exact Hd |].
      cbn [forallb]. rewrite Hev, Hopen. reflexivity.
  - intros (before & f & -> & Hd & Hopen).
    induction before as [| ev before IH]; [exact Hd |].
    cbn [forallb] in Hopen. apply andb_true_iff in Hopen.
    destruct Hopen as [Hev Hopen]. specialize (IH Hopen).
    cbn [app]. destruct (before ++ [Line (Fragment f)]) as [| ev' rest] eqn:E.
    + destruct before; discriminate.
    + change (negb (ends_stream ev) && done_is_last (ev' :: rest) = true).
      rewrite Hev, IH. reflexivity.
Qed.

(** The consumption of a response that ends at its [done] fragment
    completes at that fragment, which is its last event, with all the
    content deltas of the response. *)
Lemma done_is_last_consume (events : list stream_event) :
  done_is_last events = true ->
  exists before parsed,
    events = before ++ [Line (Fragment parsed)]
    /\ consume events [] []
       = (Done (concat (event_deltas events)) parsed, map Delta (event_deltas events)).
Proof.
  intros H. apply done_is_last_spec in H.
  destruct H as (before & f & -> & Hd & Hopen).
  exists before, f. split; [reflexivity |].
  rewrite (consume_open_prefix before [Line (Fragment f)] [] [] Hopen).
  unfold event_deltas at 3 4. rewrite flat_map_app. fold (event_deltas before).
  cbn [app consume flat_map]. rewrite Hd, !app_nil_r.
  destruct (f_content f) as [t |]; [destruct (truthy_str t) |];
    rewrite ?map_app, ?concat_app; cbn [map concat app];
    rewrite ?app_nil_r; reflexivity.
Qed.

End Streams.

Lemma message_is_what_was_forwarded_witness :
  lit "Let me look. " ++ listing_call
  = concat (delta_texts [Delta (lit "Let me look. "); Delta listing_call]).
Proof.
  apply (message_is_what_was_forwarded
           [delta (lit "Let me look. "); Line Garbage; delta listing_call;
            Line (Fragment (done_with 10 5))]
           (lit "Let me look. " ++ listing_call) (done_with 10 5)
           [Delta (lit "Let me look. "); Delta listing_call]).
  vm_compute. reflexivity.
Defined.

(** ** Running the tool calls of a turn *)

Section ToolRuns.

Variable env : Env.

(** What [addMessage] leaves alone. *)
Lemma addMessage_frame (a : PrivateAgent) (r c : jstring) :
  toolCallHistory (addMessage a r c) = toolCallHistory a
  /\ systemTools (addMessage a r c) = systemTools a
  /\ maxContextTokens (addMessage a r c) = maxContextTokens a
  /\ model (addMessage a r c) = model a
  /\ systemPrompt (addMessage a r c) = systemPrompt a.
Proof.
  unfold addMessage, checkAndResetContext. destruct (exceeds _); repeat split.
Qed.

(** What [executeTool] leaves alone. *)
Lemma executeTool_frame (a : PrivateAgent) (functionName : jstring) (args : json) :
  conversationHistory (snd (executeTool env a functionName args))
  = conversationHistory a
  /\ enableTools (snd (executeTool env a functionName args)) = enableTools a
  /\ maxContextTokens (snd (executeTool env a functionName args))
     = maxContextTokens a
  /\ exists rec,
       toolCallHistory (snd (executeTool env a functionName args))
       = toolCallHistory a ++ [rec]
       /\ tc_function rec = functionName.
Proof.
  rewrite executeTool_record. cbn [snd].
  repeat split. eexists. split; [reflexivity |].
  destruct (fst (dispatch env a functionName args)); reflexivity.
Qed.

(** One iteration of the loop: one entry, one record, three chunks. *)
Lemma run_tool_call_step (results : list ToolResultEntry) (a : PrivateAgent)
  (chunks : list chunk) (call : ToolCall) :
  exists (entry : ToolResultEntry) (rec : ToolCallRecord) (c1 c2 c3 : chunk)
         (a' : PrivateAgent),
    run_tool_call env (results, a, chunks) call
    = (results ++ [entry], a', chunks ++ [c1; c2; c3])
    /\ tr_tool entry = name call
    /\ (tr_result entry = None <-> tr_error entry <> None)
    /\ toolCallHistory a' = toolCallHistory a ++ [rec]
    /\ tc_function rec = name call
    /\ conversationHistory a' = conversationHistory a
    /\ enableTools a' = enableTools a
    /\ maxContextTokens a' = maxContextTokens a.
Proof.
  unfold run_tool_call.
  destruct (executeTool_frame a (name call) (decode_arguments env (arguments call)))
    as (Hc & He & Hm & rec & Hh & Hf).
  destruct (executeTool env a (name call) (decode_arguments env (arguments call)))
    as [[result | msg] a'] eqn:E; cbn [snd] in *.
  - destruct (resultText env result) as [text | msg].
    + do 6 eexists. rewrite <- app_assoc. split; [reflexivity |].
      cbn [tr_tool tr_result tr_error].
      repeat split; try eassumption; try discriminate; congruence.
    + do 6 eexists. rewrite <- app_assoc. split; [reflexivity |].
      cbn [tr_tool tr_result tr_error].
      repeat split; try eassumption; try discriminate; congruence.
  - do 6 eexists. rewrite <- app_assoc. split; [reflexivity |].
    cbn [tr_tool tr_result tr_error].
    repeat split; try eassumption; try discriminate; congruence.
Qed.

Lemma run_tool_calls_fold (calls : list ToolCall) (results : list ToolResultEntry)
  (a : PrivateAgent) (chunks : list chunk) :
  exists (entries : list ToolResultEntry) (records : list ToolCallRecord)
         (shown : list chunk) (a' : PrivateAgent),
    fold_left (run_tool_call env) calls (results, a, chunks)
    = (results ++ entries, a', chunks ++ shown)
    /\ map tr_tool entries = map name calls
    /\ Forall (fun e => tr_result e = None <-> tr_error e <> None) entries
    /\ toolCallHistory a' = toolCallHistory a ++ records
    /\ map tc_function records = map name calls
    /\ length shown = 3 * length calls
    /\ conversationHistory a' = conversationHistory a
    /\ enableTools a' = enableTools a
    /\ maxContextTokens a' = maxContextTokens a.
Proof.
  revert results a chunks. induction calls as [| call calls IH]; intros results a chunks.
  - exists [], [], [], a. cbn. rewrite !app_nil_r. repeat split. constructor.
  - cbn [fold_left].
    destruct (run_tool_call_step results a chunks call)
      as (entry & rec & c1 & c2 & c3 & a1 & -> & Ht & Hone & Hh & Hf & Hc & He & Hm).
    destruct (IH (results ++ [entry]) a1 (chunks ++ [c1; c2; c3]))
      as (entries & records & shown & a' & -> & Hts & Hones & Hhs & Hfs & Hlen
          & Hcs & Hes & Hms).
    exists (entry :: entries), (rec :: records), ([c1; c2; c3] ++ shown), a'.
    rewrite <- !app_assoc. split; [reflexivity |].
    cbn [map]. rewrite Ht, Hts, Hf, Hfs, Hhs, Hh, <- app_assoc, Hcs, Hc, Hes, He, Hms, Hm.
    repeat split.
    + constructor; assumption.
    + rewrite length_app. cbn [length]. lia.
Qed.

Lemma run_tool_calls_all (a : PrivateAgent) (calls : list ToolCall) :
  exists (results : list ToolResultEntry) (records : list ToolCallRecord)
         (shown : list chunk) (a' : PrivateAgent),
    executeToolCallsAndContinue env a calls = (results, a', ToolsBanner :: shown)
    /\ map tr_tool results = map name calls
    /\ Forall (fun e => tr_result e = None <-> tr_error e <> None) results
    /\ toolCallHistory a' = toolCallHistory a ++ records
    /\ map tc_function records = map name calls
    /\ length shown = 3 * length calls
    /\ conversationHistory a' = conversationHistory a.
Proof.
  unfold executeToolCallsAndContinue.
  destruct (run_tool_calls_fold calls [] a [ToolsBanner])
    as (entries & records & shown & a' & E & Ht & Hone & Hh & Hf & Hlen & Hc & _).
  exists entries, records, shown, a'. rewrite E. repeat split; assumption.
Qed.

(** The tool calls of a turn run one after the other in the order of
    extraction: the results list gets one entry a call, under the name of
    the call and holding either a result or an error; the tool call history
    gets one record a call, in the same order; three chunks are shown for
    each call after the banner; the conversation is not touched. *)
Theorem tool_calls_run_in_order (a : PrivateAgent) (calls : list ToolCall) :
  exists (results : list ToolResultEntry) (records : list ToolCallRecord)
         (shown : list chunk) (a' : PrivateAgent),
    executeToolCallsAndContinue env a calls = (results, a', ToolsBanner :: shown)
    /\ map tr_tool results = map name calls
    /\ Forall (fun e => tr_result e = None <-> tr_error e <> None) results
    /\ toolCallHistory a' = toolCallHistory a ++ records
    /\ map tc_function records = map name calls
    /\ length shown = 3 * length calls
    /\ conversationHistory a' = conversationHistory a.
Proof.
  exact (run_tool_calls_all a calls).
Qed.

End ToolRuns.

(** ** More on the streamed turn *)

Section TurnEnds.

Variable env : Env.
Variable a : PrivateAgent.
Variable userMessage : jstring.
Variable options : chat_options.

(** When the connection breaks in the middle of the first response, the
    turn fails with the stream error; the deltas received until then have
    been forwarded to the caller, but the partial answer is not added to
    the conversation, which ends with the message of the user; no tool is
    run and no follow-up request read. *)
Theorem broken_stream_loses_the_partial_answer
  (before after : list stream_event) (err : jstring) (followUp : response) :
  forallb (fun ev => negb (ends_stream ev)) before = true ->
  streamChat env a userMessage options
    (Streaming (before ++ StreamError err :: after)) followUp
  = (Rejected (lit "Stream error: " ++ err),
     addMessage a user_role userMessage,
     map Delta (event_deltas before))
  /\ (exists earlier,
        conversationHistory (addMessage a user_role userMessage)
        = earlier ++ [{| role := user_role; content := userMessage |}])
  /\ toolCallHistory (addMessage a user_role userMessage) = toolCallHistory a.
Proof.
  intros Hopen. split; [| split].
  - unfold streamChat. rewrite (consume_open_prefix _ _ _ _ Hopen). reflexivity.
  - destruct (addMessage_suffix a user_role userMessage
                (conversationHistory a) []) as (earlier & E).
    + rewrite app_nil_r. reflexivity.
    + cbn. lia.
    + exists earlier. exact E.
  - apply addMessage_frame.
Qed.

(** With the tools disabled, or with [executeTools: false] in the options,
    no tool runs whatever the model answers: the executor and the tool call
    history stay as they were, a turn that resolves reports no tool calls,
    and the answer goes to the conversation as it is, markers included. *)
Theorem no_tool_runs_when_tools_are_off (first followUp : response) :
  enableTools a = false \/ tools_wanted options = false ->
  let '(p, a', _) := streamChat env a userMessage options first followUp in
  toolCallHistory a' = toolCallHistory a
  /\ systemTools a' = systemTools a
  /\ forall r, p = Resolved r ->
       toolCalls r = []
       /\ a' = addMessage (addMessage a user_role userMessage)
                 assistant_role (message r).
Proof.
  intros Hoff.
  assert (Hcond : forall n : bool,
             n && enableTools (addMessage a user_role userMessage)
             && tools_wanted options = false).
  { intros n. rewrite addMessage_enableTools.
    destruct Hoff as [-> | ->]; destruct n; cbn; try reflexivity;
      destruct (enableTools a); reflexivity. }
  pose proof (addMessage_frame a user_role userMessage) as (Hh & Ht & _).
  unfold streamChat. destruct first as [msg | events].
  - split; [exact Hh |]. split; [exact Ht | discriminate].
  - destruct (consume events [] []) as [[full parsed | msg |] chunks].
    + rewrite Hcond.
      pose proof (addMessage_frame (addMessage a user_role userMessage)
                    assistant_role full) as (Hh2 & Ht2 & _).
      split; [congruence |]. split; [congruence |].
      intros r E. injection E as <-. split; reflexivity.
    + split; [exact Hh |]. split; [exact Ht | discriminate].
    + split; [exact Hh |]. split; [exact Ht | discriminate].
Qed.

(** A turn with tool calls whose two responses each end at their [done]
    fragment leaves the conversation ending with four messages: the message
    of the user, the first answer of the model with its markers, the tool
    results as a user message, and the follow-up answer.  The value the
    turn resolves with carries the first answer, not the follow-up answer.
    Every call has its record. *)
Theorem tool_turn_leaves_four_messages
  (events1 events2 : list stream_event)
  (full1 full2 : jstring) (parsed1 parsed2 : fragment) (chunks1 chunks2 : list chunk) :
  done_is_last events1 = true ->
  done_is_last events2 = true ->
  consume events1 [] [] = (Done full1 parsed1, chunks1) ->
  consume events2 [] [] = (Done full2 parsed2, chunks2) ->
  extractToolCalls env full1 <> [] ->
  enableTools a = true ->
  tools_wanted options = true ->
  exists (r : TurnResult) (a' : PrivateAgent) (shown : list chunk)
         (results : list ToolResultEntry) (records : list ToolCallRecord)
         (earlier : list Message),
    streamChat env a userMessage options (Streaming events1) (Streaming events2)
    = (Resolved r, a', shown)
    /\ message r = full1
    /\ conversationHistory a'
       = earlier
         ++ [{| role := user_role; content := userMessage |};
             {| role := assistant_role; content := full1 |};
             {| role := user_role; content := buildToolResultPrompt results |};
             {| role := assistant_role; content := full2 |}]
    /\ map tr_tool results = map name (extractToolCalls env full1)
    /\ toolCallHistory a' = toolCallHistory a ++ records
    /\ map tc_function records = map name (extractToolCalls env full1).
Proof.
  intros _ _ H1 H2 Hcalls Hen Hwant.
  unfold streamChat. rewrite H1.
  rewrite (nonempty_length _ Hcalls), addMessage_enableTools, Hen, Hwant.
  cbn [andb].
  set (a1 := addMessage a user_role userMessage).
  destruct (run_tool_calls_all env a1 (extractToolCalls env full1))
    as (results & records & shown2 & a2 & E & Ht & _ & Hh & Hf & _ & Hc).
  rewrite E. unfold continueAfterTools. rewrite H2.
  set (prompt := buildToolResultPrompt results).
  set (a3 := addMessage a2 assistant_role full1).
  set (a4 := addMessage a3 user_role prompt).
  destruct (addMessage_suffix a user_role userMessage
              (conversationHistory a) []) as (e1 & E1);
    [rewrite app_nil_r; reflexivity | cbn; lia |].
  fold a1 in E1. rewrite <- Hc in E1. cbn [app] in E1.
  destruct (addMessage_suffix a2 assistant_role full1 e1 _ E1)
    as (e3 & E3); [cbn; lia |].
  fold a3 in E3.
  destruct (addMessage_suffix a3 user_role prompt e3 _ E3)
    as (e4 & E4); [cbn; lia |].
  fold a4 in E4.
  destruct (addMessage_suffix a4 assistant_role full2 e4 _ E4)
    as (e5 & E5); [cbn; lia |].
  do 3 eexists. exists results, records, e5.
  split; [reflexivity |]. split; [reflexivity |].
  split; [rewrite E5, <- !app_assoc; reflexivity |].
  split; [exact Ht |].
  pose proof (addMessage_frame a4 assistant_role full2) as (F4 & _).
  pose proof (addMessage_frame a3 user_role prompt) as (F3 & _).
  pose proof (addMessage_frame a2 assistant_role full1) as (F2 & _).
  pose proof (addMessage_frame a user_role userMessage) as (F1 & _).
  fold a1 in F1. fold a3 in F2. fold a4 in F3.
  split; [| exact Hf].
  rewrite F4, F3, F2, Hh, F1. reflexivity.
Qed.

End TurnEnds.

Lemma broken_stream_loses_the_partial_answer_witness :
  streamChat demo_env (demo_agent 4096) (lit "tell me a story") default_chat
    broken_response follow_up_response
  = (Rejected (lit "Stream error: socket hang up"),
     addMessage (demo_agent 4096) user_role (lit "tell me a story"),
     [Delta (lit "Once "); Delta (lit "upon")]).
Proof.
  apply (broken_stream_loses_the_partial_answer demo_env (demo_agent 4096)
           (lit "tell me a story") default_chat
           [delta (lit "Once "); Line Garbage; delta (lit "upon")]
           [delta (lit " a time")] (lit "socket hang up") follow_up_response).
  reflexivity.
Defined.

Lemma no_tool_runs_when_tools_are_off_witness :
  let '(p, a', _) :=
    streamChat demo_env (demo_agent 4096) (lit "list files in .") no_tools
      first_response follow_up_response in
  toolCallHistory a' = [] /\ executionHistory (systemTools a') = [].
Proof.
  pose proof (no_tool_runs_when_tools_are_off demo_env (demo_agent 4096)
                (lit "list files in .") no_tools first_response follow_up_response
                (or_intror eq_refl)) as H.
  destruct (streamChat demo_env (demo_agent 4096) (lit "list files in .") no_tools
              first_response follow_up_response) as [[p a'] shown].
  destruct H as (Hh & Ht & _). rewrite Hh, Ht. split; reflexivity.
Defined.

Lemma tool_turn_leaves_four_messages_witness :
  exists (r : TurnResult) (a' : PrivateAgent) (shown : list chunk),
    streamChat demo_env (demo_agent 4096) (lit "list files in .") default_chat
      first_response follow_up_response = (Resolved r, a', shown)
    /\ map role (conversationHistory a')
       = [user_role; assistant_role; user_role; assistant_role]
    /\ map tc_function (toolCallHistory a') = [lit "list_directory"].
Proof.
  destruct (tool_turn_leaves_four_messages demo_env (demo_agent 4096)
              (lit "list files in .") default_chat
              [delta (lit "Let me look. "); Line Garbage; delta listing_call;
               Line (Fragment (done_with 10 5))]
              [delta (lit "There is one file, README.md.");
               Line (Fragment (done_with 100 50))]
              (lit "Let me look. " ++ listing_call)
              (lit "There is one file, README.md.")
              (done_with 10 5) (done_with 100 50)
              [Delta (lit "Let me look. "); Delta listing_call]
              [Delta (lit "There is one file, README.md.")])
    as (r & a' & shown & results & records & earlier & Hrun & _).
  - reflexivity.
  - reflexivity.
  - vm_compute. reflexivity.
  - vm_compute. reflexivity.
  - vm_compute. discriminate.
  - reflexivity.
  - reflexivity.
  - exists r, a', shown. split; [exact Hrun |].
    change (Streaming [delta (lit "Let me look. "); Line Garbage; delta listing_call;
                       Line (Fragment (done_with 10 5))]) with first_response in Hrun.
    change (Streaming [delta (lit "There is one file, README.md.");
                       Line (Fragment (done_with 100 50))])
      with follow_up_response in Hrun.
    assert (Ha : a' = snd (fst (streamChat demo_env (demo_agent 4096)
                                  (lit "list files in .") default_chat
                                  first_response follow_up_response)))
      by (rewrite Hrun; reflexivity).
    rewrite Ha. vm_compute. split; reflexivity.
Defined.

(** ** More on the command executor *)

Section ExecutorMore.

Variable env : Env.
Variable t : SystemTools.
Variable command : jstring.
Variable options : exec_options.

Let timeout : Z :=
  match opt_timeout options with Some ms => ms | None => default_timeout end.
Let dir : json :=
  match opt_cwd options with Some d => d | None => JStr (process_cwd env) end.
Let n : nat := length (executionHistory t).

Lemma or_code_not_zero (c : option exit_code) :
  or_code c (ExitNum 1) <> ExitNum 0 /\ or_code c (ExitNum 1) <> ExitNull.
Proof.
  destruct c as [[z | s |] |]; cbn [or_code]; try (split; discriminate).
  - destruct (Z.eqb_spec z 0); split; try discriminate. congruence.
  - destruct (truthy_str s); split; discriminate.
Qed.

(** In buffered mode the exit code of a record is 0 exactly when [exec]
    resolved, and the record carries an [error] exactly when [exec]
    rejected; the exit code is never [null]. *)
Theorem exit_code_zero_means_success (rec : execution) (t' : SystemTools)
  (os : list os_event) :
  executeCommand env t command options = (Returned rec, t', os) ->
  (exitCode rec = ExitNum 0 <->
   exists out err, execAsync env command timeout dir n = ExecResolved out err)
  /\ (error rec = None <->
      exists out err, execAsync env command timeout dir n = ExecResolved out err)
  /\ exitCode rec <> ExitNull.
Proof.
  unfold executeCommand. fold timeout. fold dir. fold n.
  destruct (isDangerousCommand command); [discriminate |].
  intros E. injection E as <- _ _.
  destruct (execAsync env command timeout dir n) as [out err | e].
  - cbn [exitCode error]. repeat split; try discriminate; eauto.
  - cbn [exitCode error]. destruct (or_code_not_zero (err_code e)) as [H0 Hn].
    repeat split; try (intros H; congruence); try exact Hn;
      intros (out & err & H); discriminate.
Qed.

Lemma stream_fold_onData (events : list child_event) (s : stream_call) :
  sc_onData (fold_left (stream_handler env command dir) events s)
  = sc_onData s ++ data_events events.
Proof.
  revert s. induction events as [| ev events IH]; intros s; cbn [fold_left].
  - cbn. rewrite app_nil_r. reflexivity.
  - rewrite IH. unfold data_events. cbn [flat_map].
    destruct ev; cbn [stream_handler sc_onData app];
      rewrite <- ?app_assoc; reflexivity.
Qed.

Lemma stream_fold_output (events : list child_event) (s : stream_call) :
  sc_stdout (fold_left (stream_handler env command dir) events s)
  = sc_stdout s ++ concat (stream_texts StdoutStream events)
  /\ sc_stderr (fold_left (stream_handler env command dir) events s)
     = sc_stderr s ++ concat (stream_texts StderrStream events).
Proof.
  revert s. induction events as [| ev events IH]; intros s; cbn [fold_left].
  - cbn. rewrite !app_nil_r. split; reflexivity.
  - destruct (IH (stream_handler env command dir s ev)) as [-> ->].
    unfold stream_texts. cbn [flat_map].
    destruct ev; cbn [stream_handler sc_stdout sc_stderr app concat];
      rewrite <- ?app_assoc; split; reflexivity.
Qed.

Lemma stream_fold_kill (events : list child_event) (s : stream_call) :
  In OnTimeout events ->
  In Killed (sc_os (fold_left (stream_handler env command dir) events s)).
Proof.
  revert s. induction events as [| ev events IH]; intros s Hin; [destruct Hin |].
  cbn [fold_left]. destruct Hin as [-> | Hin].
  - apply (stream_fold_os env command options). cbn [stream_handler sc_os].
    apply in_or_app. right. left. reflexivity.
  - apply IH. exact Hin.
Qed.

(** In streamed mode, when the child closes before the timer fires, the
    call resolves with a record whose output is all the output that
    arrived before the close, in order, and whose exit code is the code of
    the close; the record is the one appended to the history.  Every piece
    of output is forwarded to [onData], before and after.  The timer is not
    cancelled: when it fires later, the child is still sent a kill, and the
    call stays resolved. *)
Theorem stream_resolves_at_close (before after : list child_event)
  (code : exit_code) :
  isDangerousCommand command = false ->
  forallb (fun ev => negb (settles ev)) before = true ->
  let s := executeCommandStream env t command options
             (before ++ OnClose code :: after) in
  exists rec : execution,
    sc_promise s = Resolved rec
    /\ stdout rec = concat (stream_texts StdoutStream before)
    /\ stderr rec = concat (stream_texts StderrStream before)
    /\ exitCode rec = code
    /\ nth_error (executionHistory (sc_tools s)) (length (executionHistory t))
       = Some rec
    /\ sc_onData s = data_events (before ++ OnClose code :: after)
    /\ (In OnTimeout after -> In Killed (sc_os s)).
Proof.
  intros Hd Hbefore s. subst s. unfold executeCommandStream. rewrite Hd. fold dir.
  rewrite fold_left_app. cbn [fold_left].
  set (s0 := {| sc_stdout := []; sc_stderr := []; sc_promise := Pending;
                sc_tools := t; sc_onData := [];
                sc_os := [Spawned command; TimerArmed stream_timeout] |}).
  set (s1 := fold_left (stream_handler env command dir) before s0).
  assert (Hp : sc_promise s1 = Pending)
    by (apply (stream_fold_pending env command options);
        [exact Hbefore | reflexivity]).
  destruct (stream_fold_output before s0) as [Hout Herr].
  fold s1 in Hout, Herr. cbn [sc_stdout sc_stderr s0 app] in Hout, Herr.
  assert (Ht : executionHistory (sc_tools s1) = executionHistory t).
  { destruct (stream_fold_history env command options before s0) as (new & E & L).
    fold dir in E. fold s1 in E. cbn [s0 sc_tools] in E.
    assert (Hnone : length (filter is_close before) = 0).
    { clear - Hbefore. induction before as [| ev l IH]; [reflexivity |].
      cbn [forallb] in Hbefore. apply andb_true_iff in Hbefore.
      destruct Hbefore as [Hev Hl].
      destruct ev; cbn [settles negb] in Hev; try discriminate;
        cbn [filter is_close]; apply IH; exact Hl. }
    rewrite Hnone in L. destruct new; [| discriminate].
    rewrite app_nil_r in E. exact E. }
  set (s2 := stream_handler env command dir s1 (OnClose code)).
  assert (Hp2 : exists rec,
             sc_promise s2 = Resolved rec
             /\ stdout rec = sc_stdout s1 /\ stderr rec = sc_stderr s1
             /\ exitCode rec = code
             /\ executionHistory (sc_tools s2)
                = executionHistory (sc_tools s1) ++ [rec]).
  { subst s2. cbn [stream_handler sc_promise sc_tools executionHistory
                    set_executionHistory].
    rewrite Hp. eexists. repeat split. }
  destruct Hp2 as (rec & Hp2 & Hro & Hre & Hrc & Hrh).
  exists rec. split; [| split; [| split; [| split; [| split; [| split]]]]].
  - pose proof (stream_fold_settled env command options after s2) as Hs.
    fold dir in Hs. rewrite Hs; [exact Hp2 | rewrite Hp2; discriminate].
  - rewrite Hro. exact Hout.
  - rewrite Hre. exact Herr.
  - exact Hrc.
  - destruct (stream_fold_history env command options after s2) as (new & E & _).
    fold dir in E. rewrite E, Hrh, Ht, <- app_assoc.
    rewrite nth_error_app2 by lia. rewrite Nat.sub_diag. reflexivity.
  - rewrite stream_fold_onData. subst s2. cbn [stream_handler sc_onData].
    unfold s1. rewrite stream_fold_onData. cbn [s0 sc_onData app].
    unfold data_events. rewrite flat_map_app. cbn [flat_map app]. reflexivity.
  - apply stream_fold_kill.
Qed.

End ExecutorMore.

Lemma exit_code_zero_means_success_witness :
  exists rec t' os,
    executeCommand slow_env linux_tools (lit "sleep 100") no_options
    = (Returned rec, t', os)
    /\ exitCode rec <> ExitNull.
Proof.
  do 3 eexists. split; [reflexivity |].
  eapply (exit_code_zero_means_success slow_env linux_tools (lit "sleep 100")
            no_options).
  reflexivity.
Defined.

Lemma stream_resolves_at_close_witness :
  exists rec,
    sc_promise (executeCommandStream demo_env linux_tools (lit "ls") no_options
                  [OnStdout (lit "a"); OnStderr (lit "w"); OnStdout (lit "b");
                   OnClose (ExitNum 0); OnTimeout])
    = Resolved rec
    /\ stdout rec = lit "ab"
    /\ In Killed (sc_os (executeCommandStream demo_env linux_tools (lit "ls")
                           no_options
                           [OnStdout (lit "a"); OnStderr (lit "w"); OnStdout (lit "b");
                            OnClose (ExitNum 0); OnTimeout])).
Proof.
  destruct (stream_resolves_at_close demo_env linux_tools (lit "ls") no_options
              [OnStdout (lit "a"); OnStderr (lit "w"); OnStdout (lit "b")]
              [OnTimeout] (ExitNum 0))
    as (rec & Hp & Hout & _ & _ & _ & _ & Hkill).
  - vm_compute. reflexivity.
  - reflexivity.
  - exists rec. split; [exact Hp |]. split; [exact Hout |].
    apply Hkill. left. reflexivity.
Defined.

(** ** A refused command asked for by the model *)

Section RefusedToolCall.

Variable env : Env.
Variable a : PrivateAgent.
Variable args : json.
Variable c : jstring.

Hypothesis Hcommand : prop args (lit "command") = Some (Some (JStr c)).
Hypothesis Hdanger : isDangerousCommand c = true.

Lemma refused_dispatch :
  dispatch env a (lit "execute_command") args
  = (Threw security_error, systemTools a).
Proof.
  unfold dispatch. change (jstr_eqb (lit "execute_command") (lit "execute_command"))
    with true. cbv iota. rewrite Hcommand.
  destruct args as [| | | | | fields]; try discriminate.
  cbn [prop]. unfold executeCommand. rewrite Hdanger. reflexivity.
Qed.

(** When the model asks for [execute_command] with a command the denylist
    refuses, nothing is executed: the executor is left as it was, the tool
    call history gets a record of the failure, and the results list of the
    turn gets the security error under the name of the tool, which goes
    into the follow-up prompt. *)
Theorem refused_command_becomes_an_error_entry
  (results : list ToolResultEntry) (chunks : list chunk) :
  let call := {| name := lit "execute_command"; arguments := args |} in
  let '(results', a', _) := run_tool_call env (results, a, chunks) call in
  results' = results ++ [{| tr_tool := lit "execute_command"; tr_result := None;
                            tr_error := Some security_error |}]
  /\ systemTools a' = systemTools a
  /\ toolCallHistory a'
     = toolCallHistory a
       ++ [tool_record env a (lit "execute_command") args (Threw security_error)]
  /\ conversationHistory a' = conversationHistory a.
Proof.
  cbv zeta. unfold run_tool_call. cbn [name arguments].
  assert (Hobj : decode_arguments env args = args).
  { destruct args as [| | | | | fields]; try discriminate. reflexivity. }
  rewrite Hobj, executeTool_record, refused_dispatch. cbn [fst snd].
  repeat split.
Qed.

End RefusedToolCall.

Lemma refused_command_becomes_an_error_entry_witness :
  let '(results', a', _) :=
    run_tool_call demo_env ([], demo_agent 4096, [])
      {| name := lit "execute_command"; arguments := wipe_args |} in
  map tr_error results' = [Some security_error]
  /\ executionHistory (systemTools a') = [].
Proof.
  pose proof (refused_command_becomes_an_error_entry demo_env (demo_agent 4096)
                wipe_args (lit "sudo rm -rf / --no-preserve-root")
                eq_refl eq_refl [] []) as H.
  cbv zeta in H.
  destruct (run_tool_call demo_env ([], demo_agent 4096, [])
              {| name := lit "execute_command"; arguments := wipe_args |})
    as [[results' a'] shown].
  destruct H as (Hr & Ht & _). rewrite Hr, Ht. split; reflexivity.
Defined.

(** ** What the regular expressions find *)

Section Language.

Context {A : Type}.

Lemma star_greedy_some (p : ascii -> bool) (s : jstring) (k : jstring -> option A) :
  k s <> None -> star_greedy p s k <> None.
Proof.
  intros Hk. destruct s as [| x s]; cbn [star_greedy]; [exact Hk |].
  destruct (p x); [| exact Hk].
  destruct (star_greedy p s k); [discriminate | exact Hk].
Qed.

Lemma star_greedy_complete (p : ascii -> bool) (m rest : jstring)
  (k : jstring -> option A) :
  forallb p m = true -> k rest <> None -> star_greedy p (m ++ rest) k <> None.
Proof.
  intros Hm Hk. induction m as [| x m IH]; cbn [app].
  - apply star_greedy_some. exact Hk.
  - cbn [forallb] in Hm. apply andb_true_iff in Hm. destruct Hm as [Hx Hm].
    cbn [star_greedy]. rewrite Hx.
    destruct (star_greedy p (m ++ rest) k) eqn:E; [discriminate |].
    exfalso. apply (IH Hm). reflexivity.
Qed.

Lemma star_lazy_complete (p : ascii -> bool) (m rest : jstring)
  (k : jstring -> option A) :
  forallb p m = true -> k rest <> None -> star_lazy p (m ++ rest) k <> None.
Proof.
  intros Hm Hk. induction m as [| x m IH]; cbn [app].
  - destruct rest; cbn [star_lazy]; destruct (k _); congruence.
  - cbn [forallb] in Hm. apply andb_true_iff in Hm. destruct Hm as [Hx Hm].
    cbn [star_lazy]. destruct (k (x :: m ++ rest)); [discriminate |].
    rewrite Hx. apply IH. exact Hm.
Qed.

(** The matcher backtracks over every way to match: when the expression
    matches a text in full and the continuation accepts what follows, the
    matcher succeeds. *)
Lemma rmatch_complete (r : regex) (m rest : jstring) (c : captures)
  (k : jstring -> captures -> option A) :
  lang r m -> (forall c', k rest c' <> None) -> rmatch r (m ++ rest) c k <> None.
Proof.
  revert m rest c k.
  induction r as [| p | r1 IH1 r2 IH2 | r1 IH1 r2 IH2 | g p | i r1 IH1];
    intros m rest c k Hm Hk; cbn [lang rmatch] in *.
  - subst m. apply Hk.
  - destruct Hm as (x & -> & Hx). cbn [app]. rewrite Hx. apply Hk.
  - destruct Hm as (s1 & s2 & -> & H1 & H2). rewrite <- app_assoc.
    apply IH1; [exact H1 |]. intros c'. apply IH2; assumption.
  - destruct (rmatch r1 (m ++ rest) c k) eqn:E; [discriminate |].
    destruct Hm as [H1 | H2].
    + exfalso. apply (IH1 m rest c k H1 Hk). exact E.
    + apply IH2; assumption.
  - destruct g; [apply star_greedy_complete | apply star_lazy_complete];
      try exact Hm; apply Hk.
  - apply IH1; [exact Hm |]. intros c'. apply Hk.
Qed.

(** What the matcher finds is a match. *)
Lemma rmatch_sound (r : regex) (s : jstring) (c : captures)
  (k : jstring -> captures -> option A) (x : A) :
  rmatch r s c k = Some x ->
  exists m rest c', s = m ++ rest /\ lang r m /\ k rest c' = Some x.
Proof.
  revert s c k.
  induction r as [| p | r1 IH1 r2 IH2 | r1 IH1 r2 IH2 | g p | i r1 IH1];
    intros s c k H; cbn [lang rmatch] in *.
  - exists [], s, c. repeat split. exact H.
  - destruct s as [| y s]; [discriminate |].
    destruct (p y) eqn:Hy; [| discriminate].
    exists [y], s, c. repeat split; eauto.
  - apply IH1 in H. destruct H as (m1 & rest1 & c1 & -> & H1 & H).
    apply IH2 in H. destruct H as (m2 & rest2 & c2 & -> & H2 & H).
    exists (m1 ++ m2), rest2, c2. rewrite <- app_assoc.
    split; [reflexivity |]. split; [| exact H]. exists m1, m2. repeat split; assumption.
  - destruct (rmatch r1 s c k) eqn:E.
    + injection H as ->. apply IH1 in E. destruct E as (m & rest & c' & -> & H1 & H).
      exists m, rest, c'. repeat split; [left; exact H1 | exact H].
    + apply IH2 in H. destruct H as (m & rest & c' & -> & H2 & H).
      exists m, rest, c'. repeat split; [right; exact H2 | exact H].
  - destruct g.
    + apply star_greedy_inv in H. destruct H as (w & s' & -> & Hw & H).
      exists w, s', c. repeat split; assumption.
    + apply star_lazy_inv in H. destruct H as (w & s' & -> & Hw & H).
      exists w, s', c. repeat split; assumption.
  - apply IH1 in H. destruct H as (m & rest & c' & -> & H1 & H).
    exists m, rest. eexists. repeat split; [exact H1 | exact H].
Qed.

End Language.

(** [test] says whether some part of the text is matched in full. *)
Lemma test_spec (r : regex) (s : jstring) :
  test r s = true <-> exists pre m post, s = pre ++ m ++ post /\ lang r m.
Proof.
  unfold test. split.
  - destruct (exec r s) as [[c rest] |] eqn:E; [intros _ | discriminate].
    apply exec_inv in E. destruct E as (pre & s0 & -> & E).
    apply rmatch_sound in E. destruct E as (m & post & c' & -> & Hm & _).
    exists pre, m, post. split; [reflexivity | exact Hm].
  - intros (pre & m & post & -> & Hm).
    assert (H : exec r (pre ++ m ++ post) <> None).
    { induction pre as [| y pre IH]; cbn [app].
      - rewrite exec_unfold. unfold match_here.
        destruct (rmatch r (m ++ post) [] _) eqn:E; [discriminate |].
        exfalso. revert E. apply rmatch_complete; [exact Hm | discriminate].
      - cbn [exec]. destruct (match_here r (y :: pre ++ m ++ post));
          [discriminate | exact IH]. }
    destruct (exec r (pre ++ m ++ post)); [reflexivity | congruence].
Qed.

(** A command the denylist refuses stays refused inside any longer command
    line: nothing put before it or after it makes it pass. *)
Theorem refused_inside_any_command_line (before command after : jstring) :
  isDangerousCommand command = true ->
  isDangerousCommand (before ++ command ++ after) = true.
Proof.
  unfold isDangerousCommand. intros H.
  apply existsb_exists in H. destruct H as (pattern & Hin & Ht).
  apply existsb_exists. exists pattern. split; [exact Hin |].
  apply test_spec in Ht. destruct Ht as (pre & m & post & E & Hm).
  apply test_spec. unfold toLowerCase in *. rewrite !map_app, E.
  exists (map lower_chr before ++ pre), m, (post ++ map lower_chr after).
  rewrite <- !app_assoc. split; [reflexivity | exact Hm].
Qed.

(** The denylist refuses exactly the commands that, in lower case, hold a
    text one of its ten patterns matches in full; the letter case of the
    command plays no part. *)
Theorem denylist_refuses_what_its_patterns_match (command : jstring) :
  (isDangerousCommand command = true <->
   exists pattern pre m post,
     In pattern dangerousPatterns
     /\ toLowerCase command = pre ++ m ++ post /\ lang pattern m)
  /\ isDangerousCommand (toLowerCase command) = isDangerousCommand command.
Proof.
  split.
  - unfold isDangerousCommand. rewrite existsb_exists. split.
    + intros (pattern & Hin & Ht). apply test_spec in Ht.
      destruct Ht as (pre & m & post & E & Hm). exists pattern, pre, m, post. tauto.
    + intros (pattern & pre & m & post & Hin & E & Hm).
      exists pattern. split; [exact Hin |]. apply test_spec. eauto.
  - unfold isDangerousCommand.
    assert (H : toLowerCase (toLowerCase command) = toLowerCase command).
    { unfold toLowerCase. rewrite map_map. apply map_ext.
      intros ch. destruct ch as [[] [] [] [] [] [] [] []]; reflexivity. }
    rewrite H. reflexivity.
Qed.

Lemma lang_str (l : jstring) : lang (str l) l.
Proof.
  induction l as [| x l IH]; cbn [str lang]; [reflexivity |].
  exists [x], l. split; [reflexivity |]. split; [| exact IH].
  exists x. split; [reflexivity |]. unfold chr_eqb. apply Ascii.eqb_refl.
Qed.

Lemma refused_inside_any_command_line_witness :
  isDangerousCommand (lit "cd /tmp && " ++ lit "rm -rf /" ++ lit " ; echo done") = true.
Proof.
  apply (refused_inside_any_command_line (lit "cd /tmp && ") (lit "rm -rf /")
           (lit " ; echo done")).
  vm_compute. reflexivity.
Defined.

Lemma denylist_refuses_what_its_patterns_match_witness :
  isDangerousCommand (lit "Please REBOOT now") = true.
Proof.
  apply (proj1 (denylist_refuses_what_its_patterns_match (lit "Please REBOOT now"))).
  exists (str (lit "reboot")), (lit "please "), (lit "reboot"), (lit " now").
  split; [cbn; tauto |]. split; [reflexivity | apply lang_str].
Defined.

(** ** Markers that are not complete *)

Section IncompleteMarkers.

Variable env : Env.

Lemma starts_with_app (p b : jstring) : starts_with p (p ++ b) = true.
Proof. unfold starts_with. rewrite strip_prefix_app. reflexivity. Qed.

Lemma includes_intro (a p b : jstring) : includes p (a ++ p ++ b) = true.
Proof.
  induction a as [| y a IH]; cbn [app].
  - destruct (p ++ b) as [| z l] eqn:E; cbn [includes]; rewrite <- E;
      rewrite starts_with_app; reflexivity.
  - cbn [includes]. rewrite IH. apply orb_true_r.
Qed.

Lemma includes_head (p b : jstring) : includes p (p ++ b) = true.
Proof. apply (includes_intro [] p b). Qed.

Lemma includes_app_r (a p s : jstring) :
  includes p s = true -> includes p (a ++ s) = true.
Proof.
  intros H. induction a as [| y a IH]; [exact H |].
  cbn [app includes]. rewrite IH. apply orb_true_r.
Qed.

Lemma marker_text_tags (pre rest : jstring) (m : marker_spec) (tag : jstring) :
  In tag marker_tags -> includes tag (pre ++ marker_text m ++ rest) = true.
Proof.
  unfold marker_tags, marker_text. cbn [In].
  intros [<- | [<- | [<- | [<- | [<- | [<- | []]]]]]];
    rewrite <- !app_assoc;
    repeat first [apply includes_head | apply includes_app_r].
Qed.

(** A text that lacks one of the six tags of a marker -- an answer cut
    before the closing tag, a marker without its arguments -- holds no tool
    call: nothing is extracted, and a turn that ends with it runs no tool
    and asks for no follow-up. *)
Theorem incomplete_marker_runs_no_tool (text tag : jstring) :
  In tag marker_tags ->
  includes tag text = false ->
  extractToolCalls env text = []
  /\ forall (a : PrivateAgent) (userMessage : jstring) (options : chat_options)
       (events : list stream_event) (parsed : fragment) (chunks : list chunk)
       (followUp : response),
       consume events [] [] = (Done text parsed, chunks) ->
       streamChat env a userMessage options (Streaming events) followUp
       = (Resolved {| message := text;
                      turn_model := model a;
                      contextReset := false; toolCalls := [];
                      total_tokens := token_total parsed |},
          addMessage (addMessage a user_role userMessage) assistant_role text,
          chunks).
Proof.
  intros Hin Hno.
  assert (E : extractToolCalls env text = []).
  { destruct (exec tool_call_regex text) as [[c rest] |] eqn:Ex.
    - apply exec_inv in Ex. destruct Ex as (pre & s0 & -> & Hm).
      apply match_here_inv in Hm. destruct Hm as (m & -> & _).
      rewrite (marker_text_tags pre rest m tag Hin) in Hno. discriminate.
    - apply (extractToolCalls_none env text Ex). }
  split; [exact E |].
  intros a userMessage options events parsed chunks followUp Hc.
  unfold streamChat. rewrite Hc, E. cbn [length Nat.ltb Nat.leb andb].
  pose proof (addMessage_frame (addMessage a user_role userMessage)
                assistant_role text) as (_ & _ & _ & Hm & _).
  pose proof (addMessage_frame a user_role userMessage) as (_ & _ & _ & Hm1 & _).
  rewrite Hm, Hm1. reflexivity.
Qed.

End IncompleteMarkers.

Lemma incomplete_marker_runs_no_tool_witness :
  extractToolCalls demo_env cut_marker = [].
Proof.
  apply (incomplete_marker_runs_no_tool demo_env cut_marker (lit "</tool_call>")).
  - cbn. tauto.
  - vm_compute. reflexivity.
Defined.

(** ** Import into another agent, and import of other documents *)

Section ImportMore.

Variable env : Env.

(** Importing into an agent [b] what was exported from an agent [a] gives
    [b] the history of [a]; it gives [b] the model and the system prompt of
    [a] only where they are not empty, and leaves those of [b] otherwise.
    The token budget, the tool switch and the tool call history of [b]
    stay. *)
Theorem import_into_another_agent (a b : PrivateAgent) (iso : jstring) :
  JSON_parse env (exportHistory env a iso) = Returned (export_document a iso) ->
  importHistory env b (exportHistory env a iso)
  = Imported
      (set_model_prompt_history b
         (if truthy_str (model a) then model a else model b)
         (if truthy_str (systemPrompt a) then systemPrompt a else systemPrompt b)
         (conversationHistory a)).
Proof.
  intros Hparse. unfold importHistory. rewrite Hparse. cbv beta iota.
  change (prop (export_document a iso) (lit "model"))
    with (Some (Some (JStr (model a)))).
  change (prop (export_document a iso) (lit "systemPrompt"))
    with (Some (Some (JStr (systemPrompt a)))).
  change (prop (export_document a iso) (lit "history"))
    with (Some (Some (JArr (map message_json (conversationHistory a))))).
  cbv beta iota. unfold or_string_field. cbn [truthy].
  rewrite json_messages_roundtrip.
  destruct (truthy_str (model a)), (truthy_str (systemPrompt a)); reflexivity.
Qed.

(** A document that parses but holds none of the three properties -- an
    empty object, an array, a number, a string -- is imported without
    error: model and system prompt stay, and the history is emptied.  The
    document [null] makes the import fail, and leaves the agent as it is. *)
Theorem import_without_properties_empties_history (a : PrivateAgent)
  (blob : jstring) (data : json) :
  JSON_parse env blob = Returned data ->
  (forall fields, data = JObj fields ->
     lookup (lit "model") fields = None
     /\ lookup (lit "systemPrompt") fields = None
     /\ lookup (lit "history") fields = None) ->
  (data <> JNull -> importHistory env a blob = Imported (clearHistory a))
  /\ (data = JNull ->
      importHistory env a blob
      = ImportThrew (import_prefix ++ null_read_error (lit "model"))).
Proof.
  intros Hparse Hfields. unfold importHistory. rewrite Hparse.
  split.
  - intros Hnn.
    assert (Hp : forall k, In k [lit "model"; lit "systemPrompt"; lit "history"] ->
                 prop data k = Some None).
    { intros k Hk. destruct data as [| bl | m e | s | l | fields];
        try reflexivity; [congruence |].
      destruct (Hfields fields eq_refl) as (H1 & H2 & H3).
      cbn [In] in Hk. cbn [prop].
      destruct Hk as [<- | [<- | [<- | []]]]; congruence. }
    rewrite !Hp by (cbn; tauto).
    unfold or_string_field. cbn [truthy]. unfold clearHistory.
    destruct a; reflexivity.
  - intros ->. reflexivity.
Qed.

End ImportMore.

Lemma import_into_another_agent_witness :
  (exists b', importHistory demo_env (demo_agent 1)
                (exportHistory demo_env chatty_agent iso_2024) = Imported b'
              /\ conversationHistory b' = conversationHistory chatty_agent
              /\ maxContextTokens b' = 1%Z)
  /\ (exists b', importHistory demo_env (demo_agent 1)
                   (exportHistory demo_env blank_agent iso_2024) = Imported b'
                 /\ model b' = lit "llama2").
Proof.
  split.
  - eexists. split.
    + apply (import_into_another_agent demo_env chatty_agent (demo_agent 1) iso_2024).
      vm_compute. reflexivity.
    + split; reflexivity.
  - eexists. split.
    + apply (import_into_another_agent demo_env blank_agent (demo_agent 1) iso_2024).
      vm_compute. reflexivity.
    + reflexivity.
Defined.

Lemma import_without_properties_empties_history_witness :
  importHistory demo_env chatty_agent (lit "[1, 2]") = Imported (clearHistory chatty_agent).
Proof.
  apply (import_without_properties_empties_history demo_env chatty_agent
           (lit "[1, 2]") (JArr [JNum 1 0; JNum 2 0])).
  - vm_compute. reflexivity.
  - discriminate.
  - discriminate.
Defined.

(** ** The chat without streaming *)

Section Chat.

Variable a : PrivateAgent.
Variable userMessage : jstring.

(** A chat that the server answers leaves the conversation ending with the
    message of the user and the answer; a chat whose request fails throws
    the error of the request behind the words [Chat error: ], and leaves
    the message of the user in the conversation; with [stream] the answer
    is not added. *)
Theorem chat_outcomes (stream : bool) (answer : outcome jstring) :
  (forall reply, answer = Returned reply -> stream = false ->
     exists earlier a',
       chat a userMessage stream answer
       = (Returned (ChatReply reply (model a) false), a')
       /\ conversationHistory a'
          = earlier ++ [{| role := user_role; content := userMessage |};
                        {| role := assistant_role; content := reply |}])
  /\ (forall msg, answer = Threw msg ->
        chat a userMessage stream answer
        = (Threw (lit "Chat error: " ++ msg), addMessage a user_role userMessage)
        /\ exists earlier,
             conversationHistory (addMessage a user_role userMessage)
             = earlier ++ [{| role := user_role; content := userMessage |}])
  /\ (forall reply, answer = Returned reply -> stream = true ->
        chat a userMessage stream answer
        = (Returned ChatStream, addMessage a user_role userMessage)).
Proof.
  assert (Huser : exists earlier,
             conversationHistory (addMessage a user_role userMessage)
             = earlier ++ [{| role := user_role; content := userMessage |}]).
  { destruct (addMessage_suffix a user_role userMessage
                (conversationHistory a) []) as (earlier & E);
      [rewrite app_nil_r; reflexivity | cbn; lia |].
    exists earlier. exact E. }
  split; [| split].
  - intros reply -> ->. destruct Huser as (e1 & E1).
    destruct (addMessage_suffix (addMessage a user_role userMessage)
                assistant_role reply e1 _ E1) as (e2 & E2); [cbn; lia |].
    exists e2. eexists. unfold chat. split; [| exact E2].
    pose proof (addMessage_frame (addMessage a user_role userMessage)
                  assistant_role reply) as (_ & _ & _ & Hm & _).
    pose proof (addMessage_frame a user_role userMessage) as (_ & _ & _ & Hm1 & _).
    rewrite Hm, Hm1. reflexivity.
  - intros msg ->. split; [reflexivity | exact Huser].
  - intros reply -> ->. reflexivity.
Qed.

(** The result of a chat says [contextReset: false] even when the call reset
    the context: a message of the user longer than four times the budget
    always resets it, and the results of [chat] and of [streamChat] say
    the same as ever. *)
Theorem turn_results_never_report_a_reset (env : Env) (reply : jstring)
  (options : chat_options) (first followUp : response) :
  (4 * maxContextTokens a < Z.of_nat (length userMessage))%Z ->
  In reset_notice (conversationHistory (addMessage a user_role userMessage))
  /\ (forall res a', chat a userMessage false (Returned reply) = (Returned res, a') ->
        exists m, res = ChatReply reply m false)
  /\ (forall r a' shown,
        streamChat env a userMessage options first followUp = (Resolved r, a', shown) ->
        contextReset r = false).
Proof.
  intros Hlong. split; [| split].
  - assert (E : exceeds (set_conversationHistory a
                           (pushed_history a user_role userMessage)) = true).
    { apply exceeds_spec. cbn [maxContextTokens set_conversationHistory
                                conversationHistory].
      unfold pushed_history. rewrite totalChars_app.
      pose proof (totalChars_nonneg (conversationHistory a)).
      change (totalChars [{| role := user_role; content := userMessage |}])
        with (0 + Z.of_nat (length userMessage))%Z. lia. }
    rewrite (addMessage_reset_history a user_role userMessage E).
    apply in_or_app. right. left. reflexivity.
  - intros res a' E. unfold chat in E. injection E as <- _. eauto.
  - intros r a' shown E. unfold streamChat in E.
    destruct first as [msg | events]; [discriminate |].
    destruct (consume events [] []) as [[full parsed | msg |] chunks];
      try discriminate.
    destruct (_ && _ && _).
    + destruct (executeToolCallsAndContinue env _ _) as [[toolResults a2] shown2].
      destruct (continueAfterTools env _ _ followUp) as [[[full2 | msg |] a4] shown3];
        try discriminate.
      injection E as <- _ _. reflexivity.
    + injection E as <- _ _. reflexivity.
Qed.

End Chat.

Lemma chat_outcomes_witness :
  exists earlier a',
    chat (demo_agent 4096) hello false (Returned (lit "hi"))
    = (Returned (ChatReply (lit "hi") (lit "llama2") false), a')
    /\ conversationHistory a'
       = earlier ++ [{| role := user_role; content := hello |};
                     {| role := assistant_role; content := lit "hi" |}].
Proof.
  destruct (chat_outcomes (demo_agent 4096) hello false (Returned (lit "hi")))
    as (Hok & _).
  exact (Hok (lit "hi") eq_refl eq_refl).
Defined.

Lemma turn_results_never_report_a_reset_witness :
  In reset_notice (conversationHistory (addMessage (demo_agent 1) user_role hello)).
Proof.
  apply (turn_results_never_report_a_reset (demo_agent 1) hello demo_env (lit "hi")
           default_chat first_response follow_up_response).
  vm_compute. reflexivity.
Defined.

(** ** The prompt with the tool results *)

Section ResultPrompt.

Lemma prompt_fold (results : list ToolResultEntry) (start : jstring) :
  fold_left (fun prompt r => prompt ++ result_section r) results start
  = start ++ concat (map result_section results).
Proof.
  revert start. induction results as [| r results IH]; intros start; cbn [fold_left].
  - cbn. rewrite app_nil_r. reflexivity.
  - rewrite IH. cbn [map concat]. rewrite <- app_assoc. reflexivity.
Qed.

Lemma includes_app_l (p s b : jstring) :
  includes p s = true -> includes p (s ++ b) = true.
Proof.
  induction s as [| y s IH]; cbn [includes app].
  - unfold starts_with. rewrite orb_false_r.
    destruct p as [| x p]; [intros _ | discriminate].
    destruct b; reflexivity.
  - intros H. apply orb_true_iff in H. destruct H as [H | H].
    + unfold starts_with in *.
      destruct (strip_prefix p (y :: s)) as [s' |] eqn:E; [| discriminate].
      apply strip_prefix_inv in E. change (y :: s ++ b) with ((y :: s) ++ b).
      rewrite E, <- app_assoc, strip_prefix_app. reflexivity.
    + rewrite (IH H). apply orb_true_r.
Qed.

Lemma includes_refl (p : jstring) : includes p p = true.
Proof.
  pose proof (includes_head p []) as H. rewrite app_nil_r in H. exact H.
Qed.

(** The follow-up prompt is the heading, then one section for each entry
    of the results list in order, then the request for an answer.  The
    section of an entry names its tool; it shows the error of the entry
    when the entry has one that is not empty, and otherwise the result of
    the entry, or the word [undefined] when the entry has no result. *)
Theorem prompt_holds_every_result (results : list ToolResultEntry) :
  buildToolResultPrompt results
  = prompt_header ++ concat (map result_section results) ++ prompt_footer
  /\ forall r, In r results ->
       includes (lit "Tool: " ++ tr_tool r ++ [NL]) (buildToolResultPrompt results)
       = true
       /\ (forall e, tr_error r = Some e -> truthy_str e = true ->
             includes (lit "Error: " ++ e ++ [NL; NL]) (buildToolResultPrompt results)
             = true)
       /\ (tr_error r = None \/ tr_error r = Some [] ->
           (forall t, tr_result r = Some t ->
              includes (lit "Result:" ++ [NL] ++ t ++ [NL; NL])
                (buildToolResultPrompt results) = true)
           /\ (tr_result r = None ->
               includes (lit "Result:" ++ [NL] ++ lit "undefined" ++ [NL; NL])
                 (buildToolResultPrompt results) = true)).
Proof.
  assert (E : buildToolResultPrompt results
              = prompt_header ++ concat (map result_section results) ++ prompt_footer).
  { unfold buildToolResultPrompt.
    change (fold_left _ results _)
      with (fold_left (fun prompt r => prompt ++ result_section r) results
              prompt_header).
    rewrite prompt_fold, <- app_assoc. reflexivity. }
  split; [exact E |].
  intros r Hin. rewrite E. apply in_split in Hin. destruct Hin as (l1 & l2 & ->).
  rewrite map_app, concat_app. cbn [map concat]. rewrite <- !app_assoc.
  assert (Hsec : forall p, includes p (result_section r) = true ->
             includes p (prompt_header ++ concat (map result_section l1)
                         ++ result_section r
                         ++ concat (map result_section l2) ++ prompt_footer) = true).
  { intros p Hp. do 2 apply includes_app_r. apply includes_app_l. exact Hp. }
  assert (Hresult : tr_error r = None \/ tr_error r = Some [] ->
            result_section r
            = lit "Tool: " ++ tr_tool r ++ [NL]
              ++ (lit "Result:" ++ [NL] ++ result_text r ++ [NL; NL])).
  { unfold result_section. intros [-> | ->]; reflexivity. }
  split; [| split].
  - apply Hsec. unfold result_section.
    replace (lit "Tool: " ++ tr_tool r ++ [NL] ++
             match tr_error r with
             | Some e =>
                 if truthy_str e then lit "Error: " ++ e ++ [NL; NL]
                 else lit "Result:" ++ [NL] ++ result_text r ++ [NL; NL]
             | None => lit "Result:" ++ [NL] ++ result_text r ++ [NL; NL]
             end)
      with ((lit "Tool: " ++ tr_tool r ++ [NL]) ++
            match tr_error r with
            | Some e =>
                if truthy_str e then lit "Error: " ++ e ++ [NL; NL]
                else lit "Result:" ++ [NL] ++ result_text r ++ [NL; NL]
            | None => lit "Result:" ++ [NL] ++ result_text r ++ [NL; NL]
            end)
      by (rewrite <- !app_assoc; reflexivity).
    apply includes_head.
  - intros e He Ht. apply Hsec. unfold result_section. rewrite He, Ht.
    do 3 apply includes_app_r. apply includes_refl.
  - intros Hno. split.
    + intros t Ht. apply Hsec. rewrite (Hresult Hno). unfold result_text. rewrite Ht.
      do 3 apply includes_app_r. apply includes_refl.
    + intros Ht. apply Hsec. rewrite (Hresult Hno). unfold result_text. rewrite Ht.
      do 3 apply includes_app_r. apply includes_refl.
Qed.

End ResultPrompt.

Lemma prompt_holds_every_result_witness :
  includes (lit "Error: Failed to read file: ENOENT" ++ [NL; NL])
    (buildToolResultPrompt sample_results) = true
  /\ includes (lit "Result:" ++ [NL] ++ lit "/home/user" ++ [NL; NL])
       (buildToolResultPrompt sample_results) = true.
Proof.
  destruct (prompt_holds_every_result sample_results) as (_ & Hall).
  split.
  - destruct (Hall {| tr_tool := lit "read_file"; tr_result := None;
                      tr_error := Some (lit "Failed to read file: ENOENT") |})
      as (_ & Herr & _).
    + cbn. tauto.
    + apply (Herr (lit "Failed to read file: ENOENT")); reflexivity.
  - destruct (Hall {| tr_tool := lit "get_current_directory";
                      tr_result := Some (lit "/home/user");
                      tr_error := Some [] |})
      as (_ & _ & Hres).
    + cbn. tauto.
    + destruct Hres as (Hshown & _); [right; reflexivity |].
      apply (Hshown (lit "/home/user")). reflexivity.
Defined.

(** ** The file methods *)

Section Files.

Variable fs : FileSystem.

(** [readFile] reads a file only after a [stat] that succeeded and gave a
    size within the limit, so a file above the limit is never read; what it
    returns is the size of the [stat] and the content of the read; whatever
    it throws begins with [Failed to read file: ]. *)
Theorem readFile_reads_within_the_limit (filePath : jstring) (maxSize : option Z) :
  let limit := match maxSize with Some m => m | None => default_maxSize end in
  let full := path_resolve fs filePath in
  (forall q, In (FsReadFile q) (snd (readFile fs filePath maxSize)) ->
     q = full /\ exists stats, stat fs full = Returned stats
                               /\ (st_size stats <= limit)%Z)
  /\ (forall v, fst (readFile fs filePath maxSize) = Returned v ->
        exists stats text,
          stat fs full = Returned stats /\ read fs full = Returned text
          /\ (st_size stats <= limit)%Z
          /\ prop v (lit "size") = Some (Some (JNum (st_size stats) 0))
          /\ prop v (lit "content") = Some (Some (JStr text)))
  /\ (forall msg, fst (readFile fs filePath maxSize) = Threw msg ->
        starts_with read_prefix msg = true)
  /\ (forall stats, stat fs full = Returned stats -> (limit < st_size stats)%Z ->
        readFile fs filePath maxSize
        = (Threw (read_prefix ++ too_large_error (st_size stats) limit),
           [FsStat full])).
Proof.
  intros limit full. unfold readFile. fold limit. fold full.
  assert (Hpre : forall m, starts_with read_prefix (read_prefix ++ m) = true).
  { intros m. unfold starts_with. rewrite strip_prefix_app. reflexivity. }
  destruct (stat fs full) as [stats | msg0] eqn:Es.
  - destruct (limit <? st_size stats)%Z eqn:El.
    + apply Z.ltb_lt in El. repeat split.
      * cbn in H. destruct H as [H | []]. discriminate.
      * cbn in H. destruct H as [H | []]. discriminate.
      * intros v H. discriminate.
      * intros msg H. cbn in H. injection H as <-. apply Hpre.
      * intros stats' H _. injection H as <-. reflexivity.
    + apply Z.ltb_ge in El.
      destruct (read fs full) as [text | msg1] eqn:Er; repeat split.
      * cbn in H. destruct H as [H | [H | []]]; congruence.
      * exists stats. split; [reflexivity | exact El].
      * intros v H. cbn in H. injection H as <-.
        exists stats, text. repeat split; try reflexivity. exact El.
      * intros msg H. discriminate.
      * intros stats' H Hl. injection H as <-. lia.
      * cbn in H. destruct H as [H | [H | []]]; congruence.
      * exists stats. split; [reflexivity | exact El].
      * intros v H. discriminate.
      * intros msg H. cbn in H. injection H as <-. apply Hpre.
      * intros stats' H Hl. injection H as <-. lia.
  - repeat split.
    + cbn in H. destruct H as [H | []]. discriminate.
    + cbn in H. destruct H as [H | []]. discriminate.
    + intros v H. discriminate.
    + intros msg H. cbn in H. injection H as <-. apply Hpre.
    + intros stats H. discriminate.
Qed.

(** A detailed listing does not fail when the [stat] of an entry fails: it
    has one entry for each entry of the directory, with the names in the
    order of [readdir], and the entry of a file whose [stat] failed holds
    the words [Unable to read stats] and no size. *)
Theorem listing_survives_stat_failures (dirPath : option jstring)
  (files : list Dirent) :
  let full := path_resolve fs (match dirPath with Some p => p | None => lit "." end) in
  readdir fs full = Returned files ->
  exists entries,
    fst (listDirectory fs dirPath true) = Returned (JArr entries)
    /\ map (fun e => prop e (lit "name")) entries
       = map (fun f => Some (Some (JStr (d_name f)))) files
    /\ (forall f msg, In f files ->
          stat fs (path_join fs full (d_name f)) = Threw msg ->
          exists e, In e entries
                    /\ prop e (lit "name") = Some (Some (JStr (d_name f)))
                    /\ prop e (lit "error") = Some (Some (JStr stats_unreadable))
                    /\ prop e (lit "size") = Some None)
    /\ snd (listDirectory fs dirPath true)
       = FsReaddir full :: map (fun f => FsStat (path_join fs full (d_name f))) files.
Proof.
  intros full Hdir. unfold listDirectory. fold full. rewrite Hdir.
  exists (map (entry_detailed fs full) files). repeat split.
  - rewrite map_map. apply map_ext. intros f. unfold entry_detailed.
    destruct (stat fs _); reflexivity.
  - intros f msg Hin Hst. exists (entry_detailed fs full f). split.
    + apply in_map. exact Hin.
    + unfold entry_detailed. rewrite Hst. repeat split.
Qed.

Lemma octal_enough (f g : nat) (n : Z) :
  (0 <= n < 8 ^ Z.of_nat (S f))%Z -> (n < 8 ^ Z.of_nat (S g))%Z ->
  octal (S f) n = octal (S g) n.
Proof.
  revert g n. induction f as [| f IH]; intros g n Hf Hg.
  - change (8 ^ Z.of_nat 1)%Z with 8%Z in Hf. cbn [octal].
    destruct (Z.ltb_spec n 8); [reflexivity | lia].
  - cbn [octal]. destruct (Z.ltb_spec n 8) as [Hs | Hb]; [reflexivity |].
    destruct g as [| g].
    { change (8 ^ Z.of_nat 1)%Z with 8%Z in Hg. lia. }
    f_equal.
    assert (Hpow : forall k, (8 ^ Z.of_nat (S (S k)) = 8 * 8 ^ Z.of_nat (S k))%Z).
    { intros k. rewrite (Nat2Z.inj_succ (S k)), Z.pow_succ_r by lia. reflexivity. }
    rewrite Hpow in Hf, Hg.
    change (octal (S f) (n / 8) = octal (S g) (n / 8)).
    apply IH.
    + split; [apply Z.div_pos; lia |].
      apply Z.div_lt_upper_bound; lia.
    + apply Z.div_lt_upper_bound; lia.
Qed.

Lemma toString8_fuel (n : Z) :
  (0 < n)%Z -> (n < 8 ^ Z.of_nat (S (Z.to_nat (Z.log2 n))))%Z.
Proof.
  intros Hn. pose proof (Z.log2_nonneg n) as Hl.
  rewrite Nat2Z.inj_succ, Z2Nat.id by lia.
  destruct (Z.log2_spec n Hn) as [_ Hu].
  eapply Z.lt_le_trans; [exact Hu |].
  apply Z.pow_le_mono_l. lia.
Qed.

Lemma toString8_small (n : Z) : (n < 8)%Z -> toString8 n = [octal_digit n].
Proof.
  intros H. unfold toString8. cbn [octal].
  destruct (Z.ltb_spec n 8); [reflexivity | lia].
Qed.

Lemma toString8_step (n : Z) :
  (8 <= n)%Z -> toString8 n = toString8 (n / 8) ++ [octal_digit (n mod 8)].
Proof.
  intros H. unfold toString8 at 1. cbn [octal].
  destruct (Z.ltb_spec n 8) as [Hs | _]; [lia |].
  f_equal. unfold toString8.
  assert (H8 : (0 < n / 8)%Z) by (apply Z.div_str_pos; lia).
  pose proof (toString8_fuel n ltac:(lia)) as Hn.
  pose proof (toString8_fuel (n / 8) H8) as Hd.
  destruct (Z.to_nat (Z.log2 n)) as [| f] eqn:Ef.
  { change (8 ^ Z.of_nat 1)%Z with 8%Z in Hn. lia. }
  apply octal_enough.
  - split; [lia |].
    rewrite (Nat2Z.inj_succ (S f)), Z.pow_succ_r in Hn by lia.
    apply Z.div_lt_upper_bound; lia.
  - exact Hd.
Qed.

(** The permissions of a detailed listing are the last three octal digits
    of the mode, for every mode of at least three octal digits: the type
    bits of the file are cut off. *)
Theorem permissions_are_the_last_three_digits (mode : Z) :
  (64 <= mode)%Z ->
  permissions mode
  = [octal_digit (mode / 64 mod 8); octal_digit (mode / 8 mod 8);
     octal_digit (mode mod 8)].
Proof.
  intros H. unfold permissions.
  rewrite (toString8_step mode) by lia.
  assert (H8 : (8 <= mode / 8)%Z) by (apply Z.div_le_lower_bound; lia).
  rewrite (toString8_step (mode / 8)) by exact H8.
  rewrite Z.div_div by lia. change (8 * 8)%Z with 64%Z.
  assert (Hq : (0 < mode / 64)%Z) by (apply Z.div_str_pos; lia).
  assert (Hlast : exists pre, toString8 (mode / 64)
                              = pre ++ [octal_digit (mode / 64 mod 8)]).
  { destruct (Z.ltb_spec (mode / 64) 8) as [Hs | Hb].
    - exists []. rewrite toString8_small by exact Hs.
      rewrite Z.mod_small by lia. reflexivity.
    - exists (toString8 (mode / 64 / 8)). apply toString8_step. exact Hb. }
  destruct Hlast as (pre & ->). rewrite <- !app_assoc. cbn [app].
  unfold slice_from. rewrite length_app. cbn [length].
  change (-3 <? 0)%Z with true. cbv iota.
  replace (Z.to_nat (Z.max (Z.of_nat (length pre + 3) + -3) 0)) with (length pre) by lia.
  rewrite skipn_app, skipn_all, Nat.sub_diag. reflexivity.
Qed.

End Files.

Lemma readFile_reads_within_the_limit_witness :
  readFile sample_fs (lit "notes.txt") None
  = (Threw (read_prefix ++ lit "File too large (2097152 bytes). Max: 1048576 bytes"),
     [FsStat (lit "/home/user/notes.txt")]).
Proof.
  destruct (readFile_reads_within_the_limit sample_fs (lit "notes.txt") None)
    as (_ & _ & _ & Hbig).
  apply (Hbig {| st_size := 2097152; st_mtime := iso_2024; st_mode := 33188 |}).
  - reflexivity.
  - vm_compute. reflexivity.
Defined.

Lemma listing_survives_stat_failures_witness :
  exists entries,
    fst (listDirectory sample_fs None true) = Returned (JArr entries)
    /\ length entries = 2.
Proof.
  destruct (listing_survives_stat_failures sample_fs None
              [{| d_name := lit "notes.txt"; d_isDirectory := false; d_isFile := true |};
               {| d_name := lit "gone"; d_isDirectory := false; d_isFile := true |}])
    as (entries & E & Hnames & _).
  - reflexivity.
  - exists entries. split; [exact E |].
    apply (f_equal (@length _)) in Hnames. rewrite !length_map in Hnames.
    exact Hnames.
Defined.

Lemma permissions_are_the_last_three_digits_witness :
  permissions 33188 = lit "644".
Proof.
  rewrite (permissions_are_the_last_three_digits 33188) by lia.
  reflexivity.
Defined.

(** ** The table of common commands *)

(** No command of the table of common commands, on Windows or elsewhere,
    is refused by the denylist. *)
Theorem common_commands_pass_the_denylist (t : SystemTools) (key command : jstring) :
  In (key, command) (getCommonCommands t) ->
  isDangerousCommand command = false.
Proof.
  unfold getCommonCommands. destruct (isWindows t); cbn [In]; intros H;
    repeat (destruct H as [H | H];
            [injection H as _ <-; vm_compute; reflexivity |]);
    destruct H.
Qed.

Lemma common_commands_pass_the_denylist_witness :
  isDangerousCommand (lit "ls -la") = false.
Proof.
  apply (common_commands_pass_the_denylist linux_tools (lit "listFiles") (lit "ls -la")).
  left. reflexivity.
Defined.

(** ** The system prompt with the tools *)

Section EnhancedPrompt.

Variable env : Env.

Lemma enhanced_prompt_parts (a : PrivateAgent) :
  enableTools a = true ->
  getEnhancedSystemPrompt a
  = assemble (enhanced_intro a)
      [(format_marker, after_format); (example_marker, after_example)].
Proof.
  intros Ht. unfold getEnhancedSystemPrompt. rewrite Ht. cbv beta iota delta [negb].
  unfold enhanced_intro, assemble.
  rewrite <- !app_assoc. reflexivity.
Qed.

(** With the tools off the prompt is the system prompt.  With the tools on,
    the description of the format and the example in the prompt are markers
    as the extraction reads them: where the text before them holds no
    opening tag, the extraction over the prompt gives the call of
    [tool_name] and the call of [list_directory], in this order. *)
Theorem enhanced_prompt_holds_two_markers (a : PrivateAgent) :
  (enableTools a = false -> getEnhancedSystemPrompt a = systemPrompt a)
  /\ (enableTools a = true -> plain (enhanced_intro a) = true ->
      extractToolCalls env (getEnhancedSystemPrompt a)
      = [entry_of env (lit "tool_name")
           (jtext "{'arg1': 'value1', 'arg2': 'value2'}");
         entry_of env (lit "list_directory")
           (jtext "{'path': '.', 'detailed': true}")]).
Proof.
  split.
  - intros Hf. unfold getEnhancedSystemPrompt. rewrite Hf. reflexivity.
  - intros Ht Hp. rewrite (enhanced_prompt_parts a Ht).
    rewrite (extract_assemble env _ _ Hp); [reflexivity |].
    vm_compute. reflexivity.
Qed.

End EnhancedPrompt.

Lemma enhanced_prompt_holds_two_markers_witness :
  map name (extractToolCalls demo_env (getEnhancedSystemPrompt (demo_agent 4096)))
  = [lit "tool_name"; lit "list_directory"].
Proof.
  destruct (enhanced_prompt_holds_two_markers demo_env (demo_agent 4096)) as (_ & H).
  rewrite H.
  - reflexivity.
  - reflexivity.
  - vm_compute. reflexivity.
Defined.
